(** * Diggy AGS: parser, position index, summary aggregator and table
      synchronisation, embedded from [src/extension.ts] and
      [src/table-view-provider.ts].

    Conventions of the embedding.
    - A JavaScript string is a [string]; a code unit is an [ascii], so the
      text is taken in the Latin-1 range.  [line[i]] is [String.get],
      [line.length] is [String.length].
    - A VS Code text document is the list of its lines ([lineAt(i).text]),
      [lineCount] is the length of that list.
    - Line numbers, character offsets and counters that the code only ever
      increments from 0 are [nat]; numbers that can be [-1] or that arrive
      in a webview message are [Z].
    - A JavaScript [Map] is an association list in insertion order
      ([mapSet] keeps the position of an existing key).
    - Depth values are IEEE-754 binary64 numbers, modelled by the standard
      library's executable specification [spec_float] at precision 53. *)

From Stdlib Require Import List String Ascii Bool Arith ZArith Lia.
From Stdlib Require Import Sorted Permutation SpecFloat DecimalString.
Import ListNotations.

Local Open Scope string_scope.
Local Open Scope list_scope.
Local Open Scope nat_scope.

(* ------------------------------------------------------------------ *)
(** * Characters and strings *)

Module Text.

(** The double quote, code unit 34. *)
Definition DQ : ascii := "034"%char.
Definition COMMA : ascii := ","%char.

Definition isQuote (c : ascii) : bool := Ascii.eqb c DQ.
Definition isComma (c : ascii) : bool := Ascii.eqb c COMMA.

(** Source text is written with an apostrophe standing for each double
    quote, so that a line of an AGS file can be written as one literal. *)
Fixpoint src (s : string) : string :=
  match s with
  | EmptyString => EmptyString
  | String c r => String (if Ascii.eqb c "'"%char then DQ else c) (src r)
  end.

(** [WhiteSpace] and [LineTerminator] of ECMAScript below U+0100: TAB, LF,
    VT, FF, CR, SP and NBSP.  Both [String.prototype.trim] and the regular
    expression class [\s] use this set. *)
Definition isWhiteSpace (c : ascii) : bool :=
  let n := nat_of_ascii c in
  ((9 <=? n) && (n <=? 13)) || (n =? 32) || (n =? 160).

Fixpoint trimStart (s : string) : string :=
  match s with
  | EmptyString => EmptyString
  | String c r => if isWhiteSpace c then trimStart r else s
  end.

Definition isEmpty (s : string) : bool :=
  match s with EmptyString => true | _ => false end.

Fixpoint trimEnd (s : string) : string :=
  match s with
  | EmptyString => EmptyString
  | String c r =>
      let r' := trimEnd r in
      if isWhiteSpace c && isEmpty r' then EmptyString else String c r'
  end.

(** [s.trim()] *)
Definition trim (s : string) : string := trimEnd (trimStart s).

(** Canonicalisation of a code unit under the [i] flag (no [u] flag):
    ASCII lower-case letters go to upper case; a code unit of 128 or more
    never canonicalises to an ASCII one. *)
Definition canonicalize (c : ascii) : ascii :=
  let n := nat_of_ascii c in
  if (97 <=? n) && (n <=? 122) then ascii_of_nat (n - 32) else c.

(** [^pat] with the [i] flag, for a pattern of literal characters: the
    rest of the subject after the match, if the subject starts with it. *)
Fixpoint matchPrefixCI (pat s : string) : option string :=
  match pat with
  | EmptyString => Some s
  | String p pat' =>
      match s with
      | EmptyString => None
      | String c s' =>
          if Ascii.eqb (canonicalize p) (canonicalize c)
          then matchPrefixCI pat' s' else None
      end
  end.

(** A literal prefix compared exactly. *)
Fixpoint matchPrefixCS (pat s : string) : option string :=
  match pat with
  | EmptyString => Some s
  | String p pat' =>
      match s with
      | EmptyString => None
      | String c s' => if Ascii.eqb p c then matchPrefixCS pat' s' else None
      end
  end.

(** [s.match(/^QKWQ/i)] as a truth value, where Q is the double quote and
    KW one of GROUP, HEADING, UNIT, TYPE, DATA. *)
Definition matchKeyword (kw s : string) : bool :=
  match matchPrefixCI (String DQ (kw ++ String DQ EmptyString)%string) s with
  | Some _ => true
  | None => false
  end.

(** The class [[A-Z0-9_]] under the [i] flag. *)
Definition isIdentChar (c : ascii) : bool :=
  let n := nat_of_ascii (canonicalize c) in
  ((65 <=? n) && (n <=? 90)) || ((48 <=? n) && (n <=? 57)) || (n =? 95).

(** Greedy [[A-Z0-9_]*]: the run and what follows it. *)
Fixpoint spanIdent (s : string) : string * string :=
  match s with
  | EmptyString => (EmptyString, EmptyString)
  | String c r =>
      if isIdentChar c
      then let '(run, rest) := spanIdent r in (String c run, rest)
      else (EmptyString, s)
  end.

(** [s.match(/^QGROUPQ\s*,\s*Q([A-Z0-9_]+)Q/i)], Q the double quote:
    capture 1 on a match.
    No character of a greedy run can start what follows the run, so the
    greedy choice is the only one. *)
Definition matchGroup (s : string) : option string :=
  match matchPrefixCI (String DQ ("GROUP" ++ String DQ EmptyString)%string) s with
  | None => None
  | Some r1 =>
      match trimStart r1 with
      | String c r2 =>
          if isComma c then
            match trimStart r2 with
            | String q r3 =>
                if isQuote q then
                  let '(nm, r4) := spanIdent r3 in
                  match nm, r4 with
                  | String _ _, String q' _ =>
                      if isQuote q' then Some nm else None
                  | _, _ => None
                  end
                else None
            | EmptyString => None
            end
          else None
      | EmptyString => None
      end
  end.

(** Number of double quotes in a string. *)
Fixpoint countQuotes (s : string) : nat :=
  match s with
  | EmptyString => 0
  | String c r => (if isQuote c then 1 else 0) + countQuotes r
  end.

End Text.

(* ------------------------------------------------------------------ *)
(** * JavaScript values used by the code *)

Module Js.

(** [a[i]] on an array: [undefined] out of range. *)
Definition index {A} (l : list A) (i : Z) : option A :=
  if (i <? 0)%Z then None else nth_error l (Z.to_nat i).

(** [a.slice(1)] *)
Definition slice1 {A} (l : list A) : list A := tl l.

Fixpoint indexOfFrom (l : list string) (x : string) (i : Z) : Z :=
  match l with
  | [] => (-1)%Z
  | y :: r => if String.eqb y x then i else indexOfFrom r x (i + 1)%Z
  end.

(** [a.indexOf(x)] *)
Definition indexOf (l : list string) (x : string) : Z := indexOfFrom l x 0%Z.

(** Truthiness of a value of type [string | undefined]. *)
Definition truthy (v : option string) : bool :=
  match v with
  | Some s => negb (Text.isEmpty s)
  | None => false
  end.

(** ** [Map<string, V>], in insertion order *)
Definition Map (V : Type) : Type := list (string * V).

Fixpoint mapGet {V} (m : Map V) (k : string) : option V :=
  match m with
  | [] => None
  | (k', v) :: r => if String.eqb k' k then Some v else mapGet r k
  end.

Definition mapHas {V} (m : Map V) (k : string) : bool :=
  match mapGet m k with Some _ => true | None => false end.

Fixpoint mapSet {V} (m : Map V) (k : string) (v : V) : Map V :=
  match m with
  | [] => [(k, v)]
  | (k', v') :: r =>
      if String.eqb k' k then (k', v) :: r else (k', v') :: mapSet r k v
  end.

Definition mapKeys {V} (m : Map V) : list string := List.map fst m.

(** [m.keys().next().value] *)
Definition firstKey {V} (m : Map V) : option string := hd_error (mapKeys m).

End Js.

(* ------------------------------------------------------------------ *)
(** * JavaScript numbers: binary64 *)

Module JsNumber.
Import Text.

Definition number : Type := spec_float.
Definition prec : Z := 53%Z.
Definition emax : Z := 1024%Z.

Definition NaN : number := S754_nan.
Definition Infinity : number := S754_infinity false.
Definition NegInfinity : number := S754_infinity true.
Definition zero : number := S754_zero false.

(** The number value of a decimal [m * 10^e], rounded to nearest, ties to
    even: an integer is rounded directly, a proper fraction is the
    correctly rounded quotient of two integers. *)
Definition ofDecimal (neg : bool) (m : Z) (e : Z) : number :=
  match m with
  | Zpos p =>
      if (0 <=? e)%Z
      then binary_normalize prec emax
             (if neg then - (m * 10 ^ e) else m * 10 ^ e)%Z 0%Z false
      else SFdiv prec emax (S754_finite neg p 0%Z)
             (S754_finite false (Pos.pow 10 (Z.to_pos (- e))) 0%Z)
  | _ => S754_zero neg
  end.

Definition ofZ (z : Z) : number := ofDecimal (z <? 0)%Z (Z.abs z) 0%Z.

Definition isNaN (x : number) : bool :=
  match x with S754_nan => true | _ => false end.

Definition isFinite (x : number) : bool :=
  match x with S754_zero _ | S754_finite _ _ _ => true | _ => false end.

(** [x === y] on numbers. *)
Definition strictEq (x y : number) : bool := SFeqb x y.

(** [Math.min] and [Math.max] of two numbers: NaN if either is NaN, and
    [-0] below [+0]. *)
Definition Math_min (a b : number) : number :=
  match SFcompare a b with
  | None => NaN
  | Some Lt => a
  | Some Gt => b
  | Some Eq =>
      match a, b with
      | S754_zero sa, S754_zero sb => S754_zero (sa || sb)
      | _, _ => a
      end
  end.

Definition Math_max (a b : number) : number :=
  match SFcompare a b with
  | None => NaN
  | Some Lt => b
  | Some Gt => a
  | Some Eq =>
      match a, b with
      | S754_zero sa, S754_zero sb => S754_zero (sa && sb)
      | _, _ => a
      end
  end.

(** ** [parseFloat] *)

Definition isDigit (c : ascii) : bool :=
  let n := nat_of_ascii c in (48 <=? n) && (n <=? 57).

Fixpoint spanDigits (s : string) : string * string :=
  match s with
  | EmptyString => (EmptyString, EmptyString)
  | String c r =>
      if isDigit c
      then let '(run, rest) := spanDigits r in (String c run, rest)
      else (EmptyString, s)
  end.

Fixpoint digitsValue (s : string) (acc : Z) : Z :=
  match s with
  | EmptyString => acc
  | String c r => digitsValue r (10 * acc + Z.of_nat (nat_of_ascii c - 48))%Z
  end.

(** An optional sign: whether it is a minus, and what follows it. *)
Definition readSign (s : string) : bool * string :=
  match s with
  | String c r =>
      if Ascii.eqb c "-"%char then (true, r)
      else if Ascii.eqb c "+"%char then (false, r)
      else (false, s)
  | EmptyString => (false, s)
  end.

(** The exponent part after the digits, when it is complete; 0 otherwise
    (the longest prefix that is a literal then stops before the e). *)
Definition readExponent (s : string) : Z :=
  match s with
  | String c r =>
      if Ascii.eqb c "e"%char || Ascii.eqb c "E"%char then
        let '(neg, r1) := readSign r in
        let '(ds, _) := spanDigits r1 in
        if isEmpty ds then 0%Z
        else if neg then (- digitsValue ds 0)%Z else digitsValue ds 0%Z
      else 0%Z
  | EmptyString => 0%Z
  end.

(** [parseFloat(v)] for [v : string | undefined]: leading white space is
    skipped and the longest prefix that is a decimal literal is read;
    [undefined] is converted to a string that starts no literal. *)
Definition parseFloat (v : option string) : number :=
  match v with
  | None => NaN
  | Some str =>
      let '(neg, s1) := readSign (trimStart str) in
      match matchPrefixCS "Infinity" s1 with
      | Some _ => S754_infinity neg
      | None =>
          let '(ip, r1) := spanDigits s1 in
          let '(fp, r2) :=
            match r1 with
            | String c r =>
                if Ascii.eqb c "."%char then spanDigits r
                else (EmptyString, r1)
            | EmptyString => (EmptyString, r1)
            end in
          if isEmpty ip && isEmpty fp then NaN
          else
            ofDecimal neg (digitsValue (ip ++ fp)%string 0%Z)
              (readExponent r2 - Z.of_nat (String.length fp))%Z
      end
  end.

End JsNumber.

(* ------------------------------------------------------------------ *)
(** * src/extension.ts, part 1: fields and columns *)

Module Extension.
Import Text Js JsNumber.

(** [extractQuotedFields]: the matches of the global regular expression
    Q([^Q]*?)Q, Q the double quote, left to right.
    [cur] is [None] between matches and [Some acc] after an opening quote,
    with [acc] the content read so far.  An opening quote with no closing
    quote is no match, and no later position can start one. *)
Fixpoint extractFrom (line : string) (cur : option string) : list string :=
  match line with
  | EmptyString => []
  | String c rest =>
      match cur with
      | None =>
          if isQuote c then extractFrom rest (Some EmptyString)
          else extractFrom rest None
      | Some acc =>
          if isQuote c then acc :: extractFrom rest None
          else extractFrom rest (Some (acc ++ String c EmptyString)%string)
      end
  end.

Definition extractQuotedFields (line : string) : list string :=
  extractFrom line None.

(** [getColumnAtPosition]: the loop
    [for (i = 0; i < charPosition && i < line.length; i++)], on the
    remaining text and the remaining number of iterations. *)
Fixpoint columnLoop (line : string) (remaining : nat)
         (inQuotes : bool) (column : nat) : nat :=
  match remaining, line with
  | S n, String c rest =>
      if isQuote c then columnLoop rest n (negb inQuotes) column
      else if isComma c && negb inQuotes
           then columnLoop rest n inQuotes (S column)
           else columnLoop rest n inQuotes column
  | _, _ => column
  end.

Definition getColumnAtPosition (line : string) (charPosition : nat) : nat :=
  columnLoop line charPosition false 0.

(** ** The document parser *)

Record ParsedGroup := {
  name : string;
  line : nat;
  headings : list string;
  headingLine : Z;
  dataCount : nat;
  units : list string;
  types : list string;
  data : list (list string)
}.

Record ParsedDocument := {
  groups : Map ParsedGroup;
  version : option string
}.

(** The local variables of [parseDocument].  [currentGroup] is a reference
    to the object that was stored in [groups] under its own name when the
    group was opened, and nothing else ever replaces an entry of [groups]:
    the reference is modelled by that key, and a write through it is a
    write to the entry ([adjustCurrent]). *)
Record ParserState := {
  st_groups : Map ParsedGroup;
  st_current : option string;
  st_version : option string
}.

Definition initialState : ParserState :=
  {| st_groups := []; st_current := None; st_version := None |}.

Definition newGroup (nm : string) (i : nat) : ParsedGroup :=
  {| name := nm; line := i; headings := []; headingLine := (-1)%Z;
     dataCount := 0; units := []; types := []; data := [] |}.

Fixpoint mapAdjust {V} (f : V -> V) (m : Map V) (k : string) : Map V :=
  match m with
  | [] => []
  | (k', v) :: r =>
      if String.eqb k' k then (k', f v) :: r else (k', v) :: mapAdjust f r k
  end.

Definition hasCurrent (st : ParserState) : bool :=
  match st_current st with Some _ => true | None => false end.

Definition currentGroup (st : ParserState) : option ParsedGroup :=
  match st_current st with
  | Some k => mapGet (st_groups st) k
  | None => None
  end.

Definition adjustCurrent (f : ParsedGroup -> ParsedGroup)
           (st : ParserState) : ParserState :=
  match st_current st with
  | Some k =>
      {| st_groups := mapAdjust f (st_groups st) k;
         st_current := st_current st;
         st_version := st_version st |}
  | None => st
  end.

Definition setHeadings (i : nat) (fields : list string) (g : ParsedGroup) :=
  {| name := name g; line := line g; headings := slice1 fields;
     headingLine := Z.of_nat i; dataCount := dataCount g;
     units := units g; types := types g; data := data g |}.

Definition setUnits (fields : list string) (g : ParsedGroup) :=
  {| name := name g; line := line g; headings := headings g;
     headingLine := headingLine g; dataCount := dataCount g;
     units := slice1 fields; types := types g; data := data g |}.

Definition setTypes (fields : list string) (g : ParsedGroup) :=
  {| name := name g; line := line g; headings := headings g;
     headingLine := headingLine g; dataCount := dataCount g;
     units := units g; types := slice1 fields; data := data g |}.

Definition pushData (fields : list string) (g : ParsedGroup) :=
  {| name := name g; line := line g; headings := headings g;
     headingLine := headingLine g; dataCount := S (dataCount g);
     units := units g; types := types g;
     data := data g ++ [slice1 fields] |}.

(** The last block of the loop body: the version of a TRAN group. *)
Definition extractVersion (trimmed : string) (st : ParserState)
  : ParserState :=
  match currentGroup st with
  | Some g =>
      if String.eqb (name g) "TRAN" && matchKeyword "DATA" trimmed then
        let fields := extractQuotedFields trimmed in
        let agsIndex := indexOf (headings g) "TRAN_AGS" in
        if (0 <=? agsIndex)%Z && truthy (index fields (agsIndex + 1)%Z)
        then {| st_groups := st_groups st;
                st_current := st_current st;
                st_version := index fields (agsIndex + 1)%Z |}
        else st
      else st
  | None => st
  end.

(** One iteration of the loop of [parseDocument] on line [i]. *)
Definition parseLine (st : ParserState) (i : nat) (text : string)
  : ParserState :=
  let trimmed := trim text in
  if isEmpty trimmed then st
  else
    match matchGroup trimmed with
    | Some nm =>
        {| st_groups := mapSet (st_groups st) nm (newGroup nm i);
           st_current := Some nm;
           st_version := st_version st |}
    | None =>
        if matchKeyword "HEADING" trimmed && hasCurrent st then
          adjustCurrent (setHeadings i (extractQuotedFields trimmed)) st
        else if matchKeyword "UNIT" trimmed && hasCurrent st then
          adjustCurrent (setUnits (extractQuotedFields trimmed)) st
        else if matchKeyword "TYPE" trimmed && hasCurrent st then
          adjustCurrent (setTypes (extractQuotedFields trimmed)) st
        else
          let st1 :=
            if matchKeyword "DATA" trimmed && hasCurrent st
            then adjustCurrent (pushData (extractQuotedFields trimmed)) st
            else st in
          extractVersion trimmed st1
    end.

Fixpoint parseLines (lines : list string) (i : nat) (st : ParserState)
  : ParserState :=
  match lines with
  | [] => st
  | l :: rest => parseLines rest (S i) (parseLine st i l)
  end.

(** [parseDocument]; the write to the document cache is not modelled, the
    cache is read nowhere in the code. *)
Definition parseDocument (document : list string) : ParsedDocument :=
  let st := parseLines document 0 initialState in
  {| groups := st_groups st; version := st_version st |}.

(** [findGroupForLine] *)
Fixpoint findGroupLoop (gs : Map ParsedGroup) (lineNumber : nat)
         (cur : option ParsedGroup) : option ParsedGroup :=
  match gs with
  | [] => cur
  | (_, g) :: rest =>
      findGroupLoop rest lineNumber
        (if line g <=? lineNumber then
           match cur with
           | None => Some g
           | Some c => if line c <? line g then Some g else cur
           end
         else cur)
  end.

Definition findGroupForLine (parsed : ParsedDocument) (lineNumber : nat)
  : option ParsedGroup :=
  findGroupLoop (groups parsed) lineNumber None.

(** ** The summary aggregator *)

Record GroupCount := {
  gc_name : string;
  gc_count : nat;
  gc_description : option string
}.

Record DepthRange := { min : number; max : number }.

Record LocationInfo := {
  loc_id : string;
  loc_easting : option string;
  loc_northing : option string;
  loc_type : option string;
  loc_finalDepth : option string;
  loc_depthMin : option number;
  loc_depthMax : option number
}.

Record LocationTypeInfo := {
  lt_count : nat;
  lt_depthMin : option number;
  lt_depthMax : option number
}.

Record AGSSummary := {
  totalGroups : nat;
  totalRecords : nat;
  groupCounts : list GroupCount;
  locations : list LocationInfo;
  locationsByType : Map LocationTypeInfo;
  recordsByLocation : Map (Map nat)
}.

(** [Array.prototype.sort] with a comparator.  The sort is stable
    (ECMAScript 2019), and is modelled by insertion sort: an element goes
    before the first element it does not compare greater than. *)
Section ArraySort.
Context {A : Type} (compareFn : A -> A -> Z).

Fixpoint sortInsert (x : A) (l : list A) : list A :=
  match l with
  | [] => [x]
  | y :: r =>
      if (compareFn x y <=? 0)%Z then x :: l else y :: sortInsert x r
  end.

Definition arraySort (l : list A) : list A :=
  fold_right sortInsert [] l.
End ArraySort.

(** [(a, b) => b.count - a.count] *)
Definition byCountDescending (a b : GroupCount) : Z :=
  (Z.of_nat (gc_count b) - Z.of_nat (gc_count a))%Z.

(** The body of the loop over the rows of a group that has a LOCA_ID
    column: one more record of [groupName] at the row's location. *)
Definition countRecord (groupName : string) (locaIdIndex : Z)
           (rbl : Map (Map nat)) (row : list string) : Map (Map nat) :=
  match index row locaIdIndex with
  | Some locaId =>
      if truthy (Some locaId) then
        let locationGroups :=
          match mapGet rbl locaId with Some lg => lg | None => [] end in
        let n :=
          match mapGet locationGroups groupName with
          | Some n => n
          | None => 0
          end in
        mapSet rbl locaId (mapSet locationGroups groupName (n + 1))
      else rbl
  | None => rbl
  end.

(** The accumulators of the first loop of [generateSummary]. *)
Record Counts := {
  c_groupCounts : list GroupCount;
  c_totalRecords : nat;
  c_recordsByLocation : Map (Map nat)
}.

Definition countGroup (dictGroups : string -> option string)
           (acc : Counts) (entry : string * ParsedGroup) : Counts :=
  let '(groupName, group) := entry in
  let locaIdIndex := indexOf (headings group) "LOCA_ID" in
  {| c_groupCounts :=
       c_groupCounts acc ++
         [{| gc_name := groupName;
             gc_count := dataCount group;
             gc_description := dictGroups groupName |}];
     c_totalRecords := c_totalRecords acc + dataCount group;
     c_recordsByLocation :=
       if (0 <=? locaIdIndex)%Z
       then fold_left (countRecord groupName locaIdIndex) (data group)
              (c_recordsByLocation acc)
       else c_recordsByLocation acc |}.

Definition countGroups (dictGroups : string -> option string)
           (gs : Map ParsedGroup) : Counts :=
  fold_left (countGroup dictGroups) gs
    {| c_groupCounts := []; c_totalRecords := 0;
       c_recordsByLocation := [] |}.

(** The body of the loop over the rows of the GEOL group. *)
Definition depthRow (locaIdIndex topIndex baseIndex : Z)
           (ranges : Map DepthRange) (row : list string) : Map DepthRange :=
  let top :=
    if (0 <=? topIndex)%Z then parseFloat (index row topIndex) else NaN in
  let base :=
    if (0 <=? baseIndex)%Z then parseFloat (index row baseIndex) else NaN in
  match index row locaIdIndex with
  | Some locaId =>
      if truthy (Some locaId) then
        let existing := mapGet ranges locaId in
        let min0 :=
          match existing with Some r => min r | None => Infinity end in
        let max0 :=
          match existing with Some r => max r | None => NegInfinity end in
        let min1 := if negb (isNaN top) then Math_min min0 top else min0 in
        let max1 := if negb (isNaN top) then Math_max max0 top else max0 in
        let min2 := if negb (isNaN base) then Math_min min1 base else min1 in
        let max2 := if negb (isNaN base) then Math_max max1 base else max1 in
        if negb (strictEq min2 Infinity) || negb (strictEq max2 NegInfinity)
        then
          mapSet ranges locaId
            {| min := if strictEq min2 Infinity then zero else min2;
               max := if strictEq max2 NegInfinity then zero else max2 |}
        else ranges
      else ranges
  | None => ranges
  end.

(** [depthRangesByLocation] at the end of the second block. *)
Definition depthRangesByLocation (parsed : ParsedDocument)
  : Map DepthRange :=
  match mapGet (groups parsed) "GEOL" with
  | Some geolGroup =>
      let locaIdIndex := indexOf (headings geolGroup) "LOCA_ID" in
      let topIndex := indexOf (headings geolGroup) "GEOL_TOP" in
      let baseIndex := indexOf (headings geolGroup) "GEOL_BASE" in
      if (0 <=? locaIdIndex)%Z
         && ((0 <=? topIndex)%Z || (0 <=? baseIndex)%Z)
      then fold_left (depthRow locaIdIndex topIndex baseIndex)
             (data geolGroup) []
      else []
  | None => []
  end.

(** [idx >= 0 ? row[idx] : undefined] *)
Definition optionalField (row : list string) (idx : Z) : option string :=
  if (0 <=? idx)%Z then index row idx else None.

(** The widening of a type's depth bound by a location's bound. *)
Definition widen (f : number -> number -> number)
           (existing : option number) (bound : number) : option number :=
  match existing with
  | Some e => Some (f e bound)
  | None => Some bound
  end.

Definition aggregateType (byType : Map LocationTypeInfo) (type : string)
           (depthRange : option DepthRange) : Map LocationTypeInfo :=
  match mapGet byType type with
  | Some existing =>
      mapSet byType type
        match depthRange with
        | Some r =>
            {| lt_count := lt_count existing + 1;
               lt_depthMin := widen Math_min (lt_depthMin existing) (min r);
               lt_depthMax := widen Math_max (lt_depthMax existing) (max r) |}
        | None =>
            {| lt_count := lt_count existing + 1;
               lt_depthMin := lt_depthMin existing;
               lt_depthMax := lt_depthMax existing |}
        end
  | None =>
      mapSet byType type
        {| lt_count := 1;
           lt_depthMin := option_map min depthRange;
           lt_depthMax := option_map max depthRange |}
  end.

(** The body of the loop over the rows of the LOCA group. *)
Definition locationRow (ranges : Map DepthRange)
           (idIndex eastingIndex northingIndex typeIndex finalDepthIndex : Z)
           (acc : list LocationInfo * Map LocationTypeInfo)
           (row : list string) : list LocationInfo * Map LocationTypeInfo :=
  let id := if (0 <=? idIndex)%Z then index row idIndex
            else Some EmptyString in
  let type := optionalField row typeIndex in
  match id with
  | Some i =>
      if truthy id then
        let depthRange := mapGet ranges i in
        (fst acc ++
           [{| loc_id := i;
               loc_easting := optionalField row eastingIndex;
               loc_northing := optionalField row northingIndex;
               loc_type := type;
               loc_finalDepth := optionalField row finalDepthIndex;
               loc_depthMin := option_map min depthRange;
               loc_depthMax := option_map max depthRange |}],
         match type with
         | Some t =>
             if truthy type then aggregateType (snd acc) t depthRange
             else snd acc
         | None => snd acc
         end)
      else acc
  | None => acc
  end.

Definition locationInventory (parsed : ParsedDocument)
  : list LocationInfo * Map LocationTypeInfo :=
  match mapGet (groups parsed) "LOCA" with
  | Some locaGroup =>
      let h := headings locaGroup in
      fold_left
        (locationRow (depthRangesByLocation parsed)
           (indexOf h "LOCA_ID") (indexOf h "LOCA_NATE")
           (indexOf h "LOCA_NATN") (indexOf h "LOCA_TYPE")
           (indexOf h "LOCA_FDEP"))
        (data locaGroup) ([], [])
  | None => ([], [])
  end.

(** [generateSummary].  [dictGroups] is the group table of the data
    dictionary, [dict.groups], which is loaded from a file at start-up. *)
Definition generateSummary (dictGroups : string -> option string)
           (parsed : ParsedDocument) : AGSSummary :=
  let counts := countGroups dictGroups (groups parsed) in
  let inventory := locationInventory parsed in
  {| totalGroups := List.length (groups parsed);
     totalRecords := c_totalRecords counts;
     groupCounts := arraySort byCountDescending (c_groupCounts counts);
     locations := fst inventory;
     locationsByType := snd inventory;
     recordsByLocation := c_recordsByLocation counts |}.

End Extension.

(* ------------------------------------------------------------------ *)
(** * src/table-view-provider.ts *)

Module TableViewProvider.
Import Text Js Extension.

(** A text document: its identity and its lines.  There is one document
    object for each uri, so comparing two references compares the uris. *)
Record TextDocument := {
  uri : string;
  lineTexts : list string
}.

Definition sameDocument (a b : TextDocument) : bool :=
  String.eqb (uri a) (uri b).

(** What the code reads of a text editor: its document and the line of
    the cursor, [editor.selection.active.line]. *)
Record TextEditor := {
  ed_document : TextDocument;
  ed_line : nat
}.

Inductive RowType := HEADING | UNIT | TYPE | DATA.

(** The row types of a cell edit, [UNIT | TYPE | DATA]. *)
Inductive EditRowType := EditUNIT | EditTYPE | EditDATA.

Record CellEditMessage := {
  ce_rowType : EditRowType;
  ce_rowIndex : Z;
  ce_colIndex : Z;
  ce_oldValue : string;
  ce_newValue : string
}.

(** The message posted to the webview by [syncWithEditor]. *)
Record HighlightMessage := {
  hl_rowType : RowType;
  hl_rowIndex : Z
}.

Record Range := {
  r_startLine : nat;
  r_startCharacter : nat;
  r_endLine : nat;
  r_endCharacter : nat
}.

(** The content of the webview: nothing yet, the empty page, or the page
    of a group. *)
Inductive Html := NoHtml | EmptyHtml | GroupHtml (group : ParsedGroup).

(** The fields of the provider; [panel] tells whether the panel exists. *)
Record Provider := {
  panel : bool;
  currentDocument : option TextDocument;
  currentGroup : option string;
  html : Html
}.

Definition withGroup (p : Provider) (g : option string) : Provider :=
  {| panel := panel p; currentDocument := currentDocument p;
     currentGroup := g; html := html p |}.

Definition withHtml (p : Provider) (h : Html) : Provider :=
  {| panel := panel p; currentDocument := currentDocument p;
     currentGroup := currentGroup p; html := h |}.

Definition withDocument (p : Provider) (d : TextDocument) : Provider :=
  {| panel := panel p; currentDocument := Some d;
     currentGroup := currentGroup p; html := html p |}.

(** [updateContent] *)
Definition updateContent (p : Provider) : Provider :=
  if negb (panel p) then p
  else
    match currentDocument p with
    | None => p
    | Some doc =>
        let parsed := parseDocument (lineTexts doc) in
        let valid :=
          match currentGroup p with
          | Some g => truthy (Some g) && mapHas (groups parsed) g
          | None => false
          end in
        let p1 :=
          if valid then p else withGroup p (firstKey (groups parsed)) in
        match currentGroup p1 with
        | Some g =>
            if truthy (Some g) then
              match mapGet (groups parsed) g with
              | Some group => withHtml p1 (GroupHtml group)
              | None => p1
              end
            else withHtml p1 EmptyHtml
        | None => withHtml p1 EmptyHtml
        end
    end.

(** [handleSelectGroup] *)
Definition handleSelectGroup (p : Provider) (groupName : string)
  : Provider :=
  updateContent (withGroup p (Some groupName)).

(** [findFirstDataLine]: the loop from [group.line], at most 10 lines. *)
Fixpoint firstDataLoop (ls : list string) (i : nat) : Z :=
  match ls with
  | [] => (-1)%Z
  | l :: rest =>
      if matchKeyword "DATA" l then Z.of_nat i else firstDataLoop rest (S i)
  end.

Definition findFirstDataLine (document : list string) (group : ParsedGroup)
  : Z :=
  firstDataLoop (firstn 10 (skipn (line group) document)) (line group).

(** [syncWithEditor]: the provider afterwards and the message posted. *)
Definition syncWithEditor (p : Provider) (editor : TextEditor)
  : Provider * option HighlightMessage :=
  if negb (panel p) then (p, None)
  else
    match currentDocument p with
    | None => (p, None)
    | Some doc =>
        if negb (sameDocument (ed_document editor) doc) then (p, None)
        else
          let parsed := parseDocument (lineTexts doc) in
          match findGroupForLine parsed (ed_line editor) with
          | None => (p, None)
          | Some group =>
              let needsGroupSwitch :=
                match currentGroup p with
                | Some g => negb (String.eqb g (name group))
                | None => true
                end in
              let p1 :=
                if needsGroupSwitch
                then updateContent (withGroup p (Some (name group)))
                else p in
              let lineNumber := ed_line editor in
              match nth_error (lineTexts (ed_document editor)) lineNumber with
              | None => (p1, None)
              | Some lineText =>
                  let '(rowType, rowIndex) :=
                    if matchKeyword "HEADING" lineText
                    then (Some HEADING, 0%Z)
                    else if matchKeyword "UNIT" lineText
                    then (Some UNIT, 0%Z)
                    else if matchKeyword "TYPE" lineText
                    then (Some TYPE, 0%Z)
                    else if matchKeyword "DATA" lineText
                    then
                      let firstDataLine :=
                        findFirstDataLine (lineTexts doc) group in
                      (Some DATA,
                       if (0 <=? firstDataLine)%Z
                       then (Z.of_nat lineNumber - firstDataLine)%Z
                       else (-1)%Z)
                    else (None, (-1)%Z) in
                  match rowType with
                  | Some rt =>
                      if (0 <=? rowIndex)%Z
                      then (p1, Some {| hl_rowType := rt;
                                        hl_rowIndex := rowIndex |})
                      else (p1, None)
                  | None => (p1, None)
                  end
              end
          end
    end.

(** [getLineNumber]: the scan from [group.line] over at most
    [group.dataCount + 10] lines.  The state is the three local variables;
    meeting a GROUP line after the first one leaves the loop. *)
Fixpoint scanRows (ls : list string) (i groupLine : nat)
         (unitLine typeLine : Z) (dataLines : list nat)
  : Z * Z * list nat :=
  match ls with
  | [] => (unitLine, typeLine, dataLines)
  | l :: rest =>
      if matchKeyword "UNIT" l && (unitLine <? 0)%Z then
        scanRows rest (S i) groupLine (Z.of_nat i) typeLine dataLines
      else if matchKeyword "TYPE" l && (typeLine <? 0)%Z then
        scanRows rest (S i) groupLine unitLine (Z.of_nat i) dataLines
      else if matchKeyword "DATA" l then
        scanRows rest (S i) groupLine unitLine typeLine (dataLines ++ [i])
      else if matchKeyword "GROUP" l && (groupLine <? i) then
        (unitLine, typeLine, dataLines)
      else
        scanRows rest (S i) groupLine unitLine typeLine dataLines
  end.

Definition scanGroup (document : list string) (group : ParsedGroup)
  : Z * Z * list nat :=
  scanRows (firstn (dataCount group + 10) (skipn (line group) document))
    (line group) (line group) (-1)%Z (-1)%Z [].

Definition getLineNumber (document : list string) (group : ParsedGroup)
           (rowType : EditRowType) (rowIndex : Z) : Z :=
  let '(unitLine, typeLine, dataLines) := scanGroup document group in
  match rowType with
  | EditUNIT => unitLine
  | EditTYPE => typeLine
  | EditDATA =>
      match index dataLines rowIndex with
      | Some n => Z.of_nat n
      | None => (-1)%Z
      end
  end.

(** [getCellRange]: the two nested loops, on the text from position [i].
    [inside] is [None] in the outer loop and [Some contentStart] in the
    inner loop that looks for the closing quote. *)
Fixpoint cellLoop (text : string) (i : nat) (fieldIndex target : Z)
         (inside : option nat) : option (nat * nat) :=
  match inside with
  | None =>
      match text with
      | EmptyString => None
      | String c rest =>
          if (fieldIndex <=? target)%Z then
            if isQuote c
            then cellLoop rest (S i) fieldIndex target (Some (S i))
            else cellLoop rest (S i) fieldIndex target None
          else None
      end
  | Some contentStart =>
      match text with
      | EmptyString =>
          if (fieldIndex =? target)%Z then Some (contentStart, i) else None
      | String c rest =>
          if isQuote c then
            if (fieldIndex =? target)%Z then Some (contentStart, i)
            else cellLoop rest (S i) (fieldIndex + 1)%Z target None
          else cellLoop rest (S i) fieldIndex target (Some contentStart)
      end
  end.

Definition getCellRange (text : string) (lineNumber : nat) (colIndex : Z)
  : option Range :=
  let targetFieldIndex := (colIndex + 1)%Z in
  match cellLoop text 0 0%Z targetFieldIndex None with
  | Some (contentStart, contentEnd) =>
      Some {| r_startLine := lineNumber; r_startCharacter := contentStart;
              r_endLine := lineNumber; r_endCharacter := contentEnd |}
  | None => None
  end.

(** The lines of a text: broken at LF, CR and CR LF. *)
Fixpoint splitLines (s : string) (cur : string) : list string :=
  match s with
  | EmptyString => [cur]
  | String c rest =>
      if Ascii.eqb c "010"%char then cur :: splitLines rest EmptyString
      else if Ascii.eqb c "013"%char then
        match rest with
        | String c' rest' =>
            if Ascii.eqb c' "010"%char
            then cur :: splitLines rest' EmptyString
            else cur :: splitLines rest EmptyString
        | EmptyString => cur :: splitLines rest EmptyString
        end
      else splitLines rest (cur ++ String c EmptyString)%string
  end.

(** [WorkspaceEdit.replace] of a range within one line, applied. *)
Definition applyReplace (document : list string) (range : Range)
           (newText : string) : list string :=
  match nth_error document (r_startLine range) with
  | Some text =>
      let before := substring 0 (r_startCharacter range) text in
      let after :=
        substring (r_endCharacter range)
          (String.length text - r_endCharacter range) text in
      firstn (r_startLine range) document
        ++ splitLines (before ++ newText ++ after)%string EmptyString
        ++ skipn (S (r_startLine range)) document
  | None => document
  end.

(** [handleCellEdit], with the edit applied to the buffer. *)
Definition handleCellEdit (p : Provider) (message : CellEditMessage)
  : Provider :=
  match currentDocument p, currentGroup p with
  | Some doc, Some g =>
      if truthy (Some g) then
        let parsed := parseDocument (lineTexts doc) in
        match mapGet (groups parsed) g with
        | None => p
        | Some group =>
            let lineNumber :=
              getLineNumber (lineTexts doc) group
                (ce_rowType message) (ce_rowIndex message) in
            if (lineNumber <? 0)%Z then p
            else
              match nth_error (lineTexts doc) (Z.to_nat lineNumber) with
              | None => p
              | Some text =>
                  match getCellRange text (Z.to_nat lineNumber)
                          (ce_colIndex message) with
                  | None => p
                  | Some range =>
                      withDocument p
                        {| uri := uri doc;
                           lineTexts :=
                             applyReplace (lineTexts doc) range
                               (ce_newValue message) |}
                  end
              end
        end
      else p
  | _, _ => p
  end.

(** The listener of [onDidChangeTextDocument] in [activate], for an AGS
    document: the document is parsed again and the view updated. *)
Definition updateForDocumentChange (p : Provider) : Provider :=
  if panel p then
    match currentDocument p with
    | Some _ => updateContent p
    | None => p
    end
  else p.

End TableViewProvider.

(* ------------------------------------------------------------------ *)
(** * src/table-view-provider.ts: opening, closing and navigation *)

Module ProviderCommands.
Import Text Js Extension TableViewProvider.

(** [hide]: the panel, if any, is disposed of with its content. *)
Definition hide (p : Provider) : Provider :=
  if panel p then
    {| panel := false; currentDocument := currentDocument p;
       currentGroup := currentGroup p; html := NoHtml |}
  else p.

(** [show].  [activeTextEditor] is [vscode.window.activeTextEditor] at the
    time the initial group is chosen.  A panel that is created starts with
    no content. *)
Definition show (p : Provider) (document : TextDocument)
           (activeTextEditor : option TextEditor) : Provider :=
  let p0 := withDocument p document in
  if panel p then updateContent p0
  else
    let p1 :=
      {| panel := true; currentDocument := Some document;
         currentGroup := currentGroup p; html := NoHtml |} in
    let p2 :=
      match activeTextEditor with
      | Some editor =>
          if sameDocument (ed_document editor) document then
            let parsed := parseDocument (lineTexts document) in
            match findGroupForLine parsed (ed_line editor) with
            | Some group => withGroup p1 (Some (name group))
            | None => withGroup p1 (firstKey (groups parsed))
            end
          else p1
      | None => p1
      end in
    updateContent p2.

(** [toggle] *)
Definition toggle (p : Provider) (document : TextDocument)
           (activeTextEditor : option TextEditor) : Provider :=
  if panel p then hide p else show p document activeTextEditor.

Record NavigateMessage := {
  nv_rowType : RowType;
  nv_rowIndex : Z
}.

(** [handleNavigate]: the line the cursor of the editor is moved to, if it
    is moved.  [visibleTextEditors] holds the documents of the visible
    editors. *)
Definition handleNavigate (p : Provider) (message : NavigateMessage)
           (visibleTextEditors : list TextDocument) : option nat :=
  match currentDocument p, currentGroup p with
  | Some doc, Some g =>
      if truthy (Some g) then
        let parsed := parseDocument (lineTexts doc) in
        match mapGet (groups parsed) g with
        | None => None
        | Some group =>
            let lineNumber :=
              match nv_rowType message with
              | HEADING => headingLine group
              | UNIT => getLineNumber (lineTexts doc) group EditUNIT 0
              | TYPE => getLineNumber (lineTexts doc) group EditTYPE 0
              | DATA =>
                  getLineNumber (lineTexts doc) group EditDATA
                    (nv_rowIndex message)
              end in
            if (lineNumber <? 0)%Z then None
            else if existsb (fun d => sameDocument d doc) visibleTextEditors
                 then Some (Z.to_nat lineNumber)
                 else None
        end
      else None
  | _, _ => None
  end.

(** [escapeHtml]: five replacements of one character each, in this order. *)
Fixpoint replaceChar (c : ascii) (by_ : string) (s : string) : string :=
  match s with
  | EmptyString => EmptyString
  | String x r =>
      if Ascii.eqb x c then (by_ ++ replaceChar c by_ r)%string
      else String x (replaceChar c by_ r)
  end.

Definition escapeHtml (text : option string) : string :=
  match text with
  | None => EmptyString
  | Some s =>
      replaceChar "'"%char "&#039;"
        (replaceChar DQ "&quot;"
           (replaceChar ">"%char "&gt;"
              (replaceChar "<"%char "&lt;"
                 (replaceChar "&"%char "&amp;" s))))
  end.

End ProviderCommands.

(* ------------------------------------------------------------------ *)
(** * src/extension.ts: folding ranges and document symbols *)

Module LanguageProviders.
Import Text Js Extension.

Record FoldingRange := {
  fr_start : nat;
  fr_end : nat
}.

(** [(a, b) => a - b] *)
Definition ascending (a b : nat) : Z := (Z.of_nat a - Z.of_nat b)%Z.

(** The loop [while (actualEnd > startLine && blank(actualEnd))
    actualEnd--], with [actualEnd] written [startLine + above]. *)
Fixpoint lastNonEmpty (document : list string) (startLine above : nat)
  : nat :=
  match above with
  | O => startLine
  | S n =>
      match nth_error document (startLine + above) with
      | Some text =>
          if isEmpty (trim text) then lastNonEmpty document startLine n
          else startLine + above
      | None => startLine + above
      end
  end.

(** The body of the loop over the sorted start lines: [rest] holds the
    start lines after [startLine]. *)
Definition foldingRangeAt (document : list string) (startLine : nat)
           (rest : list nat) : list FoldingRange :=
  let endLine : Z :=
    match rest with
    | next :: _ => (Z.of_nat next - 1)%Z
    | [] => (Z.of_nat (List.length document) - 1)%Z
    end in
  if (Z.of_nat startLine <? endLine)%Z then
    let actualEnd :=
      lastNonEmpty document startLine (Z.to_nat endLine - startLine) in
    if startLine <? actualEnd
    then [{| fr_start := startLine; fr_end := actualEnd |}]
    else []
  else [].

Fixpoint foldingRangesFrom (document : list string) (groupLines : list nat)
  : list FoldingRange :=
  match groupLines with
  | [] => []
  | startLine :: rest =>
      foldingRangeAt document startLine rest
        ++ foldingRangesFrom document rest
  end.

(** [AGSFoldingRangeProvider.provideFoldingRanges] *)
Definition provideFoldingRanges (document : list string)
  : list FoldingRange :=
  let parsed := parseDocument document in
  let groupLines :=
    arraySort ascending (List.map (fun e => line (snd e)) (groups parsed)) in
  foldingRangesFrom document groupLines.

Inductive SymbolKind := Class | Field.

(** A symbol of a heading: [new vscode.Range(l, 0, l, 100)] is both its
    range and its selection range, of which the line [l] is kept.  It has
    no children. *)
Record HeadingSymbol := {
  hs_name : string;
  hs_detail : string;
  hs_kind : SymbolKind;
  hs_line : Z
}.

(** The symbol of a group, with the symbols of its headings as children. *)
Record DocumentSymbol := {
  sym_name : string;
  sym_detail : string;
  sym_kind : SymbolKind;
  sym_line : Z;
  sym_children : list HeadingSymbol
}.

(** [a || b] on strings that may be undefined. *)
Definition orElse (a : option string) (b : string) : string :=
  match a with
  | Some s => if isEmpty s then b else s
  | None => b
  end.

(** A count in a template string. *)
Definition numberToString (n : nat) : string :=
  NilEmpty.string_of_uint (Nat.to_uint n).

(** [AGSDocumentSymbolProvider.provideDocumentSymbols].  The three tables
    of the dictionary are [dict.groups], [dict.headings] and the
    descriptions of [dict.headingDetails]. *)
Definition provideDocumentSymbols
           (dictGroups dictHeadings dictHeadingDescription
            : string -> option string)
           (document : list string) : list DocumentSymbol :=
  let parsed := parseDocument document in
  List.map
    (fun entry : string * ParsedGroup =>
       let '(nm, group) := entry in
       let description := orElse (dictGroups nm) "User-defined group" in
       {| sym_name := nm;
          sym_detail :=
            (description ++ " (" ++ numberToString (dataCount group)
               ++ " rows)")%string;
          sym_kind := Class;
          sym_line := Z.of_nat (line group);
          sym_children :=
            List.map
              (fun heading =>
                 {| hs_name := heading;
                    hs_detail :=
                      orElse (dictHeadings heading)
                        (orElse (dictHeadingDescription heading)
                           EmptyString);
                    hs_kind := Field;
                    hs_line := headingLine group |})
              (headings group) |})
    (groups parsed).

End LanguageProviders.

(* ------------------------------------------------------------------ *)
(** * Definitions used to state the properties *)

Module ColumnSpec.
Import Text.

(** The number of double quotes strictly before offset [i]. *)
Definition quotesBefore (s : string) (i : nat) : nat :=
  countQuotes (substring 0 i s).

(** Offset [i] holds a comma and lies outside the quoted spans, the quote
    state being the parity of the quotes seen before it. *)
Definition commaOutsideAt (s : string) (i : nat) : bool :=
  match String.get i s with
  | Some c => isComma c && Nat.even (quotesBefore s i)
  | None => false
  end.

(** The commas outside quoted spans strictly before [offset]. *)
Definition commasOutsideBefore (s : string) (offset : nat) : nat :=
  List.length (filter (commaOutsideAt s) (seq 0 offset)).

(** The comma test of the loop when it starts in quote state [inQ]. *)
Definition commaOutsideFrom (inQ : bool) (s : string) (i : nat) : bool :=
  match String.get i s with
  | Some c => isComma c && negb (xorb inQ (Nat.odd (quotesBefore s i)))
  | None => false
  end.

End ColumnSpec.

Module ParserSpec.
Import Text Js Extension.

(** The names declared by the group lines of a document, in file order
    (one for each declaration, repeated names included). *)
Definition declaredNames (document : list string) : list string :=
  flat_map
    (fun text =>
       match matchGroup (trim text) with
       | Some nm => [nm]
       | None => []
       end)
    document.

(** The distinct elements of a list in the order of their first
    occurrence. *)
Fixpoint firstOccurrences (l : list string) : list string :=
  match l with
  | [] => []
  | x :: r =>
      x :: filter (fun y => negb (String.eqb y x)) (firstOccurrences r)
  end.

(** The TRAN_AGS value of a line, read in the parser state the line is
    met in: [Some v] when the parser is inside the TRAN group, the line is
    a data row and the headings of the group hold TRAN_AGS; [v] is the
    field aligned with that heading, [None] when the row is too short. *)
Definition alignedVersion (st : ParserState) (text : string)
  : option (option string) :=
  let trimmed := trim text in
  match currentGroup st with
  | Some g =>
      if String.eqb (name g) "TRAN" && matchKeyword "DATA" trimmed then
        let agsIndex := indexOf (headings g) "TRAN_AGS" in
        if (0 <=? agsIndex)%Z
        then Some (index (extractQuotedFields trimmed) (agsIndex + 1)%Z)
        else None
      else None
  | None => None
  end.

(** The TRAN_AGS values of the rows of a document, in file order. *)
Fixpoint versionRowsFrom (lines : list string) (i : nat) (st : ParserState)
  : list (option string) :=
  match lines with
  | [] => []
  | l :: rest =>
      match alignedVersion st l with
      | Some v => [v]
      | None => []
      end ++ versionRowsFrom rest (S i) (parseLine st i l)
  end.

Definition versionRows (document : list string) : list (option string) :=
  versionRowsFrom document 0 initialState.

(** The entry of a group in the list of counts, before sorting. *)
Definition groupCountOf (dictGroups : string -> option string)
           (entry : string * ParsedGroup) : GroupCount :=
  {| gc_name := fst entry;
     gc_count := dataCount (snd entry);
     gc_description := dictGroups (fst entry) |}.

(** [y] is not among the keys [K]. *)
Definition notIn (K : list string) (y : string) : bool :=
  negb (existsb (fun z => String.eqb z y) K).

(** Descending order of counts. *)
Definition descending (a b : GroupCount) : Prop :=
  gc_count b <= gc_count a.

End ParserSpec.

Module DepthSpec.
Import Text Js JsNumber Extension.

(** The location a row of the geology group is recorded under: its
    LOCA_ID field when it has one and it is not empty. *)
Definition rowLocation (locaIdIndex : Z) (row : list string)
  : option string :=
  match index row locaIdIndex with
  | Some locaId => if truthy (Some locaId) then Some locaId else None
  | None => None
  end.

(** The depth read in a column: NaN when the column is absent, the field
    is missing or its text is not numeric. *)
Definition depthAt (columnIndex : Z) (row : list string) : number :=
  if (0 <=? columnIndex)%Z then parseFloat (index row columnIndex) else NaN.

(** The bounds a row can supply: its top and its base, when numeric. *)
Definition rowBounds (topIndex baseIndex : Z) (row : list string)
  : list number :=
  filter (fun x => negb (isNaN x))
    [depthAt topIndex row; depthAt baseIndex row].

(** The bounds supplied for location [L] by a list of rows, in order. *)
Definition boundsOf (locaIdIndex topIndex baseIndex : Z) (L : string)
           (rows : list (list string)) : list number :=
  flat_map
    (fun row =>
       match rowLocation locaIdIndex row with
       | Some id =>
           if String.eqb id L then rowBounds topIndex baseIndex row else []
       | None => []
       end)
    rows.

(** The bounds supplied for [L] by the geology group of a document. *)
Definition geolBounds (parsed : ParsedDocument) (L : string)
  : list number :=
  match mapGet (groups parsed) "GEOL" with
  | Some g =>
      boundsOf (indexOf (headings g) "LOCA_ID")
        (indexOf (headings g) "GEOL_TOP")
        (indexOf (headings g) "GEOL_BASE") L (data g)
  | None => []
  end.

(** The range spanned by a list of bounds: none for no bound, else the
    least and the greatest of them. *)
Definition rangeOfBounds (vs : list number) : option DepthRange :=
  match vs with
  | [] => None
  | v :: r =>
      Some {| min := fold_left Math_min r v; max := fold_left Math_max r v |}
  end.

(** The running bounds of the loop: the fold from the two infinities. *)
Definition runMin (vs : list number) : number :=
  fold_left Math_min vs Infinity.
Definition runMax (vs : list number) : number :=
  fold_left Math_max vs NegInfinity.

(** Every entry of the location inventory carries the depth range
    computed for its identifier. *)
Definition carriesRange (ranges : Map DepthRange) (loc : LocationInfo)
  : Prop :=
  loc_depthMin loc = option_map min (mapGet ranges (loc_id loc))
  /\ loc_depthMax loc = option_map max (mapGet ranges (loc_id loc)).

End DepthSpec.

Module Examples.
Import Text Js Extension.

(** A document with a location group and a geology group of two rows for
    the location BH1. *)
Definition geologyDocument : list string :=
  List.map src
    [ "'GROUP','LOCA'";
      "'HEADING','LOCA_ID','LOCA_TYPE'";
      "'DATA','BH1','BH'";
      "";
      "'GROUP','GEOL'";
      "'HEADING','LOCA_ID','GEOL_TOP','GEOL_BASE'";
      "'DATA','BH1','0.00','1.50'";
      "'DATA','BH1','1.50','3.00'" ].

(** A TRAN group whose second data row has an empty TRAN_AGS field. *)
Definition versionDocument : list string :=
  List.map src
    [ "'GROUP','TRAN'";
      "'HEADING','TRAN_ISNO','TRAN_AGS'";
      "'DATA','1','4.1'";
      "'DATA','2',''" ].

End Examples.

Module ViewSpec.
Import Text Js Extension TableViewProvider.

(** The data-row lines found by the scan of [getLineNumber]. *)
Definition dataLinesFound (document : list string) (group : ParsedGroup)
  : list nat :=
  snd (scanGroup document group).

(** What the record counts of a parse depend on: the current group and,
    for each group in order, its record count. *)
Definition shape (st : ParserState) : option string * list (string * nat) :=
  (st_current st,
   List.map (fun e => (fst e, dataCount (snd e))) (st_groups st)).

(** The step of the parser on a shape, for a trimmed line. *)
Definition shapeStep (trimmed : string)
           (sh : option string * list (string * nat))
  : option string * list (string * nat) :=
  let has := match fst sh with Some _ => true | None => false end in
  if isEmpty trimmed then sh
  else
    match matchGroup trimmed with
    | Some nm => (Some nm, mapSet (snd sh) nm 0)
    | None =>
        if matchKeyword "HEADING" trimmed && has then sh
        else if matchKeyword "UNIT" trimmed && has then sh
        else if matchKeyword "TYPE" trimmed && has then sh
        else if matchKeyword "DATA" trimmed && has then
          match fst sh with
          | Some k => (fst sh, mapAdjust S (snd sh) k)
          | None => sh
          end
        else sh
    end.

(** Two lines the record counts cannot tell apart. *)
Definition sameClass (l1 l2 : string) : Prop :=
  forall sh, shapeStep (trim l1) sh = shapeStep (trim l2) sh.

(** The ordinal of the data row at line [cursor]: the number of data-row
    lines from [firstDataLine] up to, and not counting, that line. *)
Definition dataRowOrdinal (document : list string)
           (firstDataLine cursor : nat) : nat :=
  List.length
    (filter (matchKeyword "DATA")
       (firstn (cursor - firstDataLine) (skipn firstDataLine document))).

(** One group with a blank line between its two data rows, and a second
    group. *)
Definition blankLineDocument : TextDocument :=
  {| uri := "file:///site.ags";
     lineTexts :=
       List.map src
         [ "'GROUP','LOCA'";
           "'HEADING','LOCA_ID','LOCA_FDEP'";
           "'DATA','BH1','2.50'";
           "";
           "'DATA','BH2','4.00'";
           "'GROUP','SAMP'";
           "'HEADING','LOCA_ID'";
           "'DATA','BH1'" ] |}.

(** The provider showing the second group of that document. *)
Definition showingSamp : Provider :=
  {| panel := true;
     currentDocument := Some blankLineDocument;
     currentGroup := Some "SAMP";
     html := NoHtml |}.

(** The provider showing the first group of that document. *)
Definition showingLoca : Provider :=
  {| panel := true;
     currentDocument := Some blankLineDocument;
     currentGroup := Some "LOCA";
     html := NoHtml |}.

(** A group with the single data row of the edit example. *)
Definition singleRowDocument : TextDocument :=
  {| uri := "file:///one.ags";
     lineTexts :=
       List.map src
         [ "'GROUP','SAMP'";
           "'HEADING','LOCA_ID','SAMP_TOP'";
           "'UNIT','','m'";
           "'TYPE','ID','2DP'";
           "'DATA','BH1','2.50'" ] |}.

Definition showingSingleRow : Provider :=
  {| panel := true;
     currentDocument := Some singleRowDocument;
     currentGroup := Some "SAMP";
     html := NoHtml |}.

(** The edit of cell (DATA, 0, 1) from 2.50 to 9.99. *)
Definition editToNine : CellEditMessage :=
  {| ce_rowType := EditDATA; ce_rowIndex := 0%Z; ce_colIndex := 1%Z;
     ce_oldValue := "2.50"; ce_newValue := "9.99" |}.

End ViewSpec.

Module SegmentSpec.
Import Text Js Extension.

(** The group a line declares, if it is a group declaration. *)
Definition declares (text : string) : option string :=
  matchGroup (trim text).

Definition isDeclaration (text : string) : bool :=
  match declares text with Some _ => true | None => false end.

(** The effect of a line that is not a declaration on the group the parser
    is in: the chain of tests of the loop body. *)
Definition rowUpdate (i : nat) (text : string) (g : ParsedGroup)
  : ParsedGroup :=
  let trimmed := trim text in
  if matchKeyword "HEADING" trimmed
  then setHeadings i (extractQuotedFields trimmed) g
  else if matchKeyword "UNIT" trimmed
  then setUnits (extractQuotedFields trimmed) g
  else if matchKeyword "TYPE" trimmed
  then setTypes (extractQuotedFields trimmed) g
  else if matchKeyword "DATA" trimmed
  then pushData (extractQuotedFields trimmed) g
  else g.

(** The rows of a segment applied in order, line [i] first. *)
Fixpoint rowUpdates (lines : list string) (i : nat) (g : ParsedGroup)
  : ParsedGroup :=
  match lines with
  | [] => g
  | l :: rest => rowUpdates rest (S i) (rowUpdate i l g)
  end.

(** A line of row type [kw], after trimming. *)
Definition isRow (kw : string) (text : string) : bool :=
  matchKeyword kw (trim text).

(** The fields of a row after its row-type field. *)
Definition rowOf (text : string) : list string :=
  slice1 (extractQuotedFields (trim text)).

(** The fields of the last row of type [kw] of a segment, none if the
    segment has no such row. *)
Definition lastRow (kw : string) (segment : list string) : list string :=
  last (List.map rowOf (filter (isRow kw) segment)) [].

(** The lines of a group: those that follow line [start] up to the next
    group declaration. *)
Fixpoint untilDeclaration (lines : list string) : list string :=
  match lines with
  | [] => []
  | l :: rest => if isDeclaration l then [] else l :: untilDeclaration rest
  end.

Definition segment (document : list string) (start : nat) : list string :=
  untilDeclaration (skipn (S start) document).

(** What the parser keeps true of each group while it has read the lines
    [done]: the group is stored under its name, its start line holds the
    last declaration of that name, and its heading line, when it has one,
    is a later line that holds a heading row with the headings of the
    group. *)
Definition groupInvariant (done : list string) (entry : string * ParsedGroup)
  : Prop :=
  let '(k, g) := entry in
  name g = k
  /\ (exists text, nth_error done (line g) = Some text
                   /\ declares text = Some k)
  /\ (forall j text, line g < j -> nth_error done j = Some text ->
                     declares text <> Some k)
  /\ ((headingLine g = (-1)%Z /\ headings g = [])
      \/ exists h text,
           headingLine g = Z.of_nat h /\ line g < h
           /\ nth_error done h = Some text
           /\ isRow "HEADING" text = true
           /\ headings g = rowOf text).

End SegmentSpec.

Module ProviderSpec.
Import Text Js Extension TableViewProvider ProviderCommands.

(** The keyword that starts a line of a row type of a cell edit. *)
Definition keywordOf (rowType : EditRowType) : string :=
  match rowType with
  | EditUNIT => "UNIT"
  | EditTYPE => "TYPE"
  | EditDATA => "DATA"
  end.

(** No line break in a text. *)
Fixpoint noLineBreak (s : string) : bool :=
  match s with
  | EmptyString => true
  | String c r =>
      negb (Ascii.eqb c "010"%char) && negb (Ascii.eqb c "013"%char)
      && noLineBreak r
  end.

(** The state of the view after an update: the active group is a group of
    the document and the page shows it, or the document has no group, no
    group is active and the page is the empty page. *)
Definition viewConsistent (doc : TextDocument) (p : Provider) : Prop :=
  let gs := groups (parseDocument (lineTexts doc)) in
  (gs = [] /\ currentGroup p = None /\ html p = EmptyHtml)
  \/ exists g group,
       currentGroup p = Some g /\ mapGet gs g = Some group
       /\ html p = GroupHtml group.

(** The replacement of one character by [escapeHtml]. *)
Definition escapeChar (c : ascii) : string :=
  if Ascii.eqb c "&"%char then "&amp;"
  else if Ascii.eqb c "<"%char then "&lt;"
  else if Ascii.eqb c ">"%char then "&gt;"
  else if Ascii.eqb c DQ then "&quot;"
  else if Ascii.eqb c "'"%char then "&#039;"
  else String c EmptyString.

Fixpoint escapeAll (s : string) : string :=
  match s with
  | EmptyString => EmptyString
  | String c r => (escapeChar c ++ escapeAll r)%string
  end.

(** A character that starts or ends markup or an attribute value. *)
Definition isMarkup (c : ascii) : bool :=
  Ascii.eqb c "<"%char || Ascii.eqb c ">"%char
  || Ascii.eqb c DQ || Ascii.eqb c "'"%char.

Fixpoint hasMarkup (s : string) : bool :=
  match s with
  | EmptyString => false
  | String c r => isMarkup c || hasMarkup r
  end.

End ProviderSpec.


(* ------------------------------------------------------------------ *)
(** * Lines of quoted fields and the counts of the summary *)

Module LineSpec.
Import Text Js Extension.

(** A field between its two quotes. *)
Definition quoted (field : string) : string :=
  String DQ (field ++ String DQ EmptyString).

(** The line of the fields, each one quoted, with a comma between two
    fields. *)
Fixpoint joinFields (fields : list string) : string :=
  match fields with
  | [] => EmptyString
  | field :: rest =>
      match rest with
      | [] => quoted field
      | _ :: _ => (quoted field ++ String COMMA (joinFields rest))%string
      end
  end.

(** The offset in [joinFields (before ++ field :: after)] of the opening
    quote of [field]. *)
Fixpoint fieldOffset (before : list string) : nat :=
  match before with
  | [] => 0
  | field :: rest => String.length field + 3 + fieldOffset rest
  end.

End LineSpec.

Module SummarySpec.
Import Text Js Extension.

(** [recordsByLocation.get(locaId)?.get(groupName) || 0] *)
Definition recordsAt (rbl : Map (Map nat)) (locaId groupName : string)
  : nat :=
  match mapGet rbl locaId with
  | Some locationGroups =>
      match mapGet locationGroups groupName with
      | Some n => n
      | None => 0
      end
  | None => 0
  end.

(** The row has the location id [locaId], which is not empty, in the
    column [locaIdIndex]. *)
Definition atLocation (locaIdIndex : Z) (locaId : string)
           (row : list string) : bool :=
  match index row locaIdIndex with
  | Some x => negb (isEmpty x) && String.eqb x locaId
  | None => false
  end.

(** Every count that is stored is positive. *)
Definition positiveCounts (rbl : Map (Map nat)) : Prop :=
  forall locaId locationGroups groupName n,
    mapGet rbl locaId = Some locationGroups ->
    mapGet locationGroups groupName = Some n -> 0 < n.

(** The number of data rows of a group at a location; none when the group
    has no LOCA_ID heading. *)
Definition recordCount (g : ParsedGroup) (locaId : string) : nat :=
  let locaIdIndex := indexOf (headings g) "LOCA_ID" in
  if (0 <=? locaIdIndex)%Z
  then List.length (filter (atLocation locaIdIndex locaId) (data g))
  else 0.

(** [locationsByType.get(type)?.count || 0] *)
Definition typeCount (byType : Map LocationTypeInfo) (type : string)
  : nat :=
  match mapGet byType type with
  | Some info => lt_count info
  | None => 0
  end.

(** The location has the type [type], which is not empty. *)
Definition ofType (type : string) (l : LocationInfo) : bool :=
  match loc_type l with
  | Some x => negb (isEmpty x) && String.eqb x type
  | None => false
  end.

End SummarySpec.

Module ResolveSpec.
Import Text Js Extension.

(** The numbers of the lines, numbered from [i], that start with the DATA
    keyword. *)
Fixpoint dataPositions (ls : list string) (i : nat) : list nat :=
  match ls with
  | [] => []
  | l :: rest =>
      if matchKeyword "DATA" l then i :: dataPositions rest (S i)
      else dataPositions rest (S i)
  end.

End ResolveSpec.
(* ------------------------------------------------------------------ *)
(** * Properties of the field and column functions *)

Module FieldFacts.
Import Text Js Extension TableViewProvider ColumnSpec.

Lemma isQuote_not_comma c : isQuote c = true -> isComma c = false.
Proof.
  unfold isQuote, isComma. intros H.
  apply Ascii.eqb_eq in H. subst c. reflexivity.
Qed.

Lemma length_filter_shift (f : nat -> bool) n a :
  List.length (filter f (seq (S a) n))
  = List.length (filter (fun i => f (S i)) (seq a n)).
Proof.
  revert a. induction n as [|n IH]; intros a; simpl; [reflexivity|].
  destruct (f (S a)); simpl; rewrite IH; reflexivity.
Qed.

Lemma length_filter_ext (f g : nat -> bool) l :
  (forall i, f i = g i) ->
  List.length (filter f l) = List.length (filter g l).
Proof.
  intros E. induction l as [|x l IH]; simpl; [reflexivity|].
  rewrite E. destruct (g x); simpl; rewrite IH; reflexivity.
Qed.

Lemma length_filter_false (l : list nat) :
  List.length (filter (fun _ => false) l) = 0.
Proof. induction l; simpl; auto. Qed.

Lemma commaOutsideFrom_cons inQ c s i :
  commaOutsideFrom inQ (String c s) (S i)
  = commaOutsideFrom (if isQuote c then negb inQ else inQ) s i.
Proof.
  unfold commaOutsideFrom, quotesBefore. simpl String.get.
  destruct (String.get i s) as [d|]; [|reflexivity].
  f_equal. f_equal.
  destruct i; simpl substring; simpl countQuotes;
    destruct (isQuote c); simpl;
    try rewrite Nat.odd_succ, <- Nat.negb_odd;
    destruct inQ; try reflexivity;
    try (destruct (Nat.odd _); reflexivity).
Qed.

Lemma columnLoop_counts s : forall n inQ col,
  columnLoop s n inQ col
  = col + List.length (filter (commaOutsideFrom inQ s) (seq 0 n)).
Proof.
  induction s as [|c s IH]; intros n inQ col.
  - rewrite (length_filter_ext _ (fun _ => false)).
    + rewrite length_filter_false. destruct n; simpl; lia.
    + intros i. unfold commaOutsideFrom. destruct i; reflexivity.
  - destruct n as [|n]; [simpl; lia|].
    assert (H0 : commaOutsideFrom inQ (String c s) 0
                 = isComma c && negb inQ).
    { unfold commaOutsideFrom, quotesBefore. cbn.
      rewrite xorb_false_r. reflexivity. }
    cbn [columnLoop seq filter]. rewrite H0.
    assert (HS : List.length (filter (commaOutsideFrom inQ (String c s))
                                (seq 1 n))
                 = List.length
                     (filter (commaOutsideFrom
                                (if isQuote c then negb inQ else inQ) s)
                        (seq 0 n))).
    { rewrite length_filter_shift. apply length_filter_ext.
      intros i. apply commaOutsideFrom_cons. }
    destruct (isQuote c) eqn:Q.
    + rewrite (isQuote_not_comma _ Q). cbn [andb]. rewrite HS. apply IH.
    + destruct (isComma c && negb inQ); cbn [List.length];
        rewrite HS, IH; lia.
Qed.

Lemma commaOutsideFrom_false s i :
  commaOutsideFrom false s i = commaOutsideAt s i.
Proof.
  unfold commaOutsideFrom, commaOutsideAt.
  destruct (String.get i s); [|reflexivity].
  rewrite xorb_false_l, Nat.negb_odd. reflexivity.
Qed.

End FieldFacts.

Module CellFacts.
Import Text Js Extension TableViewProvider.

Lemma string_length_app (a b : string) :
  String.length (a ++ b)%string = String.length a + String.length b.
Proof. induction a as [|c a IH]; simpl; [reflexivity | now rewrite IH]. Qed.

(** The scan of [getCellRange] over a prefix that holds only complete
    fields, none of them the target: it leaves the outer loop where the
    prefix ends with the field counter advanced by the number of fields.
    Stated for both loops at once. *)
Lemma cellLoop_skip (target : Z) (tail pre : string) :
  (forall i f k,
      countQuotes pre = 2 * k ->
      (f + Z.of_nat k <= target)%Z ->
      cellLoop (pre ++ tail)%string i f target None
      = cellLoop tail (i + String.length pre) (f + Z.of_nat k)%Z target None)
  /\
  (forall i f k cs,
      countQuotes pre = 2 * k + 1 ->
      (f + Z.of_nat k + 1 <= target)%Z ->
      cellLoop (pre ++ tail)%string i f target (Some cs)
      = cellLoop tail (i + String.length pre) (f + Z.of_nat k + 1)%Z
          target None).
Proof.
  induction pre as [|c pre [IHo IHi]]; split.
  - intros i f k Hk Hf. simpl in Hk. assert (k = 0) by lia. subst k.
    simpl. rewrite Nat.add_0_r, Z.add_0_r. reflexivity.
  - intros i f k cs Hk. simpl in Hk. lia.
  - intros i f k Hk Hf. cbn [countQuotes] in Hk.
    cbn [append cellLoop String.length].
    assert (Hle : (f <=? target)%Z = true) by (apply Z.leb_le; lia).
    rewrite Hle.
    destruct (isQuote c).
    + destruct k as [|k]; [lia|].
      rewrite (IHi (S i) f k (S i)) by lia.
      f_equal; lia.
    + rewrite (IHo (S i) f k) by lia. f_equal; lia.
  - intros i f k cs Hk Hf. cbn [countQuotes] in Hk.
    cbn [append cellLoop String.length].
    destruct (isQuote c).
    + assert (Hne : (f =? target)%Z = false) by (apply Z.eqb_neq; lia).
      rewrite Hne.
      rewrite (IHo (S i) (f + 1)%Z k) by lia.
      f_equal; lia.
    + rewrite (IHi (S i) f k cs) by lia. f_equal; lia.
Qed.

(** The inner loop on a text without a quote runs to the end of the
    line. *)
Lemma cellLoop_unclosed (target : Z) (rest : string) : forall i cs,
  countQuotes rest = 0 ->
  cellLoop rest i target target (Some cs)
  = Some (cs, i + String.length rest).
Proof.
  induction rest as [|c rest IH]; intros i cs H0.
  - simpl. rewrite Z.eqb_refl, Nat.add_0_r. reflexivity.
  - cbn [countQuotes] in H0. cbn [cellLoop String.length].
    destruct (isQuote c); [lia|].
    rewrite IH by lia. f_equal. f_equal. lia.
Qed.

(** [extractQuotedFields] over a prefix of complete fields. *)
Lemma extractFrom_app (tail pre : string) :
  (forall k,
      countQuotes pre = 2 * k ->
      extractFrom (pre ++ tail)%string None
      = extractFrom pre None ++ extractFrom tail None
      /\ List.length (extractFrom pre None) = k)
  /\
  (forall k acc,
      countQuotes pre = 2 * k + 1 ->
      extractFrom (pre ++ tail)%string (Some acc)
      = extractFrom pre (Some acc) ++ extractFrom tail None
      /\ List.length (extractFrom pre (Some acc)) = k + 1).
Proof.
  induction pre as [|c pre [IHo IHi]]; split.
  - intros k Hk. simpl in Hk. simpl. split; [reflexivity | lia].
  - intros k acc Hk. simpl in Hk. lia.
  - intros k Hk. cbn [countQuotes] in Hk. cbn [append extractFrom].
    destruct (isQuote c).
    + destruct k as [|k]; [lia|].
      destruct (IHi k EmptyString) as [E L]; [lia|].
      rewrite E, L. split; [reflexivity | lia].
    + apply IHo. lia.
  - intros k acc Hk. cbn [countQuotes] in Hk. cbn [append extractFrom].
    destruct (isQuote c).
    + destruct (IHo k) as [E L]; [lia|].
      rewrite E. cbn [List.length app]. rewrite L.
      split; [reflexivity | lia].
    + apply IHi. lia.
Qed.

(** No field is read after an opening quote that is never closed. *)
Lemma extractFrom_unclosed (rest : string) : forall acc,
  countQuotes rest = 0 -> extractFrom rest (Some acc) = [].
Proof.
  induction rest as [|c rest IH]; intros acc H0; [reflexivity|].
  cbn [countQuotes] in H0. cbn [extractFrom].
  destruct (isQuote c); [lia|]. apply IH. lia.
Qed.

Lemma substring_skip (pre rest : string) :
  substring (String.length pre) (String.length rest) (pre ++ rest)%string
  = rest.
Proof.
  induction pre as [|c pre IH]; simpl; [|exact IH].
  induction rest as [|d rest IH]; simpl; [reflexivity | now rewrite IH].
Qed.

End CellFacts.

Module EditFacts.
Import Text Js Extension TableViewProvider.

Lemma substring_prefix (a b : string) :
  substring 0 (String.length a) (a ++ b)%string = a.
Proof.
  induction a as [|c a IH]; simpl.
  - destruct b; reflexivity.
  - now rewrite IH.
Qed.

Lemma substring_at_end (s : string) :
  substring (String.length s) 0 s = EmptyString.
Proof. induction s as [|c s IH]; simpl; [reflexivity | exact IH]. Qed.

Lemma substring_suffix (a b : string) :
  substring (String.length a) (String.length b) (a ++ b)%string = b.
Proof. apply CellFacts.substring_skip. Qed.

Lemma string_app_assoc (a b c : string) :
  ((a ++ b) ++ c)%string = (a ++ (b ++ c))%string.
Proof. induction a as [|x a IH]; simpl; [reflexivity | now rewrite IH]. Qed.

Lemma string_app_nil_r (a : string) : (a ++ EmptyString)%string = a.
Proof. induction a as [|x a IH]; simpl; [reflexivity | now rewrite IH]. Qed.

(** The buffer after a replacement within the line that follows
    [before]. *)
Lemma applyReplace_at (before after : list string) (text : string)
      (s e : nat) (newText : string) :
  applyReplace (before ++ text :: after)
    {| r_startLine := List.length before; r_startCharacter := s;
       r_endLine := List.length before; r_endCharacter := e |} newText
  = before
      ++ splitLines
           (substring 0 s text ++ newText
              ++ substring e (String.length text - e) text)%string
           EmptyString
      ++ after.
Proof.
  unfold applyReplace. cbn [r_startLine r_startCharacter r_endCharacter].
  rewrite nth_error_app2 by lia. rewrite Nat.sub_diag. cbn [nth_error].
  rewrite firstn_app, Nat.sub_diag, firstn_all. cbn [firstn].
  rewrite app_nil_r.
  replace (S (List.length before)) with (List.length (before ++ [text]))
    by (rewrite length_app; simpl; lia).
  replace (before ++ text :: after) with ((before ++ [text]) ++ after)
    by (rewrite <- app_assoc; reflexivity).
  rewrite skipn_app, skipn_all, Nat.sub_diag. reflexivity.
Qed.

End EditFacts.

(* ------------------------------------------------------------------ *)
(** * Properties of the parser *)

Module MapFacts.
Import Js Extension.

Section Maps.
Context {V : Type}.

Lemma mapGet_mapAdjust (f : V -> V) (m : Map V) k :
  mapGet (mapAdjust f m k) k = option_map f (mapGet m k).
Proof.
  induction m as [|[k' v] m IH]; simpl; [reflexivity|].
  destruct (String.eqb k' k) eqn:E; simpl; rewrite E; auto.
Qed.

Lemma mapKeys_mapAdjust (f : V -> V) (m : Map V) k :
  mapKeys (mapAdjust f m k) = mapKeys m.
Proof.
  induction m as [|[k' v] m IH]; simpl; [reflexivity|].
  unfold mapKeys in *.
  destruct (String.eqb k' k); simpl; [reflexivity|].
  now rewrite IH.
Qed.

Lemma mapKeys_mapSet (m : Map V) k v :
  mapKeys (mapSet m k v)
  = if existsb (fun y => String.eqb y k) (mapKeys m)
    then mapKeys m else mapKeys m ++ [k].
Proof.
  induction m as [|[k' v'] m IH]; simpl; [reflexivity|].
  unfold mapKeys in *.
  destruct (String.eqb k' k); simpl; [reflexivity|].
  rewrite IH.
  destruct (existsb _ _); reflexivity.
Qed.

Lemma Forall_mapSet (P : string * V -> Prop) (m : Map V) k v :
  Forall P m -> (forall k', P (k', v)) -> Forall P (mapSet m k v).
Proof.
  intros Hm Hv. induction Hm as [|[k' v'] m Hx Hm IH]; simpl.
  - constructor; [apply Hv | constructor].
  - destruct (String.eqb k' k); constructor; auto.
Qed.

Lemma Forall_mapAdjust (P : string * V -> Prop) (f : V -> V)
      (m : Map V) k :
  Forall P m -> (forall k' v, P (k', v) -> P (k', f v)) ->
  Forall P (mapAdjust f m k).
Proof.
  intros Hm Hf. induction Hm as [|[k' v'] m Hx Hm IH]; simpl.
  - constructor.
  - destruct (String.eqb k' k); constructor; auto.
Qed.
End Maps.

End MapFacts.

Module ParserFacts.
Import Text Js Extension ParserSpec MapFacts.

(** ** The groups of a state, under the steps of the parser *)

Lemma st_groups_extractVersion trimmed st :
  st_groups (extractVersion trimmed st) = st_groups st.
Proof.
  unfold extractVersion.
  destruct (currentGroup st); [|reflexivity].
  destruct (_ && _); [|reflexivity].
  destruct (_ && _); reflexivity.
Qed.

Lemma st_current_extractVersion trimmed st :
  st_current (extractVersion trimmed st) = st_current st.
Proof.
  unfold extractVersion.
  destruct (currentGroup st); [|reflexivity].
  destruct (_ && _); [|reflexivity].
  destruct (_ && _); reflexivity.
Qed.

Lemma st_groups_adjustCurrent f st :
  st_groups (adjustCurrent f st)
  = match st_current st with
    | Some k => mapAdjust f (st_groups st) k
    | None => st_groups st
    end.
Proof. unfold adjustCurrent. destruct (st_current st); reflexivity. Qed.

(** A property of every group that a new group has and that the four
    updates keep holds of every group of the parsed document. *)
Lemma parseLine_Forall (P : string * ParsedGroup -> Prop) st i text :
  (forall k nm j, P (k, newGroup nm j)) ->
  (forall k g j fs, P (k, g) -> P (k, setHeadings j fs g)) ->
  (forall k g fs, P (k, g) -> P (k, setUnits fs g)) ->
  (forall k g fs, P (k, g) -> P (k, setTypes fs g)) ->
  (forall k g fs, P (k, g) -> P (k, pushData fs g)) ->
  Forall P (st_groups st) ->
  Forall P (st_groups (parseLine st i text)).
Proof.
  intros Hn Hh Hu Ht Hd Hst. unfold parseLine.
  destruct (isEmpty (trim text)); [exact Hst|].
  destruct (matchGroup (trim text)) as [nm|].
  - cbn [st_groups]. apply Forall_mapSet; auto.
  - repeat match goal with
           | |- context [if ?b then _ else _] => destruct b
           end;
      rewrite ?st_groups_extractVersion, ?st_groups_adjustCurrent;
      destruct (st_current st); auto;
      apply Forall_mapAdjust; auto.
Qed.

Lemma parseLines_Forall (P : string * ParsedGroup -> Prop) lines :
  (forall k nm j, P (k, newGroup nm j)) ->
  (forall k g j fs, P (k, g) -> P (k, setHeadings j fs g)) ->
  (forall k g fs, P (k, g) -> P (k, setUnits fs g)) ->
  (forall k g fs, P (k, g) -> P (k, setTypes fs g)) ->
  (forall k g fs, P (k, g) -> P (k, pushData fs g)) ->
  forall i st,
    Forall P (st_groups st) ->
    Forall P (st_groups (parseLines lines i st)).
Proof.
  intros Hn Hh Hu Ht Hd.
  induction lines as [|l lines IH]; intros i st Hst; [exact Hst|].
  cbn [parseLines]. apply IH. apply parseLine_Forall; auto.
Qed.

(** ** The order of the groups *)

Lemma mapKeys_parseLine st i text :
  mapKeys (st_groups (parseLine st i text))
  = match matchGroup (trim text) with
    | Some nm =>
        if existsb (fun y => String.eqb y nm) (mapKeys (st_groups st))
        then mapKeys (st_groups st)
        else mapKeys (st_groups st) ++ [nm]
    | None => mapKeys (st_groups st)
    end.
Proof.
  unfold parseLine.
  destruct (isEmpty (trim text)) eqn:E.
  - destruct (trim text); [reflexivity | discriminate].
  - destruct (matchGroup (trim text)) as [nm|].
    + cbn [st_groups]. apply mapKeys_mapSet.
    + repeat match goal with
             | |- context [if ?b then _ else _] => destruct b
             end;
        rewrite ?st_groups_extractVersion, ?st_groups_adjustCurrent;
        destruct (st_current st); rewrite ?mapKeys_mapAdjust; reflexivity.
Qed.

Lemma filter_filter {A} (f g : A -> bool) l :
  filter f (filter g l) = filter (fun x => g x && f x) l.
Proof.
  induction l as [|x l IH]; simpl; [reflexivity|].
  destruct (g x); simpl; [destruct (f x)|]; rewrite IH; reflexivity.
Qed.

Lemma existsb_snoc (K : list string) x y :
  existsb (fun z => String.eqb z y) (K ++ [x])
  = existsb (fun z => String.eqb z y) K || String.eqb x y.
Proof. rewrite existsb_app. simpl. now rewrite orb_false_r. Qed.

Lemma mapKeys_parseLines lines : forall i st,
  mapKeys (st_groups (parseLines lines i st))
  = mapKeys (st_groups st)
      ++ filter (notIn (mapKeys (st_groups st)))
           (firstOccurrences (declaredNames lines)).
Proof.
  induction lines as [|l lines IH]; intros i st.
  - simpl. now rewrite app_nil_r.
  - cbn [parseLines declaredNames flat_map]. rewrite IH.
    rewrite mapKeys_parseLine.
    fold (declaredNames lines).
    set (K := mapKeys (st_groups st)).
    destruct (matchGroup (trim l)) as [nm|]; [|reflexivity].
    cbn [app firstOccurrences filter].
    rewrite filter_filter.
    destruct (existsb (fun y => String.eqb y nm) K) eqn:E.
    + replace (notIn K nm) with false by (unfold notIn; now rewrite E).
      f_equal. apply filter_ext. intros y. unfold notIn.
      destruct (String.eqb y nm) eqn:Ey; cbn [negb andb].
      * apply String.eqb_eq in Ey. subst y. now rewrite E.
      * reflexivity.
    + replace (notIn K nm) with true by (unfold notIn; now rewrite E).
      rewrite <- app_assoc. cbn [app]. do 2 f_equal.
      apply filter_ext. intros y. unfold notIn.
      rewrite existsb_snoc, negb_orb.
      rewrite (String.eqb_sym nm y). apply andb_comm.
Qed.

End ParserFacts.

Module VersionFacts.
Import Text Js Extension ParserSpec MapFacts ParserFacts.

(** A line that starts with a quoted keyword has the first letter of the
    keyword, up to case, as its second character. *)
Lemma matchKeyword_second c kw t :
  matchKeyword (String c kw) t = true ->
  exists q d t', t = String q (String d t')
                 /\ canonicalize d = canonicalize c.
Proof.
  unfold matchKeyword. cbn [append matchPrefixCI].
  destruct t as [|q [|d t']]; try discriminate.
  - destruct (Ascii.eqb _ _); discriminate.
  - destruct (Ascii.eqb (canonicalize DQ) (canonicalize q)); [|discriminate].
    destruct (Ascii.eqb (canonicalize c) (canonicalize d)) eqn:E;
      [|discriminate].
    intros _. apply Ascii.eqb_eq in E. eauto.
Qed.

Lemma matchKeyword_exclusive c1 kw1 c2 kw2 t :
  canonicalize c1 <> canonicalize c2 ->
  matchKeyword (String c1 kw1) t = true ->
  matchKeyword (String c2 kw2) t = false.
Proof.
  intros Hne H1.
  destruct (matchKeyword (String c2 kw2) t) eqn:H2; [|reflexivity].
  apply matchKeyword_second in H1. apply matchKeyword_second in H2.
  destruct H1 as (q & d & t' & -> & E1).
  destruct H2 as (q' & d' & t'' & Ht & E2).
  inversion Ht; subst. congruence.
Qed.

Lemma matchGroup_keyword t nm :
  matchGroup t = Some nm -> matchKeyword "GROUP" t = true.
Proof.
  unfold matchGroup, matchKeyword.
  destruct (matchPrefixCI _ t); [reflexivity | discriminate].
Qed.

Lemma data_not_group t :
  matchKeyword "DATA" t = true -> matchGroup t = None.
Proof.
  intros H. destruct (matchGroup t) eqn:E; [|reflexivity].
  apply matchGroup_keyword in E.
  rewrite (matchKeyword_exclusive "D" "ATA" "G" "ROUP" t) in E;
    [discriminate | discriminate | exact H].
Qed.

Lemma not_data_alignedVersion st text :
  matchKeyword "DATA" (trim text) = false ->
  alignedVersion st text = None.
Proof.
  intros H. unfold alignedVersion.
  destruct (currentGroup st); [|reflexivity].
  rewrite H, andb_false_r. reflexivity.
Qed.

Lemma st_version_adjustCurrent f st :
  st_version (adjustCurrent f st) = st_version st.
Proof. unfold adjustCurrent. destruct (st_current st); reflexivity. Qed.

Lemma currentGroup_adjustCurrent f st :
  currentGroup (adjustCurrent f st) = option_map f (currentGroup st).
Proof.
  unfold adjustCurrent, currentGroup.
  destruct (st_current st) as [k|] eqn:E; cbn [st_groups st_current].
  - apply mapGet_mapAdjust.
  - rewrite E. reflexivity.
Qed.

(** What [extractVersion] does to the version, read on the state the
    line is met in: pushing the row changes neither the name nor the
    headings of the current group. *)
Lemma st_version_extractVersion st st1 text :
  st_version st1 = st_version st ->
  (currentGroup st1 = currentGroup st
   \/ exists fs, currentGroup st1 = option_map (pushData fs)
                                      (currentGroup st)) ->
  st_version (extractVersion (trim text) st1)
  = match alignedVersion st text with
    | Some v => if truthy v then v else st_version st
    | None => st_version st
    end.
Proof.
  intros Hv Hc. unfold extractVersion, alignedVersion.
  assert (Hg : match currentGroup st1, currentGroup st with
               | Some g1, Some g =>
                   name g1 = name g /\ headings g1 = headings g
               | None, None => True
               | _, _ => False
               end).
  { destruct Hc as [-> | [fs ->]];
      destruct (currentGroup st); simpl; auto. }
  destruct (currentGroup st1) as [g1|], (currentGroup st) as [g|];
    try contradiction; [|exact Hv].
  destruct Hg as [-> ->].
  destruct (_ && _); [|exact Hv].
  destruct (0 <=? _)%Z; cbn [andb]; [|exact Hv].
  destruct (truthy _); [reflexivity | exact Hv].
Qed.

(** The version after one line. *)
Lemma st_version_parseLine st i text :
  st_version (parseLine st i text)
  = match alignedVersion st text with
    | Some v => if truthy v then v else st_version st
    | None => st_version st
    end.
Proof.
  unfold parseLine.
  destruct (isEmpty (trim text)) eqn:E.
  { rewrite not_data_alignedVersion; [reflexivity|].
    destruct (trim text); [reflexivity | discriminate]. }
  destruct (matchGroup (trim text)) as [nm|] eqn:G.
  { rewrite not_data_alignedVersion; [reflexivity|].
    destruct (matchKeyword "DATA" (trim text)) eqn:D; [|reflexivity].
    rewrite (data_not_group _ D) in G. discriminate. }
  destruct (matchKeyword "HEADING" (trim text)) eqn:H.
  { assert (D : matchKeyword "DATA" (trim text) = false)
      by (apply (matchKeyword_exclusive "H" "EADING" "D" "ATA");
          [discriminate | exact H]).
    rewrite (not_data_alignedVersion _ _ D), D. cbn [andb].
    destruct (hasCurrent st); cbn [andb].
    - apply st_version_adjustCurrent.
    - destruct (_ && _); [apply st_version_adjustCurrent|].
      destruct (_ && _); [apply st_version_adjustCurrent|].
      unfold extractVersion.
      destruct (currentGroup st); [|reflexivity].
      rewrite D, andb_false_r. reflexivity. }
  destruct (matchKeyword "UNIT" (trim text)) eqn:U.
  { assert (D : matchKeyword "DATA" (trim text) = false)
      by (apply (matchKeyword_exclusive "U" "NIT" "D" "ATA");
          [discriminate | exact U]).
    rewrite (not_data_alignedVersion _ _ D), D. cbn [andb].
    destruct (hasCurrent st); cbn [andb].
    - apply st_version_adjustCurrent.
    - destruct (_ && _); [apply st_version_adjustCurrent|].
      unfold extractVersion.
      destruct (currentGroup st); [|reflexivity].
      rewrite D, andb_false_r. reflexivity. }
  destruct (matchKeyword "TYPE" (trim text)) eqn:T.
  { assert (D : matchKeyword "DATA" (trim text) = false)
      by (apply (matchKeyword_exclusive "T" "YPE" "D" "ATA");
          [discriminate | exact T]).
    rewrite (not_data_alignedVersion _ _ D), D. cbn [andb].
    destruct (hasCurrent st); cbn [andb].
    - apply st_version_adjustCurrent.
    - unfold extractVersion.
      destruct (currentGroup st); [|reflexivity].
      rewrite D, andb_false_r. reflexivity. }
  cbn [andb].
  apply st_version_extractVersion.
  - destruct (_ && _); [apply st_version_adjustCurrent | reflexivity].
  - destruct (_ && _); [right | left; reflexivity].
    eexists. apply currentGroup_adjustCurrent.
Qed.

Lemma last_cons {A} (x : A) l d : last (x :: l) d = last l x.
Proof.
  revert x d. induction l as [|y l IH]; intros x d; [reflexivity|].
  change (last (x :: y :: l) d) with (last (y :: l) d).
  rewrite (IH y d), (IH y x). reflexivity.
Qed.

Lemma st_version_parseLines lines : forall i st,
  st_version (parseLines lines i st)
  = last (filter truthy (versionRowsFrom lines i st)) (st_version st).
Proof.
  induction lines as [|l lines IH]; intros i st; [reflexivity|].
  cbn [parseLines versionRowsFrom]. rewrite IH, st_version_parseLine.
  destruct (alignedVersion st l) as [v|]; [|reflexivity].
  cbn [app filter]. destruct (truthy v); [|reflexivity].
  rewrite last_cons. reflexivity.
Qed.

End VersionFacts.

(* ------------------------------------------------------------------ *)
(** * Properties of the summary aggregator *)

Module CountFacts.
Import Text Js Extension ParserSpec.

(** The accumulators after the first loop. *)
Lemma countGroups_fold dictGroups gs : forall acc,
  c_groupCounts (fold_left (countGroup dictGroups) gs acc)
  = c_groupCounts acc ++ List.map (groupCountOf dictGroups) gs
  /\ c_totalRecords (fold_left (countGroup dictGroups) gs acc)
     = c_totalRecords acc
       + list_sum (List.map (fun e => dataCount (snd e)) gs).
Proof.
  induction gs as [|[k g] gs IH]; intros acc.
  - simpl. rewrite app_nil_r. split; [reflexivity | lia].
  - cbn [fold_left List.map list_sum].
    destruct (IH (countGroup dictGroups acc (k, g))) as [E1 E2].
    rewrite E1, E2. unfold countGroup.
    cbn [c_groupCounts c_totalRecords snd].
    rewrite <- app_assoc. split; [reflexivity|].
    unfold list_sum. cbn [fold_right]. lia.
Qed.

(** ** Insertion by descending count *)

Lemma byCountDescending_le x y :
  (byCountDescending x y <=? 0)%Z = (gc_count y <=? gc_count x).
Proof.
  unfold byCountDescending.
  destruct (gc_count y <=? gc_count x) eqn:E.
  - apply Nat.leb_le in E. apply Z.leb_le. lia.
  - apply Nat.leb_gt in E. apply Z.leb_gt. lia.
Qed.

Lemma sortInsert_perm x l :
  Permutation (x :: l) (sortInsert byCountDescending x l).
Proof.
  induction l as [|y l IH]; cbn [sortInsert]; [reflexivity|].
  destruct (_ <=? _)%Z; [reflexivity|].
  rewrite perm_swap. now constructor.
Qed.

Lemma arraySort_perm l :
  Permutation l (arraySort byCountDescending l).
Proof.
  induction l as [|x l IH]; cbn [arraySort fold_right]; [constructor|].
  etransitivity; [|apply sortInsert_perm]. now constructor.
Qed.

Lemma sortInsert_sorted x l :
  StronglySorted descending l ->
  StronglySorted descending (sortInsert byCountDescending x l).
Proof.
  induction 1 as [|y l Hs IH Hy]; cbn [sortInsert].
  - repeat constructor.
  - rewrite byCountDescending_le.
    destruct (gc_count y <=? gc_count x) eqn:E.
    + apply Nat.leb_le in E.
      constructor; [constructor; assumption|].
      constructor; [exact E|].
      eapply Forall_impl; [|exact Hy].
      unfold descending. intros; lia.
    + apply Nat.leb_gt in E.
      constructor; [exact IH|].
      eapply Permutation_Forall; [apply sortInsert_perm|].
      constructor; [unfold descending; lia | exact Hy].
Qed.

Lemma arraySort_sorted l :
  StronglySorted descending (arraySort byCountDescending l).
Proof.
  induction l as [|x l IH]; cbn [arraySort fold_right]; [constructor|].
  apply sortInsert_sorted. exact IH.
Qed.

(** Insertion passes only elements of a strictly greater count: among
    the elements of one count, the new one comes first. *)
Lemma sortInsert_filter c x l :
  filter (fun g => gc_count g =? c) (sortInsert byCountDescending x l)
  = filter (fun g => gc_count g =? c) (x :: l).
Proof.
  induction l as [|y l IH]; cbn [sortInsert]; [reflexivity|].
  rewrite byCountDescending_le.
  destruct (gc_count y <=? gc_count x) eqn:E; [reflexivity|].
  apply Nat.leb_gt in E.
  cbn [filter] in *. rewrite IH.
  destruct (gc_count x =? c) eqn:Ex; [|reflexivity].
  apply Nat.eqb_eq in Ex.
  replace (gc_count y =? c) with false; [reflexivity|].
  symmetry. apply Nat.eqb_neq. lia.
Qed.

Lemma arraySort_filter c l :
  filter (fun g => gc_count g =? c) (arraySort byCountDescending l)
  = filter (fun g => gc_count g =? c) l.
Proof.
  induction l as [|x l IH]; cbn [arraySort fold_right]; [reflexivity|].
  rewrite sortInsert_filter. cbn [filter].
  unfold arraySort in IH. rewrite IH. reflexivity.
Qed.

Lemma filter_all {A} (f : A -> bool) l :
  (forall x, f x = true) -> filter f l = l.
Proof.
  intros H. induction l as [|x l IH]; simpl; [reflexivity|].
  now rewrite H, IH.
Qed.

End CountFacts.

Module DepthFacts.
Import Text Js JsNumber Extension DepthSpec.

Lemma mapGet_mapSet {V} (m : Map V) k v k' :
  mapGet (mapSet m k v) k'
  = if String.eqb k k' then Some v else mapGet m k'.
Proof.
  induction m as [|[k0 v0] m IH]; cbn [mapSet mapGet].
  - reflexivity.
  - destruct (String.eqb k0 k) eqn:E0; cbn [mapGet].
    + apply String.eqb_eq in E0. subst k0.
      destruct (String.eqb k k'); reflexivity.
    + destruct (String.eqb k0 k') eqn:E1; [|exact IH].
      apply String.eqb_eq in E1. subst k0.
      rewrite String.eqb_sym, E0. reflexivity.
Qed.

(** ** Numbers *)

Lemma Math_min_Infinity t :
  isFinite t = true -> Math_min Infinity t = t.
Proof. destruct t; try discriminate; reflexivity. Qed.

Lemma Math_max_NegInfinity t :
  isFinite t = true -> Math_max NegInfinity t = t.
Proof. destruct t; try discriminate; reflexivity. Qed.

Lemma Math_min_finite a b :
  isFinite a = true -> isFinite b = true -> isFinite (Math_min a b) = true.
Proof.
  intros Ha Hb. unfold Math_min.
  destruct (SFcompare a b) as [[| |]|] eqn:E; auto.
  - destruct a, b; try discriminate; reflexivity.
  - destruct a, b; discriminate.
Qed.

Lemma Math_max_finite a b :
  isFinite a = true -> isFinite b = true -> isFinite (Math_max a b) = true.
Proof.
  intros Ha Hb. unfold Math_max.
  destruct (SFcompare a b) as [[| |]|] eqn:E; auto.
  - destruct a, b; try discriminate; reflexivity.
  - destruct a, b; discriminate.
Qed.

Lemma finite_not_Infinity x :
  isFinite x = true -> strictEq x Infinity = false.
Proof. destruct x; try discriminate; reflexivity. Qed.

Lemma finite_not_NegInfinity x :
  isFinite x = true -> strictEq x NegInfinity = false.
Proof. destruct x; try discriminate; reflexivity. Qed.

Lemma fold_min_finite vs : forall v,
  isFinite v = true -> Forall (fun x => isFinite x = true) vs ->
  isFinite (fold_left Math_min vs v) = true.
Proof.
  induction vs as [|w vs IH]; intros v Hv Hvs; [exact Hv|].
  inversion Hvs; subst. cbn [fold_left]. apply IH; [|assumption].
  now apply Math_min_finite.
Qed.

Lemma fold_max_finite vs : forall v,
  isFinite v = true -> Forall (fun x => isFinite x = true) vs ->
  isFinite (fold_left Math_max vs v) = true.
Proof.
  induction vs as [|w vs IH]; intros v Hv Hvs; [exact Hv|].
  inversion Hvs; subst. cbn [fold_left]. apply IH; [|assumption].
  now apply Math_max_finite.
Qed.

Lemma rangeOfBounds_run vs :
  Forall (fun x => isFinite x = true) vs ->
  rangeOfBounds vs
  = match vs with
    | [] => None
    | _ => Some {| min := runMin vs; max := runMax vs |}
    end.
Proof.
  destruct vs as [|v r]; [reflexivity|]. intros H. inversion H; subst.
  unfold rangeOfBounds, runMin, runMax. cbn [fold_left].
  rewrite Math_min_Infinity, Math_max_NegInfinity by assumption.
  reflexivity.
Qed.

Lemma run_finite vs :
  vs <> [] -> Forall (fun x => isFinite x = true) vs ->
  isFinite (runMin vs) = true /\ isFinite (runMax vs) = true.
Proof.
  destruct vs as [|v r]; [congruence|]. intros _ H. inversion H; subst.
  unfold runMin, runMax. cbn [fold_left].
  rewrite Math_min_Infinity, Math_max_NegInfinity by assumption.
  split; [apply fold_min_finite | apply fold_max_finite]; assumption.
Qed.

(** The two bounds after the two guarded updates of the loop body are the
    running bounds extended by what the row supplies. *)
Lemma row_updates (f : number -> number -> number) top base x0 :
  (if negb (isNaN base)
   then f (if negb (isNaN top) then f x0 top else x0) base
   else (if negb (isNaN top) then f x0 top else x0))
  = fold_left f (filter (fun x => negb (isNaN x)) [top; base]) x0.
Proof. cbn [filter]. destruct (isNaN top), (isNaN base); reflexivity. Qed.

(** The entry of location [L] after one row. *)
Lemma depthRow_get li ti bi ranges row L vs0 :
  mapGet ranges L = rangeOfBounds vs0 ->
  Forall (fun x => isFinite x = true) vs0 ->
  Forall (fun x => isFinite x = true) (boundsOf li ti bi L [row]) ->
  mapGet (depthRow li ti bi ranges row) L
  = rangeOfBounds (vs0 ++ boundsOf li ti bi L [row]).
Proof.
  intros Hget Hfin0 Hfin.
  unfold boundsOf, rowLocation in *. cbn [flat_map] in *.
  rewrite app_nil_r in *.
  unfold depthRow.
  destruct (index row li) as [id|]; [|now rewrite app_nil_r].
  destruct (truthy (Some id)); [|now rewrite app_nil_r].
  fold (depthAt ti row). fold (depthAt bi row).
  cbv zeta.
  rewrite (row_updates Math_min), (row_updates Math_max).
  change (filter (fun x => negb (isNaN x))
            [depthAt ti row; depthAt bi row])
    with (rowBounds ti bi row).
  destruct (String.eqb id L) eqn:EL.
  - apply String.eqb_eq in EL. subst id.
    set (bs := rowBounds ti bi row) in *.
    assert (Hall : Forall (fun x => isFinite x = true) (vs0 ++ bs))
      by (apply Forall_app; auto).
    assert (Hmin : fold_left Math_min bs
                     (match mapGet ranges L with
                      | Some r => min r | None => Infinity end)
                   = runMin (vs0 ++ bs)).
    { unfold runMin. rewrite fold_left_app. f_equal.
      rewrite Hget, (rangeOfBounds_run _ Hfin0).
      destruct vs0; reflexivity. }
    assert (Hmax : fold_left Math_max bs
                     (match mapGet ranges L with
                      | Some r => max r | None => NegInfinity end)
                   = runMax (vs0 ++ bs)).
    { unfold runMax. rewrite fold_left_app. f_equal.
      rewrite Hget, (rangeOfBounds_run _ Hfin0).
      destruct vs0; reflexivity. }
    rewrite Hmin, Hmax. rewrite (rangeOfBounds_run _ Hall).
    destruct (vs0 ++ bs) as [|v r] eqn:Evs.
    + cbn. destruct vs0; [|discriminate]. exact Hget.
    + rewrite <- Evs in *.
      destruct (run_finite (vs0 ++ bs)) as [Fm FM];
        [rewrite Evs; discriminate | exact Hall |].
      rewrite (finite_not_Infinity _ Fm), (finite_not_NegInfinity _ FM).
      cbn [negb orb]. rewrite mapGet_mapSet, String.eqb_refl.
      rewrite Evs. reflexivity.
  - rewrite app_nil_r.
    destruct (_ || _); [|exact Hget].
    rewrite mapGet_mapSet, EL. exact Hget.
Qed.

Lemma boundsOf_cons li ti bi L row rows :
  boundsOf li ti bi L (row :: rows)
  = boundsOf li ti bi L [row] ++ boundsOf li ti bi L rows.
Proof. unfold boundsOf. cbn [flat_map]. now rewrite app_nil_r. Qed.

Lemma depthRows_get li ti bi L rows : forall ranges vs0,
  mapGet ranges L = rangeOfBounds vs0 ->
  Forall (fun x => isFinite x = true) vs0 ->
  Forall (fun x => isFinite x = true) (boundsOf li ti bi L rows) ->
  mapGet (fold_left (depthRow li ti bi) rows ranges) L
  = rangeOfBounds (vs0 ++ boundsOf li ti bi L rows).
Proof.
  induction rows as [|row rows IH]; intros ranges vs0 Hget Hfin0 Hfin.
  - cbn. now rewrite app_nil_r.
  - rewrite boundsOf_cons in *. apply Forall_app in Hfin.
    destruct Hfin as [Hrow Hrows].
    cbn [fold_left]. rewrite app_assoc. apply IH.
    + now apply depthRow_get.
    + now apply Forall_app.
    + exact Hrows.
Qed.

(** With no LOCA_ID column no row has a location, and with neither depth
    column no row supplies a bound. *)
Lemma boundsOf_no_location ti bi L rows li :
  (li < 0)%Z -> boundsOf li ti bi L rows = [].
Proof.
  intros H. unfold boundsOf, rowLocation, index.
  induction rows as [|row rows IH]; [reflexivity|].
  cbn [flat_map]. rewrite IH.
  destruct (li <? 0)%Z eqn:E; [reflexivity | apply Z.ltb_ge in E; lia].
Qed.

Lemma boundsOf_no_depth li L rows ti bi :
  (ti < 0)%Z -> (bi < 0)%Z -> boundsOf li ti bi L rows = [].
Proof.
  intros Ht Hb. unfold boundsOf, rowBounds, depthAt.
  destruct (0 <=? ti)%Z eqn:Et; [apply Z.leb_le in Et; lia|].
  destruct (0 <=? bi)%Z eqn:Eb; [apply Z.leb_le in Eb; lia|].
  induction rows as [|row rows IH]; [reflexivity|].
  cbn [flat_map]. rewrite IH. cbn.
  destruct (rowLocation li row); [|reflexivity].
  destruct (String.eqb _ _); reflexivity.
Qed.

Lemma locationRow_carries ranges a b c d e acc row :
  Forall (carriesRange ranges) (fst acc) ->
  Forall (carriesRange ranges)
    (fst (locationRow ranges a b c d e acc row)).
Proof.
  intros H. unfold locationRow.
  destruct (if (0 <=? a)%Z then index row a else Some EmptyString)
    as [i|]; [|exact H].
  destruct (truthy (Some i)); [|exact H].
  cbn [fst]. apply Forall_app. split; [exact H|].
  constructor; [|constructor]. split; reflexivity.
Qed.

Lemma locationRows_carry ranges a b c d e rows : forall acc,
  Forall (carriesRange ranges) (fst acc) ->
  Forall (carriesRange ranges)
    (fst (fold_left (locationRow ranges a b c d e) rows acc)).
Proof.
  induction rows as [|row rows IH]; intros acc H; [exact H|].
  cbn [fold_left]. apply IH. now apply locationRow_carries.
Qed.

Lemma locations_carry dictGroups parsed :
  Forall (carriesRange (depthRangesByLocation parsed))
    (locations (generateSummary dictGroups parsed)).
Proof.
  cbn [generateSummary locations]. unfold locationInventory.
  destruct (mapGet (groups parsed) "LOCA"); [|constructor].
  apply locationRows_carry. constructor.
Qed.

End DepthFacts.

(* ------------------------------------------------------------------ *)
(** * Properties of the table synchronisation *)

Module ScanFacts.
Import Text Js Extension TableViewProvider ViewSpec.

(** The scan records at most one data line for each line it reads. *)
Lemma scanRows_length ls : forall i gl u t ds,
  List.length (snd (scanRows ls i gl u t ds))
  <= List.length ds + List.length ls.
Proof.
  induction ls as [|l ls IH]; intros i gl u t ds; cbn [scanRows].
  - simpl. lia.
  - repeat match goal with
           | |- context [if ?b then _ else _] => destruct b
           end;
      try (etransitivity; [apply IH|]);
      rewrite ?length_app; simpl; lia.
Qed.

Lemma dataLinesFound_bound document group :
  List.length (dataLinesFound document group) <= dataCount group + 10.
Proof.
  unfold dataLinesFound, scanGroup.
  etransitivity; [apply scanRows_length|].
  rewrite length_firstn. simpl. lia.
Qed.

Lemma getLineNumber_data document group rowIndex :
  getLineNumber document group EditDATA rowIndex
  = match index (dataLinesFound document group) rowIndex with
    | Some n => Z.of_nat n
    | None => (-1)%Z
    end.
Proof.
  unfold getLineNumber, dataLinesFound.
  destruct (scanGroup document group) as [[u t] ds]. reflexivity.
Qed.

Lemma index_beyond {A} (l : list A) (i : Z) :
  (Z.of_nat (List.length l) <= i)%Z -> index l i = None.
Proof.
  intros H. unfold index.
  destruct (i <? 0)%Z; [reflexivity|].
  apply nth_error_None. lia.
Qed.

End ScanFacts.

Module ShapeFacts.
Import Text Js Extension TableViewProvider ViewSpec MapFacts ParserFacts.

Section Projection.
Context {V W : Type} (f : V -> W).

Let proj (e : string * V) : string * W := (fst e, f (snd e)).

Lemma map_mapSet (m : Map V) k v :
  List.map proj (mapSet m k v) = mapSet (List.map proj m) k (f v).
Proof.
  unfold proj.
  induction m as [|[k' v'] m IH]; cbn; [reflexivity|].
  destruct (String.eqb k' k); cbn; [reflexivity|].
  now rewrite <- IH.
Qed.

Lemma map_mapAdjust (h : V -> V) (h' : W -> W) (m : Map V) k :
  (forall v, f (h v) = h' (f v)) ->
  List.map proj (mapAdjust h m k) = mapAdjust h' (List.map proj m) k.
Proof.
  intros H. unfold proj.
  induction m as [|[k' v'] m IH]; cbn; [reflexivity|].
  destruct (String.eqb k' k); cbn; [now rewrite H|].
  now rewrite <- IH.
Qed.

Lemma map_mapAdjust_same (h : V -> V) (m : Map V) k :
  (forall v, f (h v) = f v) ->
  List.map proj (mapAdjust h m k) = List.map proj m.
Proof.
  intros H. unfold proj.
  induction m as [|[k' v'] m IH]; cbn; [reflexivity|].
  destruct (String.eqb k' k); cbn; [now rewrite H|].
  now rewrite <- IH.
Qed.

Lemma mapGet_map (m : Map V) k :
  mapGet (List.map proj m) k = option_map f (mapGet m k).
Proof.
  unfold proj.
  induction m as [|[k' v'] m IH]; cbn; [reflexivity|].
  destruct (String.eqb k' k); [reflexivity | exact IH].
Qed.
End Projection.

Lemma shape_adjust_same h st :
  (forall g, dataCount (h g) = dataCount g) ->
  shape (adjustCurrent h st) = shape st.
Proof.
  intros H. unfold shape, adjustCurrent.
  destruct (st_current st) as [k|] eqn:E; cbn [st_current st_groups].
  - rewrite (map_mapAdjust_same dataCount) by exact H. reflexivity.
  - rewrite E. reflexivity.
Qed.

Lemma shape_extractVersion t st :
  shape (extractVersion t st) = shape st.
Proof.
  unfold shape.
  now rewrite st_groups_extractVersion, st_current_extractVersion.
Qed.

Lemma shape_hasCurrent st :
  hasCurrent st = match fst (shape st) with Some _ => true | None => false end.
Proof. reflexivity. Qed.

(** The shape after a line depends on the shape before it only. *)
Lemma shape_parseLine st i text :
  shape (parseLine st i text) = shapeStep (trim text) (shape st).
Proof.
  unfold parseLine, shapeStep. rewrite <- shape_hasCurrent.
  destruct (isEmpty (trim text)); [reflexivity|].
  destruct (matchGroup (trim text)) as [nm|].
  { unfold shape. cbn [st_current st_groups fst snd].
    rewrite (map_mapSet dataCount). reflexivity. }
  destruct (matchKeyword "HEADING" (trim text) && hasCurrent st).
  { apply shape_adjust_same. reflexivity. }
  destruct (matchKeyword "UNIT" (trim text) && hasCurrent st).
  { apply shape_adjust_same. reflexivity. }
  destruct (matchKeyword "TYPE" (trim text) && hasCurrent st).
  { apply shape_adjust_same. reflexivity. }
  rewrite shape_extractVersion.
  destruct (matchKeyword "DATA" (trim text) && hasCurrent st);
    [|destruct (fst (shape st)); reflexivity].
  unfold shape, adjustCurrent. cbn [fst snd].
  destruct (st_current st) as [k|] eqn:E; cbn [st_current st_groups].
  - rewrite (map_mapAdjust dataCount _ S) by reflexivity. reflexivity.
  - rewrite E. reflexivity.
Qed.

Lemma shape_parseLines ls1 ls2 :
  Forall2 sameClass ls1 ls2 ->
  forall i st1 st2,
    shape st1 = shape st2 ->
    shape (parseLines ls1 i st1) = shape (parseLines ls2 i st2).
Proof.
  induction 1 as [|l1 l2 ls1 ls2 Hl Hls IH]; intros i st1 st2 E;
    [exact E|].
  cbn [parseLines]. apply IH.
  rewrite !shape_parseLine, E. apply Hl.
Qed.

Lemma sameClass_refl l : sameClass l l.
Proof. intros sh. reflexivity. Qed.

Lemma Forall2_sameClass_refl ls : Forall2 sameClass ls ls.
Proof. induction ls; constructor; auto using sameClass_refl. Qed.

(** The record count of every group is the same in two documents whose
    lines are pairwise of the same class. *)
Lemma dataCount_sameClass d1 d2 g :
  Forall2 sameClass d1 d2 ->
  option_map dataCount (mapGet (groups (parseDocument d1)) g)
  = option_map dataCount (mapGet (groups (parseDocument d2)) g).
Proof.
  intros H. cbn [parseDocument groups].
  pose proof (shape_parseLines d1 d2 H 0 initialState initialState eq_refl)
    as E.
  unfold shape in E. injection E as _ E.
  rewrite <- !(mapGet_map dataCount). now rewrite E.
Qed.

(** ** Group names are not empty *)

Lemma matchGroup_nonempty t nm : matchGroup t = Some nm -> nm <> EmptyString.
Proof.
  unfold matchGroup.
  destruct (matchPrefixCI _ t) as [r1|]; [|discriminate].
  destruct (trimStart r1) as [|c r2]; [discriminate|].
  destruct (isComma c); [|discriminate].
  destruct (trimStart r2) as [|q r3]; [discriminate|].
  destruct (isQuote q); [|discriminate].
  destruct (spanIdent r3) as [n r4].
  destruct n as [|a n]; [discriminate|].
  destruct r4 as [|q' r5]; [discriminate|].
  destruct (isQuote q'); [|discriminate].
  intros E. injection E as <-. discriminate.
Qed.

Lemma declaredNames_nonempty document k :
  In k (ParserSpec.declaredNames document) -> k <> EmptyString.
Proof.
  unfold ParserSpec.declaredNames. rewrite in_flat_map.
  intros (text & _ & Hin).
  destruct (matchGroup (trim text)) as [nm|] eqn:E; [|contradiction].
  destruct Hin as [<-|[]]. eapply matchGroup_nonempty; eauto.
Qed.

Lemma firstOccurrences_incl l k :
  In k (ParserSpec.firstOccurrences l) -> In k l.
Proof.
  induction l as [|x l IH]; cbn; [auto|].
  intros [->|H]; [auto|]. apply filter_In in H. right. tauto.
Qed.

Lemma mapGet_In {V} (m : Map V) k v :
  mapGet m k = Some v -> In k (mapKeys m).
Proof.
  induction m as [|[k' v'] m IH]; cbn; [discriminate|].
  destruct (String.eqb k' k) eqn:E.
  - apply String.eqb_eq in E. auto.
  - intros H. right. now apply IH.
Qed.

Lemma group_key_truthy document k g :
  mapGet (groups (parseDocument document)) k = Some g ->
  truthy (Some k) = true.
Proof.
  intros H. apply mapGet_In in H. cbn [parseDocument groups] in H.
  rewrite mapKeys_parseLines in H. cbn [initialState st_groups] in H.
  cbn [mapKeys List.map app] in H. apply filter_In in H.
  destruct H as [H _]. apply firstOccurrences_incl in H.
  apply declaredNames_nonempty in H.
  destruct k; [congruence | reflexivity].
Qed.

End ShapeFacts.

(* ------------------------------------------------------------------ *)
(** * The parser, line by line *)

Module StepFacts.
Import Text Js Extension SegmentSpec MapFacts ParserFacts VersionFacts.

Lemma parseLines_app a : forall b i st,
  parseLines (a ++ b) i st
  = parseLines b (i + List.length a) (parseLines a i st).
Proof.
  induction a as [|l a IH]; intros b i st; cbn [app parseLines List.length].
  - now rewrite Nat.add_0_r.
  - rewrite IH. f_equal. lia.
Qed.

Lemma parseDocument_snoc done l :
  parseLines (done ++ [l]) 0 initialState
  = parseLine (parseLines done 0 initialState) (List.length done) l.
Proof. rewrite parseLines_app. reflexivity. Qed.

Lemma matchKeyword_empty kw : matchKeyword kw EmptyString = false.
Proof. reflexivity. Qed.

Lemma declares_nonempty text nm :
  declares text = Some nm -> isEmpty (trim text) = false.
Proof.
  unfold declares. destruct (trim text); [discriminate | reflexivity].
Qed.

Lemma mapAdjust_same {V} (f : V -> V) (m : Map V) k :
  (forall v, f v = v) -> mapAdjust f m k = m.
Proof.
  intros H. induction m as [|[k' v] m IH]; cbn; [reflexivity|].
  destruct (String.eqb k' k); [now rewrite H | now rewrite IH].
Qed.

Lemma mapAdjust_compose {V} (f g : V -> V) (m : Map V) k :
  mapAdjust f (mapAdjust g m k) k = mapAdjust (fun v => f (g v)) m k.
Proof.
  induction m as [|[k' v] m IH]; cbn; [reflexivity|].
  destruct (String.eqb k' k) eqn:E; cbn; rewrite E; [reflexivity|].
  now rewrite IH.
Qed.

Lemma mapAdjust_ext {V} (f g : V -> V) (m : Map V) k :
  (forall v, f v = g v) -> mapAdjust f m k = mapAdjust g m k.
Proof.
  intros H. induction m as [|[k' v] m IH]; cbn; [reflexivity|].
  destruct (String.eqb k' k); [now rewrite H | now rewrite IH].
Qed.

Lemma mapGet_mapAdjust_other {V} (f : V -> V) (m : Map V) k k' :
  k <> k' -> mapGet (mapAdjust f m k) k' = mapGet m k'.
Proof.
  intros Hne. induction m as [|[k0 v] m IH]; cbn; [reflexivity|].
  destruct (String.eqb k0 k) eqn:E; cbn.
  - destruct (String.eqb k0 k') eqn:E'; [|reflexivity].
    apply String.eqb_eq in E, E'. congruence.
  - destruct (String.eqb k0 k'); [reflexivity | exact IH].
Qed.

(** The current group after a line. *)
Lemma st_current_parseLine st i text :
  st_current (parseLine st i text)
  = match declares text with
    | Some nm => Some nm
    | None => st_current st
    end.
Proof.
  unfold parseLine, declares.
  destruct (isEmpty (trim text)) eqn:E.
  { destruct (trim text); [reflexivity | discriminate]. }
  destruct (matchGroup (trim text)); [reflexivity|].
  repeat match goal with
         | |- context [if ?b then _ else _] => destruct b
         end;
    rewrite ?st_current_extractVersion;
    unfold adjustCurrent; destruct (st_current st) eqn:C;
    cbn [st_current]; auto.
Qed.

(** The groups after a declaration. *)
Lemma st_groups_declaration st i text nm :
  declares text = Some nm ->
  st_groups (parseLine st i text)
  = mapSet (st_groups st) nm (newGroup nm i).
Proof.
  intros H. unfold parseLine. rewrite (declares_nonempty _ _ H).
  unfold declares in H. rewrite H. reflexivity.
Qed.

(** The groups after a line that is not a declaration: one update of the
    current group. *)
Lemma st_groups_row st i text :
  declares text = None ->
  st_groups (parseLine st i text)
  = match st_current st with
    | Some c => mapAdjust (rowUpdate i text) (st_groups st) c
    | None => st_groups st
    end.
Proof.
  intros H. unfold parseLine, declares in *.
  destruct (isEmpty (trim text)) eqn:E.
  { destruct (trim text) eqn:T; [|discriminate].
    destruct (st_current st); [|reflexivity].
    symmetry. apply mapAdjust_same. intros g. unfold rowUpdate.
    rewrite T. reflexivity. }
  rewrite H. unfold hasCurrent.
  destruct (st_current st) as [c|] eqn:C.
  - rewrite !andb_true_r. unfold rowUpdate, adjustCurrent. rewrite C.
    destruct (matchKeyword "HEADING" (trim text)); [reflexivity|].
    destruct (matchKeyword "UNIT" (trim text)); [reflexivity|].
    destruct (matchKeyword "TYPE" (trim text)); [reflexivity|].
    rewrite st_groups_extractVersion.
    destruct (matchKeyword "DATA" (trim text)); cbn [st_groups].
    + reflexivity.
    + symmetry. apply mapAdjust_same. reflexivity.
  - rewrite !andb_false_r. now rewrite st_groups_extractVersion.
Qed.

(** A segment without declarations updates the current group only. *)
Lemma parseLines_segment seg : forall i st c,
  Forall (fun l => declares l = None) seg ->
  st_current st = Some c ->
  st_current (parseLines seg i st) = Some c
  /\ st_groups (parseLines seg i st)
     = mapAdjust (rowUpdates seg i) (st_groups st) c.
Proof.
  induction seg as [|l seg IH]; intros i st c Hseg Hc.
  - cbn. split; [exact Hc|]. symmetry. now apply mapAdjust_same.
  - inversion Hseg as [|? ? Hl Hrest]; subst. cbn [parseLines rowUpdates].
    assert (Hc' : st_current (parseLine st i l) = Some c)
      by (rewrite st_current_parseLine, Hl; exact Hc).
    destruct (IH (S i) _ c Hrest Hc') as [E1 E2].
    split; [exact E1|].
    rewrite E2, (st_groups_row _ _ _ Hl), Hc.
    apply mapAdjust_compose.
Qed.

(** Lines that do not declare [nm], read while the parser is in another
    group, leave the group [nm] as it is. *)
Lemma parseLines_frame nm lines : forall i st,
  Forall (fun l => declares l <> Some nm) lines ->
  st_current st <> Some nm ->
  mapGet (st_groups (parseLines lines i st)) nm
  = mapGet (st_groups st) nm.
Proof.
  induction lines as [|l lines IH]; intros i st Hl Hc; [reflexivity|].
  inversion Hl as [|? ? Hne Hrest]; subst. cbn [parseLines].
  rewrite IH; [|exact Hrest|].
  - destruct (declares l) as [nm'|] eqn:D.
    + rewrite (st_groups_declaration _ _ _ _ D).
      rewrite DepthFacts.mapGet_mapSet.
      destruct (String.eqb nm' nm) eqn:E; [|reflexivity].
      apply String.eqb_eq in E. congruence.
    + rewrite (st_groups_row _ _ _ D).
      destruct (st_current st) as [c|]; [|reflexivity].
      apply mapGet_mapAdjust_other. congruence.
  - rewrite st_current_parseLine.
    destruct (declares l); congruence.
Qed.

End StepFacts.

Module InvariantFacts.
Import Text Js Extension SegmentSpec MapFacts ParserFacts VersionFacts.
Import StepFacts.

Lemma Forall_mapSet_key {V} (P Q : string * V -> Prop) (m : Map V) k v :
  NoDup (mapKeys m) ->
  Forall P m ->
  (forall k' v', P (k', v') -> k' <> k -> Q (k', v')) ->
  Q (k, v) ->
  Forall Q (mapSet m k v).
Proof.
  intros Hnd Hm Hkeep Hnew. induction Hm as [|[k' v'] m Hx Hm IH]; cbn.
  - constructor; [exact Hnew | constructor].
  - inversion Hnd as [|? ? Hnot Hnd']; subst.
    destruct (String.eqb k' k) eqn:E.
    + apply String.eqb_eq in E. subst k'. constructor; [exact Hnew|].
      rewrite Forall_forall in *. intros [k2 v2] Hin.
      apply Hkeep; [now apply Hm|].
      intros ->. apply Hnot.
      change (In (fst (k, v2)) (List.map fst m)). now apply in_map.
    + constructor; [|now apply IH].
      apply Hkeep; [exact Hx|]. now apply String.eqb_neq.
Qed.

Lemma Forall_mapAdjust_key {V} (P Q : string * V -> Prop) (f : V -> V)
      (m : Map V) k :
  Forall P m ->
  (forall k' v', P (k', v') -> Q (k', v')) ->
  (forall v', P (k, v') -> Q (k, f v')) ->
  Forall Q (mapAdjust f m k).
Proof.
  intros Hm Hkeep Hadj. induction Hm as [|[k' v'] m Hx Hm IH]; cbn.
  - constructor.
  - destruct (String.eqb k' k) eqn:E.
    + apply String.eqb_eq in E. subst k'. constructor; [now apply Hadj|].
      eapply Forall_impl; [|exact Hm]. intros [k2 v2]. apply Hkeep.
    + constructor; [now apply Hkeep | exact IH].
Qed.

Lemma rowUpdate_name i text g : name (rowUpdate i text g) = name g.
Proof.
  unfold rowUpdate.
  repeat match goal with
         | |- context [if ?b then _ else _] => destruct b
         end; reflexivity.
Qed.

Lemma rowUpdate_line i text g : line (rowUpdate i text g) = line g.
Proof.
  unfold rowUpdate.
  repeat match goal with
         | |- context [if ?b then _ else _] => destruct b
         end; reflexivity.
Qed.

Lemma rowUpdate_heading i text g :
  (isRow "HEADING" text = true
   /\ headingLine (rowUpdate i text g) = Z.of_nat i
   /\ headings (rowUpdate i text g) = rowOf text)
  \/ (isRow "HEADING" text = false
      /\ headingLine (rowUpdate i text g) = headingLine g
      /\ headings (rowUpdate i text g) = headings g).
Proof.
  unfold rowUpdate, isRow, rowOf.
  destruct (matchKeyword "HEADING" (trim text)); [left; auto|].
  right.
  repeat match goal with
         | |- context [if ?b then _ else _] => destruct b
         end; auto.
Qed.

(** The invariant of a group is kept when one more line has been read,
    unless that line declares the name of the group. *)
Lemma groupInvariant_snoc done l k g :
  groupInvariant done (k, g) ->
  declares l <> Some k ->
  groupInvariant (done ++ [l]) (k, g).
Proof.
  intros (Hn & (t & Ht & Hd) & Hlast & Hh) Hl.
  assert (Hlt : line g < List.length done)
    by (apply nth_error_Some; congruence).
  split; [exact Hn|]. split; [|split].
  - exists t. split; [|exact Hd]. rewrite nth_error_app1; assumption.
  - intros j text Hj Hnth.
    destruct (Nat.lt_ge_cases j (List.length done)) as [Hin|Hout].
    + rewrite nth_error_app1 in Hnth by exact Hin. eauto.
    + rewrite nth_error_app2 in Hnth by exact Hout.
      destruct (j - List.length done) as [|n]; cbn in Hnth.
      * injection Hnth as <-. exact Hl.
      * destruct n; discriminate.
  - destruct Hh as [Hh | (h & text & H1 & H2 & H3 & H4 & H5)];
      [left; exact Hh|].
    right. exists h, text. repeat split; try assumption.
    rewrite nth_error_app1; [assumption|].
    apply nth_error_Some. congruence.
Qed.

Lemma groupInvariant_new done l nm :
  declares l = Some nm ->
  groupInvariant (done ++ [l]) (nm, newGroup nm (List.length done)).
Proof.
  intros Hd. split; [reflexivity|]. cbn [newGroup line headingLine headings].
  split; [|split].
  - exists l. split; [|exact Hd].
    rewrite nth_error_app2, Nat.sub_diag by lia. reflexivity.
  - intros j text Hj Hnth.
    assert (j < List.length (done ++ [l]))
      by (apply nth_error_Some; congruence).
    rewrite length_app in H. cbn in H. lia.
  - left. split; reflexivity.
Qed.

Lemma groupInvariant_row done l k g :
  groupInvariant done (k, g) ->
  declares l = None ->
  groupInvariant (done ++ [l]) (k, rowUpdate (List.length done) l g).
Proof.
  intros Hg Hl.
  assert (Hs : groupInvariant (done ++ [l]) (k, g))
    by (apply groupInvariant_snoc; [exact Hg | congruence]).
  destruct Hg as (_ & (t & Ht & _) & _ & _).
  assert (Hlt : line g < List.length done)
    by (apply nth_error_Some; congruence).
  destruct Hs as (Hn & Hdecl & Hlast & Hh).
  split; [now rewrite rowUpdate_name|].
  rewrite rowUpdate_line. split; [exact Hdecl|]. split; [exact Hlast|].
  destruct (rowUpdate_heading (List.length done) l g)
    as [(Hr & E1 & E2) | (Hr & E1 & E2)]; rewrite E1, E2.
  - right. exists (List.length done), l. repeat split; auto.
    rewrite nth_error_app2, Nat.sub_diag by lia. reflexivity.
  - exact Hh.
Qed.

(** The invariant of the parser: every group satisfies its invariant and
    no key is held twice. *)
Lemma parseLine_invariant done st l :
  Forall (groupInvariant done) (st_groups st) ->
  NoDup (mapKeys (st_groups st)) ->
  Forall (groupInvariant (done ++ [l]))
    (st_groups (parseLine st (List.length done) l))
  /\ NoDup (mapKeys (st_groups (parseLine st (List.length done) l))).
Proof.
  intros Hall Hnd.
  destruct (declares l) as [nm|] eqn:D.
  - rewrite (st_groups_declaration _ _ _ _ D). split.
    + eapply Forall_mapSet_key;
        [exact Hnd | exact Hall | | now apply groupInvariant_new].
      intros k' g' Hg Hne. apply groupInvariant_snoc; [exact Hg|].
      congruence.
    + rewrite mapKeys_mapSet.
      destruct (existsb _ _) eqn:E; [exact Hnd|].
      apply NoDup_app; [exact Hnd | repeat constructor; auto |].
      intros x Hin [Hx|[]]. subst x.
      assert (existsb (fun y => String.eqb y nm) (mapKeys (st_groups st))
              = true)
        by (apply existsb_exists; exists nm; split;
            [exact Hin | apply String.eqb_refl]).
      congruence.
  - rewrite (st_groups_row _ _ _ D).
    destruct (st_current st) as [c|].
    + split; [|now rewrite mapKeys_mapAdjust].
      eapply Forall_mapAdjust_key; [exact Hall | |].
      * intros k' g' Hg. apply groupInvariant_snoc; [exact Hg | congruence].
      * intros g' Hg. now apply groupInvariant_row.
    + split; [|exact Hnd].
      eapply Forall_impl; [|exact Hall].
      intros [k' g'] Hg. apply groupInvariant_snoc; [exact Hg | congruence].
Qed.

Lemma parseDocument_invariant document :
  Forall (groupInvariant document) (groups (parseDocument document))
  /\ NoDup (mapKeys (groups (parseDocument document))).
Proof.
  cbn [parseDocument groups].
  induction document as [|l done IH] using rev_ind.
  - cbn. split; constructor.
  - rewrite parseDocument_snoc. destruct IH as [Hall Hnd].
    now apply parseLine_invariant.
Qed.

Lemma mapGet_In_entry {V} (m : Map V) k v :
  mapGet m k = Some v -> In (k, v) m.
Proof.
  induction m as [|[k' v'] m IH]; cbn; [discriminate|].
  destruct (String.eqb k' k) eqn:E.
  - apply String.eqb_eq in E. intros H. injection H as <-. subst. now left.
  - intros H. right. now apply IH.
Qed.

Lemma In_mapGet {V} (m : Map V) k v :
  NoDup (mapKeys m) -> In (k, v) m -> mapGet m k = Some v.
Proof.
  induction m as [|[k' v'] m IH]; cbn; [contradiction|].
  intros Hnd [E|Hin].
  - injection E as -> ->. now rewrite String.eqb_refl.
  - inversion Hnd as [|? ? Hnot Hnd']; subst.
    destruct (String.eqb k' k) eqn:E; [|now apply IH].
    apply String.eqb_eq in E. subst k'. exfalso. apply Hnot.
    change (In (fst (k, v)) (List.map fst m)). now apply in_map.
Qed.

Lemma group_invariant_of document k g :
  mapGet (groups (parseDocument document)) k = Some g ->
  groupInvariant document (k, g).
Proof.
  intros H. apply mapGet_In_entry in H.
  destruct (parseDocument_invariant document) as [Hall _].
  rewrite Forall_forall in Hall. now apply Hall.
Qed.

End InvariantFacts.

Module SegmentFacts.
Import Text Js Extension SegmentSpec MapFacts ParserFacts VersionFacts.
Import StepFacts InvariantFacts.

Lemma untilDeclaration_split rest :
  exists post,
    rest = untilDeclaration rest ++ post
    /\ Forall (fun l => declares l = None) (untilDeclaration rest)
    /\ (post = [] \/ exists h t nm, post = h :: t /\ declares h = Some nm).
Proof.
  induction rest as [|l rest (post & E & Hseg & Hpost)]; cbn.
  - exists []. repeat split; auto.
  - unfold isDeclaration. destruct (declares l) as [nm|] eqn:D.
    + exists (l :: rest). repeat split; [constructor|].
      right. eauto.
    + exists post. cbn. split; [now rewrite <- E|].
      split; [now constructor | exact Hpost].
Qed.

Lemma nth_error_decompose {A} (l : list A) i x :
  nth_error l i = Some x ->
  l = firstn i l ++ x :: skipn (S i) l /\ List.length (firstn i l) = i.
Proof.
  revert i. induction l as [|y l IH]; intros [|i] H; cbn in *;
    try discriminate.
  - injection H as ->. auto.
  - destruct (IH i H) as [E L]. split; [now rewrite <- E | now rewrite L].
Qed.

Lemma Forall_skipn_index {A} (P : A -> Prop) (l : list A) i :
  (forall j x, i <= j -> nth_error l j = Some x -> P x) ->
  Forall P (skipn i l).
Proof.
  revert i. induction l as [|y l IH]; intros i H.
  - rewrite skipn_nil. constructor.
  - destruct i as [|i]; cbn.
    + constructor; [apply (H 0 y); [lia | reflexivity]|].
      apply (IH 0). intros j x _ Hj. apply (H (S j)); [lia | exact Hj].
    + apply IH. intros j x Hle Hj. apply (H (S j)); [lia | exact Hj].
Qed.

(** The group stored under a name is the fresh group of its last
    declaration updated by the rows of its segment. *)
Lemma group_of_segment document k g :
  mapGet (groups (parseDocument document)) k = Some g ->
  g = rowUpdates (segment document (line g)) (S (line g))
        (newGroup k (line g)).
Proof.
  intros Hget.
  destruct (group_invariant_of _ _ _ Hget)
    as (_ & (decl & Hnth & Hdecl) & Hlast & _).
  set (i := line g) in *.
  destruct (nth_error_decompose _ _ _ Hnth) as [Edoc Hlen].
  set (pre := firstn i document) in *.
  set (rest := skipn (S i) document) in *.
  assert (Hrest : Forall (fun l => declares l <> Some k) rest).
  { apply Forall_skipn_index. intros j x Hj Hx. apply (Hlast j x); [lia|].
    exact Hx. }
  destruct (untilDeclaration_split rest) as (post & Erest & Hseg & Hpost).
  unfold segment. fold rest. set (seg := untilDeclaration rest) in *.
  assert (Hpostk : Forall (fun l => declares l <> Some k) post).
  { rewrite Erest in Hrest. apply Forall_app in Hrest. tauto. }
  clearbody seg. clearbody rest pre.
  cbn [parseDocument groups] in Hget.
  rewrite Edoc, Erest in Hget.
  rewrite parseLines_app in Hget. cbn [parseLines Nat.add] in Hget.
  rewrite Hlen in Hget. rewrite parseLines_app in Hget.
  set (st0 := parseLines pre 0 initialState) in *.
  set (st1 := parseLine st0 i decl) in *.
  assert (Hc1 : st_current st1 = Some k)
    by (unfold st1; rewrite st_current_parseLine, Hdecl; reflexivity).
  destruct (parseLines_segment seg (S i) st1 k Hseg Hc1) as [Hc2 Hg2].
  set (st2 := parseLines seg (S i) st1) in *.
  assert (Hget2 : mapGet (st_groups st2) k
                  = Some (rowUpdates seg (S i) (newGroup k i))).
  { rewrite Hg2, mapGet_mapAdjust. unfold st1.
    rewrite (st_groups_declaration _ _ _ _ Hdecl).
    rewrite DepthFacts.mapGet_mapSet, String.eqb_refl. reflexivity. }
  destruct Hpost as [-> | (h & t & nm & -> & Hh)].
  - cbn [parseLines] in Hget. congruence.
  - cbn [parseLines] in Hget.
    inversion Hpostk as [|? ? Hhk Htk]; subst.
    rewrite parseLines_frame in Hget; [| exact Htk |].
    + rewrite (st_groups_declaration _ _ _ _ Hh) in Hget.
      rewrite DepthFacts.mapGet_mapSet in Hget.
      destruct (String.eqb nm k) eqn:E.
      * apply String.eqb_eq in E. congruence.
      * congruence.
    + rewrite st_current_parseLine, Hh. congruence.
Qed.

(** ** The fields of a group after the rows of a segment *)

Lemma isRow_exclusive c1 kw1 c2 kw2 text :
  canonicalize c1 <> canonicalize c2 ->
  isRow (String c1 kw1) text = true ->
  isRow (String c2 kw2) text = false.
Proof. unfold isRow. apply matchKeyword_exclusive. Qed.

Lemma rowUpdate_data i text g :
  data (rowUpdate i text g)
  = (if isRow "DATA" text then data g ++ [rowOf text] else data g)
  /\ dataCount (rowUpdate i text g)
     = (if isRow "DATA" text then S (dataCount g) else dataCount g).
Proof.
  destruct (isRow "DATA" text) eqn:D.
  - unfold rowUpdate.
    fold (isRow "HEADING" text). fold (isRow "UNIT" text).
    fold (isRow "TYPE" text). fold (isRow "DATA" text).
    rewrite (isRow_exclusive "D" "ATA" "H" "EADING" text),
            (isRow_exclusive "D" "ATA" "U" "NIT" text),
            (isRow_exclusive "D" "ATA" "T" "YPE" text), D;
      try discriminate; try exact D.
    split; reflexivity.
  - unfold rowUpdate. fold (isRow "DATA" text). rewrite D.
    repeat match goal with
           | |- context [if ?b then _ else _] => destruct b
           end; split; reflexivity.
Qed.

Lemma rowUpdate_units i text g :
  units (rowUpdate i text g)
  = if isRow "UNIT" text then rowOf text else units g.
Proof.
  destruct (isRow "UNIT" text) eqn:D.
  - unfold rowUpdate.
    fold (isRow "HEADING" text). fold (isRow "UNIT" text).
    rewrite (isRow_exclusive "U" "NIT" "H" "EADING" text), D;
      try discriminate; try exact D.
    reflexivity.
  - unfold rowUpdate. fold (isRow "UNIT" text). rewrite D.
    repeat match goal with
           | |- context [if ?b then _ else _] => destruct b
           end; reflexivity.
Qed.

Lemma rowUpdate_types i text g :
  types (rowUpdate i text g)
  = if isRow "TYPE" text then rowOf text else types g.
Proof.
  destruct (isRow "TYPE" text) eqn:D.
  - unfold rowUpdate.
    fold (isRow "HEADING" text). fold (isRow "UNIT" text).
    fold (isRow "TYPE" text).
    rewrite (isRow_exclusive "T" "YPE" "H" "EADING" text),
            (isRow_exclusive "T" "YPE" "U" "NIT" text), D;
      try discriminate; try exact D.
    reflexivity.
  - unfold rowUpdate. fold (isRow "TYPE" text). rewrite D.
    repeat match goal with
           | |- context [if ?b then _ else _] => destruct b
           end; reflexivity.
Qed.

Lemma rowUpdates_data seg : forall i g,
  data (rowUpdates seg i g)
  = data g ++ List.map rowOf (filter (isRow "DATA") seg)
  /\ dataCount (rowUpdates seg i g)
     = dataCount g + List.length (filter (isRow "DATA") seg).
Proof.
  induction seg as [|l seg IH]; intros i g; cbn [rowUpdates filter].
  - cbn. rewrite app_nil_r. split; [reflexivity | lia].
  - destruct (IH (S i) (rowUpdate i l g)) as [E1 E2].
    destruct (rowUpdate_data i l g) as [D1 D2].
    rewrite E1, E2, D1, D2.
    destruct (isRow "DATA" l); cbn [List.map List.length app].
    + rewrite <- app_assoc. split; [reflexivity | lia].
    + split; reflexivity.
Qed.

Lemma rowUpdates_last (field : ParsedGroup -> list string) kw seg :
  (forall i text g,
      field (rowUpdate i text g)
      = if isRow kw text then rowOf text else field g) ->
  forall i g,
    field (rowUpdates seg i g)
    = last (List.map rowOf (filter (isRow kw) seg)) (field g).
Proof.
  intros Hstep. induction seg as [|l seg IH]; intros i g;
    cbn [rowUpdates filter]; [reflexivity|].
  rewrite IH, Hstep.
  destruct (isRow kw l); [|reflexivity].
  cbn [List.map]. now rewrite last_cons.
Qed.

Lemma rowUpdate_headings i text g :
  headings (rowUpdate i text g)
  = if isRow "HEADING" text then rowOf text else headings g.
Proof.
  destruct (rowUpdate_heading i text g) as [(-> & _ & E) | (-> & _ & E)];
    exact E.
Qed.

End SegmentFacts.

(* ------------------------------------------------------------------ *)
(** * The position index *)

Module PositionFacts.
Import Text Js Extension SegmentSpec MapFacts ParserFacts.
Import StepFacts InvariantFacts.

Lemma findGroupLoop_spec n gs : forall cur,
  (forall c, cur = Some c -> line c <= n) ->
  match findGroupLoop gs n cur with
  | None => cur = None /\ Forall (fun e => n < line (snd e)) gs
  | Some r =>
      line r <= n
      /\ (cur = Some r \/ In r (List.map snd gs))
      /\ (forall c, cur = Some c -> line c <= line r)
      /\ Forall (fun e => line (snd e) <= n -> line (snd e) <= line r) gs
  end.
Proof.
  induction gs as [|[k g] gs IH]; intros cur Hcur; cbn [findGroupLoop].
  - destruct cur as [c|]; [|split; [reflexivity | constructor]].
    repeat split; auto. intros c' E. injection E as <-. lia.
  - set (cur' := if line g <=? n
                 then match cur with
                      | None => Some g
                      | Some c => if line c <? line g then Some g else cur
                      end
                 else cur).
    assert (Hcur' : forall c, cur' = Some c -> line c <= n).
    { intros c. unfold cur'.
      destruct (line g <=? n) eqn:E; [|apply Hcur].
      apply Nat.leb_le in E.
      destruct cur as [c0|].
      - destruct (line c0 <? line g); [|apply Hcur].
        intros H. injection H as <-. exact E.
      - intros H. injection H as <-. exact E. }
    specialize (IH cur' Hcur').
    destruct (findGroupLoop gs n cur') as [r|].
    + destruct IH as (Hr & Hin & Hmax & Hall).
      assert (Hg : line g <= n -> line g <= line r).
      { intros Hle. unfold cur' in Hmax.
        apply Nat.leb_le in Hle. rewrite Hle in Hmax.
        destruct cur as [c0|]; [|now apply Hmax].
        destruct (line c0 <? line g) eqn:E; [now apply Hmax|].
        apply Nat.ltb_ge in E. specialize (Hmax c0 eq_refl). lia. }
      assert (Hc : forall c, cur = Some c -> line c <= line r).
      { intros c ->. unfold cur' in Hmax.
        destruct (line g <=? n) eqn:E; [|now apply Hmax].
        destruct (line c <? line g) eqn:E2; [|now apply Hmax].
        apply Nat.ltb_lt in E2. apply Nat.leb_le in E.
        specialize (Hg E). lia. }
      repeat split; auto.
      * destruct Hin as [Hin|Hin]; [|right; right; exact Hin].
        unfold cur' in Hin.
        destruct (line g <=? n); [|left; exact Hin].
        destruct cur as [c0|].
        -- destruct (line c0 <? line g); [|left; exact Hin].
           injection Hin as <-. right. left. reflexivity.
        -- injection Hin as <-. right. left. reflexivity.
    + destruct IH as (Hnone & Hall). unfold cur' in Hnone.
      destruct (line g <=? n) eqn:E.
      * destruct cur as [c0|]; [|discriminate].
        destruct (line c0 <? line g); discriminate.
      * apply Nat.leb_gt in E. split; [exact Hnone|].
        constructor; [exact E | exact Hall].
Qed.

Lemma In_firstOccurrences l x :
  In x l -> In x (ParserSpec.firstOccurrences l).
Proof.
  induction l as [|y l IH]; cbn; [auto|].
  intros [->|H]; [now left|].
  destruct (String.eqb_spec x y) as [->|Hne]; [now left|].
  right. apply filter_In. split; [now apply IH|].
  apply negb_true_iff. now apply String.eqb_neq.
Qed.

Lemma In_mapKeys_mapGet {V} (m : Map V) k :
  In k (mapKeys m) -> exists v, mapGet m k = Some v.
Proof.
  induction m as [|[k' v'] m IH]; cbn; [contradiction|].
  destruct (String.eqb k' k) eqn:E; [eauto|].
  intros [H|H]; [|now apply IH].
  apply String.eqb_neq in E. contradiction.
Qed.

(** A name that some line declares has a group. *)
Lemma declared_has_group document i text nm :
  nth_error document i = Some text ->
  declares text = Some nm ->
  exists g, mapGet (groups (parseDocument document)) nm = Some g.
Proof.
  intros Hnth Hd. apply In_mapKeys_mapGet.
  cbn [parseDocument groups]. rewrite mapKeys_parseLines.
  cbn [initialState st_groups mapKeys List.map app].
  rewrite CountFacts.filter_all by reflexivity.
  apply In_firstOccurrences. unfold ParserSpec.declaredNames.
  apply in_flat_map. exists text. split; [eapply nth_error_In; eauto|].
  unfold declares in Hd. rewrite Hd. now left.
Qed.

(** [findGroupForLine] on the groups of a parsed document. *)
Lemma findGroupForLine_parsed document lineNumber :
  match findGroupForLine (parseDocument document) lineNumber with
  | None =>
      forall k g, In (k, g) (groups (parseDocument document)) ->
                  lineNumber < line g
  | Some r =>
      (exists k, In (k, r) (groups (parseDocument document)))
      /\ line r <= lineNumber
      /\ forall k g, In (k, g) (groups (parseDocument document)) ->
                     line g <= lineNumber -> line g <= line r
  end.
Proof.
  unfold findGroupForLine.
  pose proof (findGroupLoop_spec lineNumber
                (groups (parseDocument document)) None) as H.
  destruct (findGroupLoop _ lineNumber None) as [r|].
  - destruct H as (Hr & Hin & _ & Hall); [discriminate|].
    destruct Hin as [Hin|Hin]; [discriminate|].
    split; [|split; [exact Hr|]].
    + apply in_map_iff in Hin. destruct Hin as ([k g] & E & Hin).
      cbn in E. subst g. eauto.
    + intros k g Hin'. rewrite Forall_forall in Hall.
      apply (Hall (k, g) Hin').
  - destruct H as (_ & Hall); [discriminate|].
    intros k g Hin. rewrite Forall_forall in Hall. apply (Hall (k, g) Hin).
Qed.

(** The group that owns a line: the group of the last declaration at or
    before it. *)
Lemma findGroupForLine_last_declaration document lineNumber i decl nm :
  nth_error document i = Some decl ->
  declares decl = Some nm ->
  i <= lineNumber ->
  (forall j text, i < j -> j <= lineNumber ->
                  nth_error document j = Some text ->
                  declares text = None) ->
  (forall j text, lineNumber < j -> nth_error document j = Some text ->
                  declares text <> Some nm) ->
  exists g,
    findGroupForLine (parseDocument document) lineNumber = Some g
    /\ mapGet (groups (parseDocument document)) nm = Some g
    /\ line g = i /\ name g = nm.
Proof.
  intros Hnth Hd Hle Hbetween Hafter.
  destruct (declared_has_group _ _ _ _ Hnth Hd) as [g0 Hg0].
  destruct (group_invariant_of _ _ _ Hg0)
    as (Hn0 & (t0 & Ht0 & Hd0) & Hlast0 & _).
  assert (Hline0 : line g0 = i).
  { destruct (Nat.lt_trichotomy (line g0) i) as [H|[H|H]]; [|exact H|].
    - exfalso. exact (Hlast0 i decl H Hnth Hd).
    - exfalso. destruct (Nat.le_gt_cases (line g0) lineNumber) as [H1|H1].
      + pose proof (Hbetween _ _ H H1 Ht0) as E. congruence.
      + exact (Hafter _ _ H1 Ht0 Hd0). }
  pose proof (findGroupForLine_parsed document lineNumber) as Hf.
  destruct (findGroupForLine (parseDocument document) lineNumber) as [r|].
  - destruct Hf as ((kr & Hin) & Hr & Hmax).
    exists r. split; [reflexivity|].
    destruct (parseDocument_invariant document) as [Hall Hnd].
    pose proof (proj1 (Forall_forall _ _) Hall _ Hin)
      as (Hnr & (tr & Htr & Hdr) & _ & _).
    assert (Hge : i <= line r).
    { rewrite <- Hline0. apply (Hmax nm g0); [|lia].
      now apply mapGet_In_entry. }
    assert (Hline : line r = i).
    { destruct (Nat.eq_dec (line r) i) as [E|E]; [exact E|].
      assert (Hlt : i < line r) by lia.
      pose proof (Hbetween _ _ Hlt Hr Htr) as E'. congruence. }
    assert (Hk : kr = nm) by (rewrite Hline in Htr; congruence).
    rewrite Hk in Hin, Hnr.
    split; [apply In_mapGet; [exact Hnd | exact Hin]|].
    split; [exact Hline | exact Hnr].
  - exfalso. specialize (Hf nm g0).
    apply mapGet_In_entry in Hg0. specialize (Hf Hg0). lia.
Qed.

End PositionFacts.

Module NoGroupFacts.
Import Text Js Extension SegmentSpec MapFacts ParserFacts VersionFacts.
Import StepFacts.

(** Outside any group nothing is recorded. *)
Lemma parseLines_outside lines : forall i st,
  Forall (fun l => declares l = None) lines ->
  st_current st = None ->
  parseLines lines i st = st.
Proof.
  induction lines as [|l lines IH]; intros i st Hl Hc; [reflexivity|].
  inversion Hl as [|? ? Hd Hrest]; subst. cbn [parseLines].
  assert (E : parseLine st i l = st).
  { destruct st as [gs cur ver]. cbn in Hc. subst cur.
    pose proof (st_groups_row {| st_groups := gs; st_current := None;
                                 st_version := ver |} i l Hd) as Hg.
    pose proof (st_current_parseLine
                  {| st_groups := gs; st_current := None;
                     st_version := ver |} i l) as Hcur.
    pose proof (st_version_parseLine
                  {| st_groups := gs; st_current := None;
                     st_version := ver |} i l) as Hv.
    rewrite Hd in Hcur. cbn in Hg, Hcur, Hv.
    unfold ParserSpec.alignedVersion, currentGroup in Hv. cbn in Hv.
    destruct (parseLine _ i l) as [gs' cur' ver']. cbn in *. congruence. }
  rewrite E. now apply IH.
Qed.

End NoGroupFacts.

(* ------------------------------------------------------------------ *)
(** * Quoted fields and cell spans *)

Module QuoteFacts.
Import Text Js Extension TableViewProvider.

Lemma countQuotes_app a b :
  countQuotes (a ++ b)%string = countQuotes a + countQuotes b.
Proof. induction a as [|c a IH]; cbn; [reflexivity | rewrite IH; lia]. Qed.

(** The fields read from a text: half the quotes make fields, and no field
    holds a quote.  Stated for the scan between fields and inside one. *)
Lemma extractFrom_count text :
  (List.length (extractFrom text None) = Nat.div2 (countQuotes text)
   /\ Forall (fun f => countQuotes f = 0) (extractFrom text None))
  /\ (forall acc,
         countQuotes acc = 0 ->
         List.length (extractFrom text (Some acc))
         = Nat.div2 (S (countQuotes text))
         /\ Forall (fun f => countQuotes f = 0)
              (extractFrom text (Some acc))).
Proof.
  induction text as [|c text [[IHo1 IHo2] IHi]]; cbn [extractFrom countQuotes].
  - repeat split; auto.
  - split.
    + destruct (isQuote c) eqn:Q; cbn [Nat.add].
      * destruct (IHi EmptyString eq_refl) as [L F]. split; [exact L | exact F].
      * split; assumption.
    + intros acc Hacc. destruct (isQuote c) eqn:Q; cbn [Nat.add].
      * cbn [List.length]. rewrite IHo1. split; [reflexivity|].
        constructor; assumption.
      * apply IHi. rewrite countQuotes_app. cbn. rewrite Q. lia.
Qed.

(** The inner loop of [getCellRange] on the content of the target field:
    it stops at the closing quote. *)
Lemma cellLoop_closed (target : Z) (post content : string) : forall i cs,
  countQuotes content = 0 ->
  cellLoop (content ++ String DQ post)%string i target target (Some cs)
  = Some (cs, i + String.length content).
Proof.
  induction content as [|c content IH]; intros i cs H0.
  - cbn [append cellLoop String.length]. change (isQuote DQ) with true.
    cbn iota. rewrite Z.eqb_refl, Nat.add_0_r. reflexivity.
  - cbn [countQuotes] in H0. cbn [append cellLoop String.length].
    destruct (isQuote c); [lia|].
    rewrite IH by lia. f_equal. f_equal. lia.
Qed.

(** A field that is closed is read whole. *)
Lemma extractFrom_closed (post content : string) : forall acc,
  countQuotes content = 0 ->
  extractFrom (content ++ String DQ post)%string (Some acc)
  = (acc ++ content)%string :: extractFrom post None.
Proof.
  induction content as [|c content IH]; intros acc H0.
  - cbn [append extractFrom]. change (isQuote DQ) with true. cbn iota.
    now rewrite EditFacts.string_app_nil_r.
  - cbn [countQuotes] in H0. cbn [append extractFrom].
    destruct (isQuote c); [lia|].
    rewrite IH by lia. rewrite EditFacts.string_app_assoc. reflexivity.
Qed.

(** When [getCellRange] finds a span.  [d] is the number of fields still to
    pass before the target. *)
Lemma cellLoop_some (target : Z) text :
  (forall i f d,
      (f + Z.of_nat d = target)%Z ->
      (cellLoop text i f target None <> None
       <-> 2 * d + 1 <= countQuotes text))
  /\ (forall i f d cs,
         (f + Z.of_nat d = target)%Z ->
         (cellLoop text i f target (Some cs) <> None
          <-> 2 * d <= countQuotes text)).
Proof.
  induction text as [|c text [IHo IHi]]; split.
  - intros i f d Hd. cbn. split; [congruence | lia].
  - intros i f d cs Hd. cbn.
    destruct (f =? target)%Z eqn:E.
    + apply Z.eqb_eq in E. split; [lia | discriminate].
    + apply Z.eqb_neq in E. split; [congruence | lia].
  - intros i f d Hd. cbn [cellLoop countQuotes].
    replace (f <=? target)%Z with true by (symmetry; apply Z.leb_le; lia).
    destruct (isQuote c).
    + rewrite (IHi (S i) f d (S i) Hd). lia.
    + rewrite (IHo (S i) f d Hd). lia.
  - intros i f d cs Hd. cbn [cellLoop countQuotes].
    destruct (isQuote c).
    + destruct d as [|d].
      * replace (f =? target)%Z with true
          by (symmetry; apply Z.eqb_eq; lia).
        split; [lia | discriminate].
      * replace (f =? target)%Z with false
          by (symmetry; apply Z.eqb_neq; lia).
        rewrite (IHo (S i) (f + 1)%Z d) by lia. lia.
    + rewrite (IHi (S i) f d cs Hd). lia.
Qed.

Lemma cellLoop_negative (target : Z) text : forall i,
  (target < 0)%Z -> cellLoop text i 0 target None = None.
Proof.
  intros i H. destruct text; cbn; [reflexivity|].
  replace (0 <=? target)%Z with false by (symmetry; apply Z.leb_gt; lia).
  reflexivity.
Qed.

(** A span found by [getCellRange] lies within the text, after at least one
    character. *)
Lemma cellLoop_bounds (target : Z) text :
  (forall i f s e,
      cellLoop text i f target None = Some (s, e) ->
      i < s /\ s <= e /\ e <= i + String.length text)
  /\ (forall i f cs s e,
         cs <= i ->
         cellLoop text i f target (Some cs) = Some (s, e) ->
         (s = cs \/ i < s) /\ s <= e /\ e <= i + String.length text).
Proof.
  induction text as [|c text [IHo IHi]]; split.
  - intros i f s e H. discriminate.
  - intros i f cs s e Hcs H. cbn in H.
    destruct (f =? target)%Z; [|discriminate].
    injection H as <- <-. cbn. lia.
  - intros i f s e H. cbn [cellLoop String.length] in *.
    destruct (f <=? target)%Z; [|discriminate].
    destruct (isQuote c).
    + apply IHi in H; [|lia]. lia.
    + apply IHo in H. lia.
  - intros i f cs s e Hcs H. cbn [cellLoop String.length] in *.
    destruct (isQuote c).
    + destruct (f =? target)%Z.
      * injection H as <- <-. lia.
      * apply IHo in H. lia.
    + apply IHi in H; [|lia]. lia.
Qed.

End QuoteFacts.

(* ------------------------------------------------------------------ *)
(** * The table view: resolution of lines, edits, selection *)

Module ResolveFacts.
Import Text Js Extension TableViewProvider ViewSpec ProviderSpec.

(** What the scan of [getLineNumber] records: a unit line and a type line
    that hold the keyword, and data lines that hold DATA. *)
Lemma scanRows_sound ls : forall i gl u t ds u' t' ds',
  scanRows ls i gl u t ds = (u', t', ds') ->
  (u' = u \/ exists j text, u' = Z.of_nat (i + j)
                            /\ nth_error ls j = Some text
                            /\ matchKeyword "UNIT" text = true)
  /\ (t' = t \/ exists j text, t' = Z.of_nat (i + j)
                               /\ nth_error ls j = Some text
                               /\ matchKeyword "TYPE" text = true)
  /\ exists new,
       ds' = ds ++ new
       /\ Forall (fun n => exists j text,
                      n = i + j /\ nth_error ls j = Some text
                      /\ matchKeyword "DATA" text = true) new.
Proof.
  induction ls as [|l ls IH]; intros i gl u t ds u' t' ds' H;
    cbn [scanRows] in H.
  - injection H as <- <- <-. repeat split; auto.
    exists []. split; [now rewrite app_nil_r | constructor].
  - assert (Hshift : forall (P : string -> Prop) n,
               (exists j text, n = S i + j /\ nth_error ls j = Some text
                               /\ P text) ->
               exists j text, n = i + j /\ nth_error (l :: ls) j = Some text
                              /\ P text).
    { intros P n (j & text & -> & Hn & HP). exists (S j), text.
      repeat split; [lia | exact Hn | exact HP]. }
    assert (HshiftZ : forall (P : string -> Prop) z,
               (exists j text, z = Z.of_nat (S i + j)
                               /\ nth_error ls j = Some text /\ P text) ->
               exists j text, z = Z.of_nat (i + j)
                              /\ nth_error (l :: ls) j = Some text
                              /\ P text).
    { intros P z (j & text & -> & Hn & HP). exists (S j), text.
      repeat split; [f_equal; lia | exact Hn | exact HP]. }
    assert (Hall : forall new,
               Forall (fun n => exists j text,
                           n = S i + j /\ nth_error ls j = Some text
                           /\ matchKeyword "DATA" text = true) new ->
               Forall (fun n => exists j text,
                           n = i + j /\ nth_error (l :: ls) j = Some text
                           /\ matchKeyword "DATA" text = true) new).
    { intros new Hn. eapply Forall_impl; [|exact Hn].
      intros n. apply (Hshift (fun text => matchKeyword "DATA" text = true)). }
    destruct (matchKeyword "UNIT" l && (u <? 0)%Z) eqn:EU.
    { apply andb_true_iff in EU. destruct EU as [EU _].
      apply IH in H. destruct H as (Hu & Ht & new & -> & Hn).
      split; [|split].
      - right. destruct Hu as [->|Hu].
        + exists 0, l. rewrite Nat.add_0_r. auto.
        + now apply HshiftZ.
      - destruct Ht as [->|Ht]; [now left | right; now apply HshiftZ].
      - exists new. split; [reflexivity | now apply Hall]. }
    destruct (matchKeyword "TYPE" l && (t <? 0)%Z) eqn:ET.
    { apply andb_true_iff in ET. destruct ET as [ET _].
      apply IH in H. destruct H as (Hu & Ht & new & -> & Hn).
      split; [|split].
      - destruct Hu as [->|Hu]; [now left | right; now apply HshiftZ].
      - right. destruct Ht as [->|Ht].
        + exists 0, l. rewrite Nat.add_0_r. auto.
        + now apply HshiftZ.
      - exists new. split; [reflexivity | now apply Hall]. }
    destruct (matchKeyword "DATA" l) eqn:ED.
    { apply IH in H. destruct H as (Hu & Ht & new & -> & Hn).
      split; [|split].
      - destruct Hu as [->|Hu]; [now left | right; now apply HshiftZ].
      - destruct Ht as [->|Ht]; [now left | right; now apply HshiftZ].
      - exists (i :: new). split; [now rewrite <- app_assoc|].
        constructor; [|now apply Hall].
        exists 0, l. rewrite Nat.add_0_r. auto. }
    destruct (matchKeyword "GROUP" l && (gl <? i)).
    { injection H as <- <- <-. repeat split; auto.
      exists []. split; [now rewrite app_nil_r | constructor]. }
    apply IH in H. destruct H as (Hu & Ht & new & -> & Hn).
    split; [|split].
    + destruct Hu as [->|Hu]; [now left | right; now apply HshiftZ].
    + destruct Ht as [->|Ht]; [now left | right; now apply HshiftZ].
    + exists new. split; [reflexivity | now apply Hall].
Qed.

Lemma nth_error_window {A} (doc : list A) s w j x :
  nth_error (firstn w (skipn s doc)) j = Some x ->
  nth_error doc (s + j) = Some x /\ j < w.
Proof.
  intros H.
  assert (Hj : j < w).
  { assert (j < List.length (firstn w (skipn s doc)))
      by (apply nth_error_Some; congruence).
    rewrite length_firstn in H0. lia. }
  split; [|exact Hj].
  rewrite nth_error_firstn in H.
  replace (j <? w) with true in H by (symmetry; now apply Nat.ltb_lt).
  now rewrite nth_error_skipn in H.
Qed.

(** A line resolved by [getLineNumber] lies in the window of the scan and
    starts with the keyword of the row type. *)
Lemma getLineNumber_sound document group rowType rowIndex :
  (0 <= getLineNumber document group rowType rowIndex)%Z ->
  exists n text,
    getLineNumber document group rowType rowIndex = Z.of_nat n
    /\ line group <= n < line group + (dataCount group + 10)
    /\ nth_error document n = Some text
    /\ matchKeyword (keywordOf rowType) text = true.
Proof.
  unfold getLineNumber, scanGroup.
  destruct (scanRows _ (line group) (line group) (-1) (-1) [])
    as [[u t] ds] eqn:E.
  apply scanRows_sound in E. destruct E as (Hu & Ht & new & Hds & Hnew).
  cbn [app] in Hds. subst ds.
  assert (Hwin : forall z kw,
             (exists j text, z = Z.of_nat (line group + j)
                /\ nth_error (firstn (dataCount group + 10)
                                (skipn (line group) document)) j = Some text
                /\ matchKeyword kw text = true) ->
             exists n text, z = Z.of_nat n
                /\ line group <= n < line group + (dataCount group + 10)
                /\ nth_error document n = Some text
                /\ matchKeyword kw text = true).
  { intros z kw (j & text & -> & Hn & Hk).
    apply nth_error_window in Hn. destruct Hn as [Hn Hj].
    exists (line group + j), text. repeat split; auto; lia. }
  destruct rowType; cbn [keywordOf]; intros Hpos.
  - destruct Hu as [->|Hu]; [lia | now apply Hwin].
  - destruct Ht as [->|Ht]; [lia | now apply Hwin].
  - destruct (index new rowIndex) as [n|] eqn:En; [|lia].
    unfold index in En. destruct (rowIndex <? 0)%Z; [discriminate|].
    apply nth_error_In in En. rewrite Forall_forall in Hnew.
    destruct (Hnew n En) as (j & text & -> & Hn & Hk).
    apply Hwin. eauto.
Qed.

Lemma splitLines_noLineBreak s : forall cur,
  noLineBreak s = true -> splitLines s cur = [(cur ++ s)%string].
Proof.
  induction s as [|c s IH]; intros cur H; cbn [splitLines noLineBreak] in *.
  - now rewrite EditFacts.string_app_nil_r.
  - apply andb_true_iff in H. destruct H as [H Hs].
    apply andb_true_iff in H. destruct H as [H1 H2].
    apply negb_true_iff in H1, H2. rewrite H1, H2.
    rewrite IH by exact Hs. rewrite EditFacts.string_app_assoc. reflexivity.
Qed.

Lemma noLineBreak_app a b :
  noLineBreak (a ++ b)%string = noLineBreak a && noLineBreak b.
Proof.
  induction a as [|c a IH]; cbn; [reflexivity|].
  rewrite IH. now rewrite andb_assoc.
Qed.

Lemma noLineBreak_substring s : forall n m,
  noLineBreak s = true -> noLineBreak (substring n m s) = true.
Proof.
  induction s as [|c s IH]; intros n m H.
  - destruct n, m; reflexivity.
  - cbn [noLineBreak] in H. apply andb_true_iff in H. destruct H as [Hc Hs].
    destruct n as [|n].
    + destruct m as [|m]; [reflexivity|]. cbn [substring noLineBreak].
      rewrite Hc. now apply IH.
    + cbn [substring]. now apply IH.
Qed.

End ResolveFacts.

Module SelectionFacts.
Import Text Js Extension TableViewProvider ViewSpec ProviderSpec.
Import ProviderCommands.

Lemma firstKey_mapGet {V} (m : Map V) k :
  firstKey m = Some k -> exists v, mapGet m k = Some v.
Proof.
  destruct m as [|[k' v] m]; cbn; [discriminate|].
  intros H. injection H as ->. rewrite String.eqb_refl. eauto.
Qed.

Lemma firstKey_none {V} (m : Map V) : firstKey m = None -> m = [].
Proof. destruct m as [|[k v] m]; [reflexivity | discriminate]. Qed.

(** After [updateContent] with a panel and a document the view is
    consistent, and a valid active group is kept. *)
Lemma updateContent_consistent p doc :
  panel p = true ->
  currentDocument p = Some doc ->
  viewConsistent doc (updateContent p)
  /\ panel (updateContent p) = true
  /\ currentDocument (updateContent p) = Some doc
  /\ (forall g group,
         currentGroup p = Some g ->
         mapGet (groups (parseDocument (lineTexts doc))) g = Some group ->
         currentGroup (updateContent p) = Some g
         /\ html (updateContent p) = GroupHtml group).
Proof.
  intros Hpanel Hdoc.
  set (gs := groups (parseDocument (lineTexts doc))).
  assert (Hcases :
            (exists g group,
                currentGroup p = Some g /\ mapGet gs g = Some group
                /\ updateContent p = withHtml p (GroupHtml group))
            \/ ((forall g group, currentGroup p = Some g ->
                                 mapGet gs g = Some group -> False)
                /\ ((exists k v,
                        mapGet gs k = Some v
                        /\ updateContent p
                           = withHtml (withGroup p (Some k)) (GroupHtml v))
                    \/ (gs = []
                        /\ updateContent p
                           = withHtml (withGroup p None) EmptyHtml)))).
  { unfold updateContent. rewrite Hpanel, Hdoc. cbn [negb]. fold gs.
    assert (Hfirst :
              (exists k v, firstKey gs = Some k /\ mapGet gs k = Some v
                           /\ truthy (Some k) = true)
              \/ (firstKey gs = None /\ gs = [])).
    { destruct (firstKey gs) as [k|] eqn:Hk.
      - left. destruct (firstKey_mapGet _ _ Hk) as [v Hv].
        exists k, v. repeat split; auto.
        eapply ShapeFacts.group_key_truthy. exact Hv.
      - right. split; [reflexivity | now apply firstKey_none]. }
    assert (Hinvalid :
              (exists k v,
                  mapGet gs k = Some v
                  /\ (let p1 := withGroup p (firstKey gs) in
                      match currentGroup p1 with
                      | Some g =>
                          if truthy (Some g)
                          then match mapGet gs g with
                               | Some group => withHtml p1 (GroupHtml group)
                               | None => p1
                               end
                          else withHtml p1 EmptyHtml
                      | None => withHtml p1 EmptyHtml
                      end)
                     = withHtml (withGroup p (Some k)) (GroupHtml v))
              \/ (gs = []
                  /\ (let p1 := withGroup p (firstKey gs) in
                      match currentGroup p1 with
                      | Some g =>
                          if truthy (Some g)
                          then match mapGet gs g with
                               | Some group => withHtml p1 (GroupHtml group)
                               | None => p1
                               end
                          else withHtml p1 EmptyHtml
                      | None => withHtml p1 EmptyHtml
                      end)
                     = withHtml (withGroup p None) EmptyHtml)).
    { destruct Hfirst as [(k & v & Hk & Hv & Ht) | (Hk & Hnil)].
      - left. exists k, v. split; [exact Hv|].
        rewrite Hk. cbn [withGroup currentGroup]. rewrite Ht, Hv.
        reflexivity.
      - right. split; [exact Hnil|]. rewrite Hk. reflexivity. }
    destruct (currentGroup p) as [g|] eqn:Hg.
    - unfold mapHas. destruct (mapGet gs g) as [group|] eqn:Hget.
      + left. exists g, group. repeat split; auto.
        rewrite (ShapeFacts.group_key_truthy _ _ _ Hget). cbn [andb].
        rewrite Hg, (ShapeFacts.group_key_truthy _ _ _ Hget), Hget.
        reflexivity.
      + right. split; [intros g' group' E H'; congruence|].
        rewrite andb_false_r. exact Hinvalid.
    - right. split; [discriminate | exact Hinvalid]. }
  unfold viewConsistent. fold gs.
  destruct Hcases as [(g & group & Hg & Hget & ->)
                     | (Hno & [(k & v & Hv & ->) | (Hnil & ->)])];
    cbn [withHtml withGroup currentGroup html panel currentDocument].
  - split; [right; eauto|]. split; [exact Hpanel|]. split; [exact Hdoc|].
    intros g' group' E H'. rewrite Hg in E. injection E as <-.
    rewrite Hget in H'. injection H' as <-. auto.
  - split; [right; eauto|]. split; [exact Hpanel|]. split; [exact Hdoc|].
    intros g' group' E H'. exfalso. eapply Hno; eauto.
  - split; [left; auto|]. split; [exact Hpanel|]. split; [exact Hdoc|].
    intros g' group' E H'. exfalso. eapply Hno; eauto.
Qed.

(** The group found for a line is stored under its name. *)
Lemma findGroupForLine_stored document n group :
  findGroupForLine (parseDocument document) n = Some group ->
  mapGet (groups (parseDocument document)) (name group) = Some group.
Proof.
  intros H. pose proof (PositionFacts.findGroupForLine_parsed document n) as S.
  rewrite H in S. destruct S as ((k & Hin) & _ & _).
  destruct (InvariantFacts.parseDocument_invariant document) as [Hall Hnd].
  pose proof (proj1 (Forall_forall _ _) Hall _ Hin) as (Hn & _).
  rewrite Hn. now apply InvariantFacts.In_mapGet.
Qed.

End SelectionFacts.

Module EditEffectFacts.
Import Text Js Extension TableViewProvider ViewSpec ProviderSpec.
Import ResolveFacts.

(** What a cell edit does to the provider: nothing, or one replacement
    within a resolved line. *)
Lemma handleCellEdit_effect p message :
  handleCellEdit p message = p
  \/ exists doc n text range,
       currentDocument p = Some doc
       /\ nth_error (lineTexts doc) n = Some text
       /\ matchKeyword (keywordOf (ce_rowType message)) text = true
       /\ getCellRange text n (ce_colIndex message) = Some range
       /\ handleCellEdit p message
          = withDocument p
              {| uri := uri doc;
                 lineTexts :=
                   firstn n (lineTexts doc)
                     ++ splitLines
                          (substring 0 (r_startCharacter range) text
                             ++ ce_newValue message
                             ++ substring (r_endCharacter range)
                                  (String.length text
                                   - r_endCharacter range) text)%string
                          EmptyString
                     ++ skipn (S n) (lineTexts doc) |}.
Proof.
  unfold handleCellEdit.
  destruct (currentDocument p) as [doc|] eqn:Hdoc; [|now left].
  destruct (currentGroup p) as [g|]; [|now left].
  destruct (truthy (Some g)); [|now left].
  destruct (mapGet _ g) as [group|]; [|now left].
  destruct (getLineNumber (lineTexts doc) group (ce_rowType message)
              (ce_rowIndex message) <? 0)%Z eqn:Hneg; [now left|].
  apply Z.ltb_ge in Hneg.
  destruct (getLineNumber_sound _ _ _ _ Hneg)
    as (n & text & Hn & _ & Hnth & Hkw).
  rewrite Hn, Nat2Z.id, Hnth.
  destruct (getCellRange text n (ce_colIndex message)) as [range|] eqn:Hr;
    [|now left].
  right. exists doc, n, text, range. repeat split; auto.
  unfold applyReplace.
  assert (Hline : r_startLine range = n).
  { unfold getCellRange in Hr.
    destruct (cellLoop _ _ _ _ _) as [[s e]|]; [|discriminate].
    injection Hr as <-. reflexivity. }
  rewrite Hline, Hnth. reflexivity.
Qed.

End EditEffectFacts.

Module HighlightFacts.
Import Text Js Extension TableViewProvider ViewSpec ProviderSpec.





End HighlightFacts.

(* ------------------------------------------------------------------ *)
(** * Escaping *)

Module EscapeFacts.
Import Text Js ProviderCommands ProviderSpec.

Lemma replaceChar_app c by_ a b :
  replaceChar c by_ (a ++ b)%string
  = (replaceChar c by_ a ++ replaceChar c by_ b)%string.
Proof.
  induction a as [|x a IH]; cbn [append replaceChar]; [reflexivity|].
  destruct (Ascii.eqb x c); rewrite IH; [|reflexivity].
  now rewrite EditFacts.string_app_assoc.
Qed.

(** The five passes amount to one pass that replaces each character on its
    own: no replacement text holds a character that a later pass
    replaces. *)
Lemma escapeHtml_escapeAll s : escapeHtml (Some s) = escapeAll s.
Proof.
  unfold escapeHtml. induction s as [|x s IH]; [reflexivity|].
  cbn [escapeAll]. rewrite <- IH. unfold escapeChar.
  destruct (Ascii.eqb x "&") eqn:E1.
  { apply Ascii.eqb_eq in E1. subst x. cbn. reflexivity. }
  destruct (Ascii.eqb x "<") eqn:E2.
  { apply Ascii.eqb_eq in E2. subst x. cbn. reflexivity. }
  destruct (Ascii.eqb x ">") eqn:E3.
  { apply Ascii.eqb_eq in E3. subst x. cbn. reflexivity. }
  destruct (Ascii.eqb x DQ) eqn:E4.
  { apply Ascii.eqb_eq in E4. subst x. cbn. reflexivity. }
  destruct (Ascii.eqb x "'") eqn:E5.
  { apply Ascii.eqb_eq in E5. subst x. cbn. reflexivity. }
  cbn [replaceChar append]. rewrite E1. cbn [replaceChar]. rewrite E2.
  cbn [replaceChar]. rewrite E3. cbn [replaceChar]. rewrite E4.
  cbn [replaceChar]. rewrite E5. reflexivity.
Qed.

Lemma hasMarkup_app a b :
  hasMarkup (a ++ b)%string = hasMarkup a || hasMarkup b.
Proof.
  induction a as [|x a IH]; cbn; [reflexivity|].
  rewrite IH. now rewrite orb_assoc.
Qed.

Lemma hasMarkup_escapeChar c : hasMarkup (escapeChar c) = false.
Proof.
  unfold escapeChar.
  destruct (Ascii.eqb c "&"); [reflexivity|].
  destruct (Ascii.eqb c "<") eqn:E2; [reflexivity|].
  destruct (Ascii.eqb c ">") eqn:E3; [reflexivity|].
  destruct (Ascii.eqb c DQ) eqn:E4; [reflexivity|].
  destruct (Ascii.eqb c "'") eqn:E5; [reflexivity|].
  cbn. unfold isMarkup. now rewrite E2, E3, E4, E5.
Qed.

Lemma hasMarkup_escapeAll s : hasMarkup (escapeAll s) = false.
Proof.
  induction s as [|c s IH]; [reflexivity|].
  cbn [escapeAll]. now rewrite hasMarkup_app, hasMarkup_escapeChar, IH.
Qed.

Lemma escapeAll_injective a : forall b,
  escapeAll a = escapeAll b -> a = b.
Proof.
  induction a as [|x a IH]; intros [|y b] H; cbn [escapeAll] in H.
  - reflexivity.
  - exfalso. unfold escapeChar in H.
    repeat match type of H with
           | context [if ?t then _ else _] => destruct t
           end; discriminate.
  - exfalso. unfold escapeChar in H.
    repeat match type of H with
           | context [if ?t then _ else _] => destruct t
           end; discriminate.
  - unfold escapeChar in H.
    destruct (Ascii.eqb x "&") eqn:X1;
      [|destruct (Ascii.eqb x "<") eqn:X2;
        [|destruct (Ascii.eqb x ">") eqn:X3;
          [|destruct (Ascii.eqb x DQ) eqn:X4;
            [|destruct (Ascii.eqb x "'") eqn:X5]]]];
      (destruct (Ascii.eqb y "&") eqn:Y1;
       [|destruct (Ascii.eqb y "<") eqn:Y2;
         [|destruct (Ascii.eqb y ">") eqn:Y3;
           [|destruct (Ascii.eqb y DQ) eqn:Y4;
             [|destruct (Ascii.eqb y "'") eqn:Y5]]]]);
      cbn in H; try discriminate;
      repeat match goal with
             | E : Ascii.eqb _ _ = true |- _ => apply Ascii.eqb_eq in E
             end;
      subst;
      try (injection H as H; f_equal; now apply IH);
      try (injection H as Hc H; subst;
           first [ discriminate
                 | rewrite ?Ascii.eqb_refl in *; discriminate
                 | f_equal; now apply IH ]).
Qed.

End EscapeFacts.

(* ------------------------------------------------------------------ *)
(** * Folding ranges and document symbols *)

Module FoldingFacts.
Import Text Js Extension SegmentSpec LanguageProviders.
Import InvariantFacts.

Lemma ascending_le x y : (ascending x y <=? 0)%Z = (x <=? y).
Proof.
  unfold ascending. destruct (x <=? y) eqn:E.
  - apply Nat.leb_le in E. apply Z.leb_le. lia.
  - apply Nat.leb_gt in E. apply Z.leb_gt. lia.
Qed.

Lemma sortInsert_ascending_perm x l :
  Permutation (x :: l) (sortInsert ascending x l).
Proof.
  induction l as [|y l IH]; cbn [sortInsert]; [reflexivity|].
  destruct (_ <=? _)%Z; [reflexivity|].
  rewrite perm_swap. now constructor.
Qed.

Lemma arraySort_ascending_perm l :
  Permutation l (arraySort ascending l).
Proof.
  induction l as [|x l IH]; cbn [arraySort fold_right]; [constructor|].
  etransitivity; [|apply sortInsert_ascending_perm]. now constructor.
Qed.

Lemma sortInsert_ascending_sorted x l :
  StronglySorted le l -> StronglySorted le (sortInsert ascending x l).
Proof.
  induction 1 as [|y l Hs IH Hy]; cbn [sortInsert].
  - repeat constructor.
  - rewrite ascending_le. destruct (x <=? y) eqn:E.
    + apply Nat.leb_le in E.
      constructor; [constructor; assumption|].
      constructor; [exact E|].
      eapply Forall_impl; [|exact Hy]. intros; lia.
    + apply Nat.leb_gt in E.
      constructor; [exact IH|].
      eapply Permutation_Forall; [apply sortInsert_ascending_perm|].
      constructor; [lia | exact Hy].
Qed.

Lemma arraySort_ascending_sorted l :
  StronglySorted le (arraySort ascending l).
Proof.
  induction l as [|x l IH]; cbn [arraySort fold_right]; [constructor|].
  apply sortInsert_ascending_sorted. exact IH.
Qed.

Lemma sorted_nodup_strict l :
  StronglySorted le l -> NoDup l -> StronglySorted lt l.
Proof.
  induction 1 as [|x l Hs IH Hx]; intros Hnd; [constructor|].
  inversion Hnd as [|? ? Hnot Hnd']; subst.
  constructor; [now apply IH|].
  rewrite Forall_forall in *. intros y Hy.
  specialize (Hx y Hy).
  destruct (Nat.eq_dec x y) as [->|Hne]; [contradiction | lia].
Qed.

(** The start lines of the groups of a parsed document are distinct. *)
Lemma NoDup_map_key {V} (f : V -> nat) (m : Map V) :
  NoDup (mapKeys m) ->
  (forall k1 v1 k2 v2, In (k1, v1) m -> In (k2, v2) m ->
                       f v1 = f v2 -> k1 = k2) ->
  NoDup (List.map (fun e => f (snd e)) m).
Proof.
  induction m as [|[k v] m IH]; intros Hnd Hinj; cbn; [constructor|].
  inversion Hnd as [|? ? Hnot Hnd']; subst.
  constructor.
  - intros Hin. apply in_map_iff in Hin.
    destruct Hin as ([k' v'] & E & Hin). cbn in E.
    assert (k' = k).
    { apply (Hinj k' v' k v); [right; exact Hin | left; reflexivity |].
      exact E. }
    subst k'. apply Hnot.
    change (In (fst (k, v')) (List.map fst m)). now apply in_map.
  - apply IH; [exact Hnd'|].
    intros k1 v1 k2 v2 H1 H2. apply Hinj; now right.
Qed.

Lemma group_lines_NoDup document :
  NoDup (List.map (fun e => line (snd e)) (groups (parseDocument document))).
Proof.
  destruct (parseDocument_invariant document) as [Hall Hnd].
  apply NoDup_map_key; [exact Hnd|].
  intros k1 g1 k2 g2 H1 H2 E.
  rewrite Forall_forall in Hall.
  pose proof (Hall _ H1) as (_ & (t1 & Ht1 & Hd1) & _).
  pose proof (Hall _ H2) as (_ & (t2 & Ht2 & Hd2) & _).
  rewrite E in Ht1. congruence.
Qed.

(** The line the folding of a group ends on. *)
Lemma lastNonEmpty_spec document s : forall above,
  s + above < List.length document ->
  let r := lastNonEmpty document s above in
  s <= r <= s + above
  /\ (s < r -> exists text, nth_error document r = Some text
                            /\ isEmpty (trim text) = false)
  /\ (forall j text, r < j <= s + above ->
                     nth_error document j = Some text ->
                     isEmpty (trim text) = true).
Proof.
  induction above as [|n IH]; intros Hlen; cbn [lastNonEmpty].
  - cbv zeta. repeat split; try lia.
  - destruct (nth_error document (s + S n)) as [text|] eqn:Hn.
    + destruct (isEmpty (trim text)) eqn:Hb.
      * destruct IH as (Hr & Hne & Hblank); [lia|].
        cbv zeta. split; [lia|]. split; [exact Hne|].
        intros j t Hj Hjn.
        destruct (Nat.eq_dec j (s + S n)) as [->|Hneq].
        -- congruence.
        -- apply (Hblank j t); [lia | exact Hjn].
      * cbv zeta. split; [lia|]. split; [eauto|].
        intros j t Hj. lia.
    + apply nth_error_None in Hn. lia.
Qed.

(** The ranges over a strictly increasing list of start lines. *)
Lemma foldingRangesFrom_spec document starts :
  StronglySorted lt starts ->
  Forall (fun s => s < List.length document) starts ->
  Forall (fun r =>
            In (fr_start r) starts
            /\ fr_start r < fr_end r < List.length document
            /\ (exists text, nth_error document (fr_end r) = Some text
                             /\ isEmpty (trim text) = false)
            /\ (forall x, In x starts -> fr_start r < x -> fr_end r < x))
    (foldingRangesFrom document starts)
  /\ StronglySorted (fun r1 r2 => fr_end r1 < fr_start r2)
       (foldingRangesFrom document starts).
Proof.
  induction 1 as [|s rest Hs IH Hlt]; intros Hlen; cbn [foldingRangesFrom].
  - split; constructor.
  - inversion Hlen as [|? ? Hs_len Hrest_len]; subst.
    destruct (IH Hrest_len) as [Hall Hsorted].
    assert (Hhead : Forall (fun r =>
              fr_start r = s
              /\ fr_start r < fr_end r < List.length document
              /\ (exists text, nth_error document (fr_end r) = Some text
                               /\ isEmpty (trim text) = false)
              /\ (forall x, In x rest -> fr_end r < x))
              (foldingRangeAt document s rest)).
    { unfold foldingRangeAt.
      set (endLine := match rest with
                      | next :: _ => (Z.of_nat next - 1)%Z
                      | [] => (Z.of_nat (List.length document) - 1)%Z
                      end).
      destruct (Z.of_nat s <? endLine)%Z eqn:E; [|constructor].
      apply Z.ltb_lt in E.
      assert (Hend : (endLine < Z.of_nat (List.length document))%Z
                     /\ forall x, In x rest -> (endLine < Z.of_nat x)%Z).
      { unfold endLine. destruct rest as [|next rest'].
        - split; [lia | intros x []].
        - inversion Hrest_len; subst. split; [lia|].
          intros x [<-|Hx]; [lia|].
          inversion Hs as [|? ? _ Hnext]; subst.
          rewrite Forall_forall in Hnext. specialize (Hnext x Hx). lia. }
      destruct Hend as [Hend1 Hend2].
      pose proof (lastNonEmpty_spec document s (Z.to_nat endLine - s))
        as Hspec.
      cbv zeta in Hspec.
      destruct Hspec as (Hr & Hne & _); [lia|].
      destruct (s <? lastNonEmpty document s (Z.to_nat endLine - s)) eqn:El;
        [|constructor].
      apply Nat.ltb_lt in El.
      constructor; [|constructor]. cbn [fr_start fr_end].
      repeat split; try lia; [now apply Hne|].
      intros x Hx. specialize (Hend2 x Hx). lia. }
    split.
    + apply Forall_app. split.
      * eapply Forall_impl; [|exact Hhead].
        intros r (E & Hr & Hne & Hnext). rewrite E in *.
        split; [now left|]. split; [exact Hr|]. split; [exact Hne|].
        intros x [<-|Hx] Hsx; [lia|]. now apply Hnext.
      * eapply Forall_impl; [|exact Hall].
        intros r (Hin & Hr & Hne & Hnext).
        split; [now right|]. split; [exact Hr|]. split; [exact Hne|].
        intros x [<-|Hx] Hsx; [|now apply Hnext].
        rewrite Forall_forall in Hlt. specialize (Hlt _ Hin). lia.
    + assert (Happ : forall l1 l2,
                 StronglySorted (fun r1 r2 => fr_end r1 < fr_start r2) l2 ->
                 Forall (fun r =>
                           fr_start r = s
                           /\ fr_start r < fr_end r < List.length document
                           /\ (exists text,
                                  nth_error document (fr_end r) = Some text
                                  /\ isEmpty (trim text) = false)
                           /\ (forall x, In x rest -> fr_end r < x)) l1 ->
                 List.length l1 <= 1 ->
                 Forall (fun r => In (fr_start r) rest) l2 ->
                 StronglySorted (fun r1 r2 => fr_end r1 < fr_start r2)
                   (l1 ++ l2)).
      { intros l1 l2 H2 H1 Hone Hin2.
        destruct l1 as [|r [|r' l1]]; [exact H2| |cbn in Hone; lia].
        cbn. constructor; [exact H2|].
        inversion H1 as [|? ? (_ & _ & _ & Hnext) _]; subst.
        eapply Forall_impl; [|exact Hin2]. intros r2. apply Hnext. }
      apply Happ; [exact Hsorted | exact Hhead | |].
      * unfold foldingRangeAt.
        repeat match goal with
               | |- context [if ?b then _ else _] => destruct b
               end; cbn; lia.
      * eapply Forall_impl; [|exact Hall]. intros r (Hin & _). exact Hin.
Qed.

End FoldingFacts.

(* ------------------------------------------------------------------ *)
(** * Counts by location and by type *)

Module LocationCountFacts.
Import Text Js Extension SummarySpec.

Lemma countRecord_at k idx rbl row L k' :
  recordsAt (countRecord k idx rbl row) L k'
  = recordsAt rbl L k'
    + (if atLocation idx L row && String.eqb k k' then 1 else 0).
Proof.
  unfold countRecord, atLocation.
  destruct (index row idx) as [x|]; [|cbn; lia].
  cbn [truthy]. destruct (isEmpty x); cbn [negb andb]; [lia|].
  unfold recordsAt. rewrite DepthFacts.mapGet_mapSet.
  destruct (String.eqb x L) eqn:Ex; cbn [andb].
  - apply String.eqb_eq in Ex. subst x.
    rewrite DepthFacts.mapGet_mapSet.
    destruct (String.eqb k k') eqn:Ek.
    + apply String.eqb_eq in Ek. subst k'.
      destruct (mapGet rbl L) as [lg|]; cbn [mapGet]; [|reflexivity].
      destruct (mapGet lg k); reflexivity.
    + destruct (mapGet rbl L) as [lg|]; cbn [mapGet]; lia.
  - lia.
Qed.

Lemma countRecords_at k idx rows L k' : forall rbl,
  recordsAt (fold_left (countRecord k idx) rows rbl) L k'
  = recordsAt rbl L k'
    + (if String.eqb k k'
       then List.length (filter (atLocation idx L) rows) else 0).
Proof.
  induction rows as [|row rows IH]; intros rbl; cbn [fold_left filter].
  - destruct (String.eqb k k'); cbn; lia.
  - rewrite IH, countRecord_at.
    destruct (atLocation idx L row), (String.eqb k k');
      cbn [andb List.length]; lia.
Qed.

Lemma countGroup_at dictGroups acc k g L k' :
  recordsAt (c_recordsByLocation (countGroup dictGroups acc (k, g))) L k'
  = recordsAt (c_recordsByLocation acc) L k'
    + (if String.eqb k k' then recordCount g L else 0).
Proof.
  unfold countGroup, recordCount. cbn [c_recordsByLocation].
  destruct (0 <=? indexOf (headings g) "LOCA_ID")%Z.
  - apply countRecords_at.
  - destruct (String.eqb k k'); lia.
Qed.

Lemma mapGet_not_key {V} (m : Map V) k :
  ~ In k (mapKeys m) -> mapGet m k = None.
Proof.
  induction m as [|[k0 v0] m IH]; intros Hnot; [reflexivity|].
  cbn [mapGet]. destruct (String.eqb k0 k) eqn:E.
  - apply String.eqb_eq in E. subst k0. exfalso. apply Hnot. now left.
  - apply IH. intros Hin. apply Hnot. now right.
Qed.

Lemma countGroups_at dictGroups gs L k' : forall acc,
  NoDup (mapKeys gs) ->
  recordsAt (c_recordsByLocation (fold_left (countGroup dictGroups) gs acc))
    L k'
  = recordsAt (c_recordsByLocation acc) L k'
    + match mapGet gs k' with
      | Some g => recordCount g L
      | None => 0
      end.
Proof.
  induction gs as [|[k g] gs IH]; intros acc Hnd.
  - cbn. lia.
  - cbn [mapKeys List.map fst] in Hnd.
    inversion Hnd as [|? ? Hnot Hnd']; subst.
    cbn [fold_left mapGet]. rewrite (IH _ Hnd'), countGroup_at.
    destruct (String.eqb k k') eqn:E.
    + apply String.eqb_eq in E. subst k'.
      rewrite (mapGet_not_key gs k Hnot). lia.
    + lia.
Qed.

Lemma countRecord_positive k idx rbl row :
  positiveCounts rbl -> positiveCounts (countRecord k idx rbl row).
Proof.
  intros H. unfold countRecord.
  destruct (index row idx) as [x|]; [|exact H].
  destruct (truthy (Some x)); [|exact H].
  intros L lg k' n. rewrite DepthFacts.mapGet_mapSet.
  destruct (String.eqb x L) eqn:Ex.
  - apply String.eqb_eq in Ex. subst x. intros E. injection E as <-.
    rewrite DepthFacts.mapGet_mapSet.
    destruct (String.eqb k k').
    + intros E. injection E as <-. lia.
    + destruct (mapGet rbl L) as [lg|] eqn:El.
      * apply (H L lg k' n El).
      * cbn. discriminate.
  - apply H.
Qed.

Lemma countGroups_positive dictGroups gs : forall acc,
  positiveCounts (c_recordsByLocation acc) ->
  positiveCounts
    (c_recordsByLocation (fold_left (countGroup dictGroups) gs acc)).
Proof.
  induction gs as [|[k g] gs IH]; intros acc H; [exact H|].
  cbn [fold_left]. apply IH. unfold countGroup. cbn [c_recordsByLocation].
  destruct (0 <=? indexOf (headings g) "LOCA_ID")%Z; [|exact H].
  generalize (c_recordsByLocation acc) H. clear.
  induction (data g) as [|row rows IHr]; intros rbl H; [exact H|].
  cbn [fold_left]. apply IHr. now apply countRecord_positive.
Qed.

(** ** Locations by type *)

Lemma aggregateType_count byType t0 range t :
  typeCount (aggregateType byType t0 range) t
  = typeCount byType t + (if String.eqb t0 t then 1 else 0).
Proof.
  unfold aggregateType, typeCount.
  destruct (mapGet byType t0) as [existing|] eqn:E0;
    rewrite DepthFacts.mapGet_mapSet;
    destruct (String.eqb t0 t) eqn:Et.
  - apply String.eqb_eq in Et. subst t0. rewrite E0.
    destruct range; cbn [lt_count]; lia.
  - lia.
  - apply String.eqb_eq in Et. subst t0. rewrite E0. reflexivity.
  - lia.
Qed.

Lemma locationRow_types ranges a b c d e acc row t :
  typeCount (snd acc) t = List.length (filter (ofType t) (fst acc)) ->
  typeCount (snd (locationRow ranges a b c d e acc row)) t
  = List.length
      (filter (ofType t) (fst (locationRow ranges a b c d e acc row))).
Proof.
  intros H. unfold locationRow.
  destruct (if (0 <=? a)%Z then index row a else Some EmptyString)
    as [i|]; [|exact H].
  destruct (truthy (Some i)); [|exact H].
  cbn [fst snd]. rewrite filter_app, length_app. cbn [filter].
  unfold ofType at 2. cbn [loc_type].
  destruct (optionalField row d) as [x|].
  - cbn [truthy]. destruct (isEmpty x); cbn [negb andb List.length].
    + lia.
    + rewrite aggregateType_count.
      destruct (String.eqb x t); cbn [List.length]; lia.
  - cbn [List.length]. lia.
Qed.

Lemma locationRows_types ranges a b c d e rows t : forall acc,
  typeCount (snd acc) t = List.length (filter (ofType t) (fst acc)) ->
  typeCount (snd (fold_left (locationRow ranges a b c d e) rows acc)) t
  = List.length
      (filter (ofType t)
         (fst (fold_left (locationRow ranges a b c d e) rows acc))).
Proof.
  induction rows as [|row rows IH]; intros acc H; [exact H|].
  cbn [fold_left]. apply IH. now apply locationRow_types.
Qed.

End LocationCountFacts.

(* ------------------------------------------------------------------ *)
(** * Lines of quoted fields *)

Module LineFacts.
Import Text Js Extension LineSpec.

Lemma joinFields_cons field rest :
  rest <> [] ->
  joinFields (field :: rest)
  = (quoted field ++ String COMMA (joinFields rest))%string.
Proof. destruct rest; [congruence | reflexivity]. Qed.

Lemma extractFrom_quoted field tail :
  countQuotes field = 0 ->
  extractFrom (quoted field ++ tail)%string None
  = field :: extractFrom tail None.
Proof.
  intros H. unfold quoted. cbn [append extractFrom].
  change (isQuote DQ) with true. cbn iota.
  rewrite EditFacts.string_app_assoc. cbn [append].
  rewrite QuoteFacts.extractFrom_closed by exact H. reflexivity.
Qed.

Lemma extractFrom_joinFields fields :
  Forall (fun field => countQuotes field = 0) fields ->
  extractFrom (joinFields fields) None = fields.
Proof.
  induction 1 as [|field rest Hf Hrest IH]; [reflexivity|].
  destruct rest as [|next rest].
  - cbn [joinFields].
    rewrite <- (EditFacts.string_app_nil_r (quoted field)).
    rewrite extractFrom_quoted by exact Hf. reflexivity.
  - rewrite joinFields_cons by discriminate.
    rewrite extractFrom_quoted by exact Hf.
    cbn [extractFrom]. change (isQuote COMMA) with false. cbn iota.
    now rewrite IH.
Qed.

(** The loop of [getColumnAtPosition] inside a quoted field. *)
Lemma columnLoop_inside field tail column : forall n,
  countQuotes field = 0 ->
  columnLoop (field ++ String DQ tail)%string n true column
  = if n <=? String.length field then column
    else columnLoop tail (n - String.length field - 1) false column.
Proof.
  induction field as [|c field IH]; intros n H.
  - cbn [append String.length]. destruct n as [|n]; [reflexivity|].
    cbn [columnLoop]. change (isQuote DQ) with true. cbn iota.
    cbn [negb Nat.leb]. f_equal. lia.
  - cbn [countQuotes] in H. cbn [append String.length].
    destruct n as [|n]; [reflexivity|].
    cbn [columnLoop]. destruct (isQuote c); [lia|].
    cbn [negb andb]. rewrite Bool.andb_false_r.
    rewrite IH by lia. cbn [Nat.leb Nat.sub].
    destruct (n <=? String.length field); reflexivity.
Qed.

Lemma columnLoop_quoted field tail column n :
  countQuotes field = 0 ->
  columnLoop (quoted field ++ tail)%string n false column
  = if n <=? String.length field + 1 then column
    else columnLoop tail (n - String.length field - 2) false column.
Proof.
  intros H. unfold quoted. cbn [append].
  rewrite EditFacts.string_app_assoc. cbn [append].
  destruct n as [|n]; [reflexivity|].
  cbn [columnLoop]. change (isQuote DQ) with true. cbn iota. cbn [negb].
  rewrite columnLoop_inside by exact H.
  replace (S n <=? String.length field + 1) with (n <=? String.length field)
    by (rewrite Nat.add_1_r; reflexivity).
  destruct (n <=? String.length field); [reflexivity|].
  f_equal. lia.
Qed.

Lemma columnLoop_end field column n :
  countQuotes field = 0 ->
  columnLoop (quoted field) n false column = column.
Proof.
  intros H.
  rewrite <- (EditFacts.string_app_nil_r (quoted field)).
  rewrite columnLoop_quoted by exact H.
  destruct (n <=? String.length field + 1); [reflexivity|].
  destruct (n - String.length field - 2); reflexivity.
Qed.

(** The column at a position from the opening quote of a field to the
    comma after it. *)
Lemma columnLoop_joinFields field after : forall before d column,
  Forall (fun f => countQuotes f = 0) (before ++ field :: after) ->
  d <= String.length field + 2 ->
  columnLoop (joinFields (before ++ field :: after))
    (fieldOffset before + d) false column
  = column + List.length before.
Proof.
  induction before as [|b before IH]; intros d column Hq Hd.
  - cbn [app fieldOffset List.length Nat.add].
    inversion Hq as [|? ? Hf Hafter]; subst.
    rewrite Nat.add_0_r.
    destruct after as [|next after].
    + cbn [joinFields]. now apply columnLoop_end.
    + rewrite joinFields_cons by discriminate.
      rewrite columnLoop_quoted by exact Hf.
      destruct (d <=? String.length field + 1) eqn:E; [reflexivity|].
      apply Nat.leb_gt in E.
      replace (d - String.length field - 2) with 0 by lia.
      reflexivity.
  - inversion Hq as [|? ? Hb Hrest]; subst.
    cbn [app]. rewrite joinFields_cons
      by (destruct before; discriminate).
    rewrite columnLoop_quoted by exact Hb.
    cbn [fieldOffset List.length].
    replace (String.length b + 3 + fieldOffset before + d
             <=? String.length b + 1) with false
      by (symmetry; apply Nat.leb_gt; lia).
    replace (String.length b + 3 + fieldOffset before + d
             - String.length b - 2)
      with (S (fieldOffset before + d)) by lia.
    cbn [columnLoop]. change (isQuote COMMA) with false.
    change (isComma COMMA) with true. cbn iota. cbn [negb andb].
    rewrite (IH d (S column) Hrest Hd). lia.
Qed.

End LineFacts.

(* ------------------------------------------------------------------ *)
(** * The rows of the parser and the lines of the table view *)

Module AgreementFacts.
Import Text Js Extension TableViewProvider SegmentSpec ResolveSpec.
Import VersionFacts.

Lemma quote_not_space c :
  Ascii.eqb (canonicalize DQ) (canonicalize c) = true ->
  isWhiteSpace c = false.
Proof.
  destruct c as [[] [] [] [] [] [] [] []]; vm_compute; congruence.
Qed.

(** A match of a pattern that ends with a quote is kept by [trimEnd]. *)
Lemma matchPrefixCI_trimEnd pat : forall s r,
  matchPrefixCI (pat ++ String DQ EmptyString)%string s = Some r ->
  exists r',
    matchPrefixCI (pat ++ String DQ EmptyString)%string (trimEnd s)
    = Some r'.
Proof.
  induction pat as [|p pat IH]; intros s r H.
  - cbn [append matchPrefixCI] in *.
    destruct s as [|c s]; [discriminate|].
    destruct (Ascii.eqb (canonicalize DQ) (canonicalize c)) eqn:E;
      [|discriminate].
    cbn [trimEnd]. rewrite (quote_not_space c E). cbn [andb].
    rewrite E. eauto.
  - cbn [append matchPrefixCI] in H.
    destruct s as [|c s]; [discriminate|].
    destruct (Ascii.eqb (canonicalize p) (canonicalize c)) eqn:E;
      [|discriminate].
    destruct (IH s r H) as [r' Hr'].
    cbn [trimEnd].
    destruct (trimEnd s) as [|c' s'] eqn:Es.
    + destruct pat; discriminate.
    + cbn [isEmpty]. rewrite Bool.andb_false_r.
      cbn [append matchPrefixCI]. rewrite E. eauto.
Qed.

(** A line that starts with a keyword still does after trimming. *)
Lemma matchKeyword_trim kw l :
  matchKeyword kw l = true -> matchKeyword kw (trim l) = true.
Proof.
  unfold matchKeyword, trim. intros H.
  destruct (matchPrefixCI (String DQ (kw ++ String DQ EmptyString)) l)
    as [r|] eqn:E; [|discriminate].
  assert (Hs : trimStart l = l).
  { destruct l as [|c l]; [reflexivity|].
    cbn [matchPrefixCI] in E.
    destruct (Ascii.eqb (canonicalize DQ) (canonicalize c)) eqn:Ec;
      [|discriminate].
    cbn [trimStart]. now rewrite (quote_not_space c Ec). }
  rewrite Hs.
  destruct (matchPrefixCI_trimEnd (String DQ kw) l r E) as [r' Hr'].
  cbn [append] in Hr'. now rewrite Hr'.
Qed.

Lemma declaration_not_data decl k :
  declares decl = Some k -> matchKeyword "DATA" decl = false.
Proof.
  intros H. destruct (matchKeyword "DATA" decl) eqn:E; [|reflexivity].
  apply matchKeyword_trim in E.
  unfold declares in H. apply matchGroup_keyword in H.
  rewrite (matchKeyword_exclusive "D" "ATA" "G" "ROUP" (trim decl)) in H;
    [discriminate | discriminate | exact E].
Qed.

(** The scan of [getLineNumber] over lines of which none starts with the
    GROUP keyword records every line that starts with the DATA keyword. *)
Lemma scanRows_prefix ls more : forall i gl u t ds,
  Forall (fun l => matchKeyword "GROUP" l = false) ls ->
  exists u' t' extra,
    scanRows (ls ++ more) i gl u t ds
    = (u', t', (ds ++ dataPositions ls i) ++ extra).
Proof.
  induction ls as [|l ls IH]; intros i gl u t ds Hg.
  - cbn [app dataPositions]. rewrite app_nil_r.
    destruct (scanRows more i gl u t ds) as [[u' t'] ds'] eqn:E.
    destruct (ResolveFacts.scanRows_sound _ _ _ _ _ _ _ _ _ E)
      as (_ & _ & new & -> & _).
    eauto.
  - inversion Hg as [|? ? Hl Hrest]; subst.
    cbn [app scanRows dataPositions]. rewrite Hl. cbn [andb].
    destruct (matchKeyword "UNIT" l && (u <? 0)%Z) eqn:Eu.
    { apply andb_true_iff in Eu. destruct Eu as [Eu _].
      rewrite (matchKeyword_exclusive "U" "NIT" "D" "ATA" l)
        by (discriminate || exact Eu).
      apply IH. exact Hrest. }
    destruct (matchKeyword "TYPE" l && (t <? 0)%Z) eqn:Et.
    { apply andb_true_iff in Et. destruct Et as [Et _].
      rewrite (matchKeyword_exclusive "T" "YPE" "D" "ATA" l)
        by (discriminate || exact Et).
      apply IH. exact Hrest. }
    destruct (matchKeyword "DATA" l).
    + destruct (IH (S i) gl u t (ds ++ [i]) Hrest) as (u' & t' & extra & E).
      rewrite E. exists u', t', extra.
      rewrite <- (app_assoc ds [i]). reflexivity.
    + apply IH. exact Hrest.
Qed.

Lemma dataPositions_nth ls : forall i k x,
  nth_error (filter (matchKeyword "DATA") ls) k = Some x ->
  exists j,
    nth_error (dataPositions ls i) k = Some (i + j)
    /\ nth_error ls j = Some x
    /\ List.length (filter (matchKeyword "DATA") (firstn j ls)) = k.
Proof.
  induction ls as [|l ls IH]; intros i k x H.
  - destruct k; discriminate.
  - cbn [filter dataPositions] in *.
    destruct (matchKeyword "DATA" l) eqn:E.
    + destruct k as [|k].
      * cbn in H. injection H as <-. exists 0.
        rewrite Nat.add_0_r. repeat split.
      * cbn [nth_error] in H. destruct (IH (S i) k x H) as (j & H1 & H2 & H3).
        exists (S j). cbn [nth_error firstn filter]. rewrite E.
        cbn [List.length]. rewrite H1, H3.
        repeat split; auto; f_equal; lia.
    + destruct (IH (S i) k x H) as (j & H1 & H2 & H3).
      exists (S j). cbn [nth_error firstn filter]. rewrite E.
      rewrite H1. repeat split; auto; f_equal; lia.
Qed.

Lemma skipn_nth_error {A} (l : list A) : forall i x,
  nth_error l i = Some x -> skipn i l = x :: skipn (S i) l.
Proof.
  induction l as [|y l IH]; intros i x H; destruct i; try discriminate.
  - cbn in H. injection H as ->. reflexivity.
  - cbn [nth_error] in H. cbn [skipn]. rewrite (IH i x H). reflexivity.
Qed.

(** The table view finds the data rows of the parser. *)
Lemma getLineNumber_complete document k g i row :
  mapGet (groups (parseDocument document)) k = Some g ->
  Forall (fun l => isRow "DATA" l = true -> matchKeyword "DATA" l = true)
    (segment document (line g)) ->
  Forall (fun l => matchKeyword "GROUP" l = false)
    (segment document (line g)) ->
  List.length (filter (fun l => negb (isRow "DATA" l))
                 (segment document (line g))) <= 9 ->
  nth_error (data g) i = Some row ->
  exists j text,
    getLineNumber document g EditDATA (Z.of_nat i)
    = Z.of_nat (S (line g) + j)
    /\ nth_error document (S (line g) + j) = Some text
    /\ isRow "DATA" text = true
    /\ rowOf text = row
    /\ List.length (filter (isRow "DATA")
                      (firstn j (segment document (line g)))) = i.
Proof.
  intros Hget Hraw Hgroup Hnine Hrow.
  destruct (InvariantFacts.group_invariant_of _ _ _ Hget)
    as (_ & (decl & Hdecl & Hk) & _).
  pose proof (SegmentFacts.group_of_segment _ _ _ Hget) as Hg.
  set (seg := segment document (line g)) in *.
  assert (Hsame : forall l, In l seg ->
                            matchKeyword "DATA" l = isRow "DATA" l).
  { intros l Hin. rewrite Forall_forall in Hraw. specialize (Hraw l Hin).
    destruct (isRow "DATA" l) eqn:E; [now apply Hraw|].
    destruct (matchKeyword "DATA" l) eqn:E'; [|reflexivity].
    apply matchKeyword_trim in E'. unfold isRow in E. congruence. }
  assert (Hfilter : filter (matchKeyword "DATA") seg
                    = filter (isRow "DATA") seg)
    by (apply filter_ext_in; exact Hsame).
  destruct (SegmentFacts.rowUpdates_data seg (S (line g))
              (newGroup k (line g))) as [Hdata Hcount].
  rewrite <- Hg in Hdata, Hcount. cbn [newGroup data dataCount] in *.
  cbn [app Nat.add] in Hdata, Hcount.
  rewrite Hdata, nth_error_map in Hrow.
  destruct (nth_error (filter (isRow "DATA") seg) i) as [x|] eqn:Hx;
    [|discriminate].
  cbn in Hrow. injection Hrow as Hrow.
  rewrite <- Hfilter in Hx.
  destruct (dataPositions_nth seg (S (line g)) i x Hx) as (j & Hp & Hj & Hi).
  assert (Hxdata : isRow "DATA" x = true).
  { rewrite <- (Hsame x) by (eapply nth_error_In; exact Hj).
    apply nth_error_In in Hx. apply filter_In in Hx. tauto. }
  exists j, x.
  destruct (SegmentFacts.untilDeclaration_split
              (skipn (S (line g)) document)) as (post & Epost & _ & _).
  fold (segment document (line g)) in Epost. fold seg in Epost.
  assert (Hnth : nth_error document (S (line g) + j) = Some x).
  { rewrite <- nth_error_skipn, Epost.
    rewrite nth_error_app1 by (apply nth_error_Some; congruence).
    exact Hj. }
  split; [|split; [exact Hnth|split; [exact Hxdata|split; [exact Hrow|]]]].
  - unfold getLineNumber, scanGroup.
    rewrite (skipn_nth_error document (line g) decl Hdecl), Epost.
    replace (dataCount g + 10) with (S (dataCount g + 9)) by lia.
    cbn [firstn]. rewrite firstn_app.
    assert (Hlen : List.length seg <= dataCount g + 9).
    { rewrite <- (filter_length (isRow "DATA") seg). lia. }
    rewrite (firstn_all2 seg) by exact Hlen.
    assert (Hstep : exists u1 t1,
               scanRows (decl :: seg ++ firstn (dataCount g + 9
                                               - List.length seg) post)
                 (line g) (line g) (-1) (-1) []
               = scanRows (seg ++ firstn (dataCount g + 9
                                          - List.length seg) post)
                   (S (line g)) (line g) u1 t1 []).
    { cbn [scanRows]. rewrite (declaration_not_data decl k Hk).
      rewrite Nat.ltb_irrefl, Bool.andb_false_r.
      destruct (matchKeyword "UNIT" decl && (-1 <? 0)%Z); [eauto|].
      destruct (matchKeyword "TYPE" decl && (-1 <? 0)%Z); eauto. }
    destruct Hstep as (u1 & t1 & ->).
    destruct (scanRows_prefix seg
                (firstn (dataCount g + 9 - List.length seg) post)
                (S (line g)) (line g) u1 t1 [] Hgroup)
      as (u' & t' & extra & ->).
    cbn [app]. unfold index.
    replace (Z.of_nat i <? 0)%Z with false
      by (symmetry; apply Z.ltb_ge; lia).
    rewrite Nat2Z.id.
    rewrite nth_error_app1 by (apply nth_error_Some; congruence).
    rewrite Hp. reflexivity.
  - rewrite <- Hi. f_equal. symmetry. apply filter_ext_in.
    intros l Hin. apply Hsame.
    rewrite <- (firstn_skipn j seg). apply in_or_app. now left.
Qed.

End AgreementFacts.

(* ------------------------------------------------------------------ *)
(** * The properties of the specification: table synchronisation *)

Import Text Js JsNumber Extension TableViewProvider.

(** C1. In a group whose single data row is the line DATA, BH1, 2.50, the
    edit of cell (DATA, 0, 1) to 9.99 resolves to that line, takes as span
    the content of the quoted field of index 2 (offsets 14 to 18, the quotes
    at 13 and 18 left out), and turns the line into DATA, BH1, 9.99 with
    every other line as it was; after parsing the edited buffer the record
    count of the group is still 1. *)
Theorem handleCellEdit_replaces_quoted_content
        (p : Provider) (doc : TextDocument) (g : string)
        (group : ParsedGroup) (before after : list string) :
  currentDocument p = Some doc ->
  currentGroup p = Some g ->
  lineTexts doc = before ++ src "'DATA','BH1','2.50'" :: after ->
  mapGet (groups (parseDocument (lineTexts doc))) g = Some group ->
  dataCount group = 1 ->
  getLineNumber (lineTexts doc) group EditDATA 0
  = Z.of_nat (List.length before) ->
  let edited := before ++ src "'DATA','BH1','9.99'" :: after in
  getCellRange (src "'DATA','BH1','2.50'") (List.length before) 1
  = Some {| r_startLine := List.length before; r_startCharacter := 14;
            r_endLine := List.length before; r_endCharacter := 18 |}
  /\ substring 13 6 (src "'DATA','BH1','2.50'") = src "'2.50'"
  /\ index (extractQuotedFields (src "'DATA','BH1','2.50'")) (1 + 1)
     = Some "2.50"
  /\ handleCellEdit p ViewSpec.editToNine
     = withDocument p {| uri := uri doc; lineTexts := edited |}
  /\ option_map dataCount (mapGet (groups (parseDocument edited)) g)
     = Some 1.
Proof.
  intros Hdoc Hg Hlines Hgroup Hcount Hline edited.
  assert (Hrange :
            getCellRange (src "'DATA','BH1','2.50'") (List.length before) 1
            = Some {| r_startLine := List.length before;
                      r_startCharacter := 14;
                      r_endLine := List.length before;
                      r_endCharacter := 18 |}).
  { unfold getCellRange.
    replace (cellLoop (src "'DATA','BH1','2.50'") 0 0 (1 + 1) None)
      with (Some (14, 18)) by (vm_compute; reflexivity).
    reflexivity. }
  split; [exact Hrange|].
  split; [vm_compute; reflexivity|].
  split; [vm_compute; reflexivity|].
  split.
  - unfold handleCellEdit. rewrite Hdoc, Hg.
    rewrite (ShapeFacts.group_key_truthy _ _ _ Hgroup), Hgroup.
    cbn [ViewSpec.editToNine ce_rowType ce_rowIndex ce_colIndex ce_newValue].
    rewrite Hline.
    replace (Z.of_nat (List.length before) <? 0)%Z with false
      by (symmetry; apply Z.ltb_ge; lia).
    rewrite Nat2Z.id, Hlines.
    rewrite nth_error_app2 by lia. rewrite Nat.sub_diag. cbn [nth_error].
    rewrite Hrange. rewrite EditFacts.applyReplace_at.
    f_equal.
  - rewrite <- (ShapeFacts.dataCount_sameClass (lineTexts doc) edited).
    + rewrite Hgroup. cbn [option_map]. now rewrite Hcount.
    + rewrite Hlines. unfold edited. apply Forall2_app.
      * apply ShapeFacts.Forall2_sameClass_refl.
      * constructor; [|apply ShapeFacts.Forall2_sameClass_refl].
        intros sh. vm_compute. reflexivity.
Qed.

(** The group SAMP of heading, unit, type and one data row. *)
Lemma handleCellEdit_replaces_quoted_content_witness :
  let edited :=
    List.map src
      [ "'GROUP','SAMP'";
        "'HEADING','LOCA_ID','SAMP_TOP'";
        "'UNIT','','m'";
        "'TYPE','ID','2DP'";
        "'DATA','BH1','9.99'" ] in
  getLineNumber (lineTexts ViewSpec.singleRowDocument)
    {| name := "SAMP"; line := 0;
       headings := ["LOCA_ID"; "SAMP_TOP"]; headingLine := 1;
       dataCount := 1; units := [""; "m"]; types := ["ID"; "2DP"];
       data := [["BH1"; "2.50"]] |} EditDATA 0
  = 4%Z
  /\ handleCellEdit ViewSpec.showingSingleRow ViewSpec.editToNine
     = withDocument ViewSpec.showingSingleRow
         {| uri := uri ViewSpec.singleRowDocument; lineTexts := edited |}
  /\ option_map dataCount (mapGet (groups (parseDocument edited)) "SAMP")
     = Some 1.
Proof.
  pose proof (handleCellEdit_replaces_quoted_content
                ViewSpec.showingSingleRow ViewSpec.singleRowDocument "SAMP"
                {| name := "SAMP"; line := 0;
                   headings := ["LOCA_ID"; "SAMP_TOP"]; headingLine := 1;
                   dataCount := 1; units := [""; "m"]; types := ["ID"; "2DP"];
                   data := [["BH1"; "2.50"]] |}
                (List.map src
                   [ "'GROUP','SAMP'";
                     "'HEADING','LOCA_ID','SAMP_TOP'";
                     "'UNIT','','m'";
                     "'TYPE','ID','2DP'" ])
                []
                eq_refl eq_refl eq_refl eq_refl eq_refl eq_refl) as H.
  cbv zeta in H. destruct H as (_ & _ & _ & Hedit & Hcount).
  cbv zeta. split; [reflexivity|]. split; [exact Hedit | exact Hcount].
Defined.

(** C2. For a cell edit of a DATA row whose row index exceeds the number of
    data-row lines found by the scan from the start line of the group (a
    scan of at most the record count of the group plus 10 lines, so that it
    finds at most that many), no line is resolved and the edit changes
    nothing: the provider and its buffer are as before. *)
Theorem handleCellEdit_row_beyond_scan
        (p : Provider) (message : CellEditMessage) (doc : TextDocument)
        (g : string) (group : ParsedGroup) :
  ce_rowType message = EditDATA ->
  currentDocument p = Some doc ->
  currentGroup p = Some g ->
  mapGet (groups (parseDocument (lineTexts doc))) g = Some group ->
  (Z.of_nat (List.length (ViewSpec.dataLinesFound (lineTexts doc) group))
   < ce_rowIndex message)%Z ->
  getLineNumber (lineTexts doc) group EditDATA (ce_rowIndex message)
  = (-1)%Z
  /\ handleCellEdit p message = p
  /\ List.length (ViewSpec.dataLinesFound (lineTexts doc) group)
     <= dataCount group + 10.
Proof.
  intros Hrow Hdoc Hg Hgroup Hidx.
  assert (Hline : getLineNumber (lineTexts doc) group EditDATA
                    (ce_rowIndex message) = (-1)%Z).
  { rewrite ScanFacts.getLineNumber_data.
    rewrite ScanFacts.index_beyond by lia. reflexivity. }
  split; [exact Hline|]. split.
  - unfold handleCellEdit. rewrite Hdoc, Hg.
    destruct (truthy (Some g)); [|reflexivity].
    rewrite Hgroup, Hrow, Hline. reflexivity.
  - apply ScanFacts.dataLinesFound_bound.
Qed.

(** The group LOCA of two data rows, edited at row 3. *)
Lemma handleCellEdit_row_beyond_scan_witness :
  ViewSpec.dataLinesFound (lineTexts ViewSpec.blankLineDocument)
    {| name := "LOCA"; line := 0; headings := ["LOCA_ID"; "LOCA_FDEP"];
       headingLine := 1; dataCount := 2; units := []; types := [];
       data := [["BH1"; "2.50"]; ["BH2"; "4.00"]] |}
  = [2; 4]
  /\ handleCellEdit ViewSpec.showingLoca
       {| ce_rowType := EditDATA; ce_rowIndex := 3; ce_colIndex := 0;
          ce_oldValue := "BH9"; ce_newValue := "BH7" |}
     = ViewSpec.showingLoca.
Proof.
  split; [reflexivity|].
  apply (handleCellEdit_row_beyond_scan ViewSpec.showingLoca
           {| ce_rowType := EditDATA; ce_rowIndex := 3; ce_colIndex := 0;
              ce_oldValue := "BH9"; ce_newValue := "BH7" |}
           ViewSpec.blankLineDocument "LOCA"
           {| name := "LOCA"; line := 0; headings := ["LOCA_ID"; "LOCA_FDEP"];
              headingLine := 1; dataCount := 2; units := []; types := [];
              data := [["BH1"; "2.50"]; ["BH2"; "4.00"]] |}
           eq_refl eq_refl eq_refl eq_refl).
  vm_compute. reflexivity.
Defined.

(** C3, as stated, fails: with the groups LOCA and SAMP in the document and
    SAMP active, selecting the absent group ZZZZ makes LOCA, the first group
    of the document, the active group. *)
Lemma handleSelectGroup_absent_counterexample :
  mapHas (groups (parseDocument (lineTexts ViewSpec.blankLineDocument)))
    "ZZZZ" = false
  /\ currentGroup ViewSpec.showingSamp = Some "SAMP"
  /\ currentGroup (handleSelectGroup ViewSpec.showingSamp "ZZZZ")
     = Some "LOCA"
  /\ currentGroup (handleSelectGroup ViewSpec.showingSamp "ZZZZ")
     <> currentGroup ViewSpec.showingSamp.
Proof.
  split; [vm_compute; reflexivity|].
  split; [reflexivity|].
  split; [vm_compute; reflexivity|].
  vm_compute. discriminate.
Qed.

(** C3, amended.  With the panel open on a document, a select-group request
    that names a group not present in the parsed document makes the first
    group of the document the active group, whatever group was active
    before, and no group when the document has none. *)
Theorem handleSelectGroup_absent_selects_first
        (p : Provider) (doc : TextDocument) (groupName : string) :
  panel p = true ->
  currentDocument p = Some doc ->
  mapHas (groups (parseDocument (lineTexts doc))) groupName = false ->
  currentGroup (handleSelectGroup p groupName)
  = firstKey (groups (parseDocument (lineTexts doc))).
Proof.
  intros Hpanel Hdoc Hhas.
  unfold handleSelectGroup, updateContent.
  cbn [withGroup panel currentDocument currentGroup].
  rewrite Hpanel, Hdoc. cbn [negb]. rewrite Hhas, andb_false_r.
  set (first := firstKey (groups (parseDocument (lineTexts doc)))).
  cbn [withGroup currentGroup].
  destruct first as [k|]; [|reflexivity].
  destruct (truthy (Some k)); [|reflexivity].
  destruct (mapGet _ k); reflexivity.
Qed.

Lemma handleSelectGroup_absent_selects_first_witness :
  currentGroup (handleSelectGroup ViewSpec.showingSamp "ZZZZ") = Some "LOCA".
Proof.
  apply (handleSelectGroup_absent_selects_first ViewSpec.showingSamp
           ViewSpec.blankLineDocument "ZZZZ" eq_refl eq_refl).
  vm_compute. reflexivity.
Defined.

(** C4.  The code at a cursor on a data row that follows a blank line: in
    the group LOCA the row of BH2 is on line 4, the first data row on line
    2 and line 3 is blank.  The parser records BH2 as data row 1, the scan
    of [getLineNumber] maps data row 1 to line 4, and one data-row line
    lies between the first data line and the cursor; the row index of the
    highlight message is 2, the distance in lines. *)
Theorem syncWithEditor_counts_blank_line :
  let document := lineTexts ViewSpec.blankLineDocument in
  let editor := {| ed_document := ViewSpec.blankLineDocument; ed_line := 4 |} in
  nth_error document 3 = Some EmptyString
  /\ nth_error document 4 = Some (src "'DATA','BH2','4.00'")
  /\ option_map data (mapGet (groups (parseDocument document)) "LOCA")
     = Some [["BH1"; "2.50"]; ["BH2"; "4.00"]]
  /\ option_map (fun g => getLineNumber document g EditDATA 1)
       (mapGet (groups (parseDocument document)) "LOCA")
     = Some 4%Z
  /\ option_map (findFirstDataLine document)
       (mapGet (groups (parseDocument document)) "LOCA")
     = Some 2%Z
  /\ ViewSpec.dataRowOrdinal document 2 4 = 1
  /\ snd (syncWithEditor ViewSpec.showingLoca editor)
     = Some {| hl_rowType := DATA; hl_rowIndex := 2 |}.
Proof.
  cbv zeta. repeat split; vm_compute; reflexivity.
Qed.

(* ------------------------------------------------------------------ *)
(** * The properties of the specification *)

Import Text Js JsNumber Extension TableViewProvider.

(** C8. Column-at-position returns, for every line and character offset,
    the number of commas that lie outside quoted spans (quote state being
    the parity of the double quotes seen) strictly before the offset.  On
    the line DATA, A, B, C of four quoted fields the third quoted field, B,
    occupies offsets 11 to 13, and at each of the cursor offsets 11 to 14
    within it the result is column 2. *)
Theorem getColumnAtPosition_counts_outside_commas :
  (forall (text : string) (charPosition : nat),
      getColumnAtPosition text charPosition
      = ColumnSpec.commasOutsideBefore text charPosition)
  /\ (let text := src "'DATA','A','B','C'" in
      extractQuotedFields text = ["DATA"; "A"; "B"; "C"]
      /\ substring 11 3 text = src "'B'"
      /\ Forall (fun offset => getColumnAtPosition text offset = 2)
           [11; 12; 13; 14]).
Proof.
  split.
  - intros text charPosition. unfold getColumnAtPosition.
    rewrite FieldFacts.columnLoop_counts.
    unfold ColumnSpec.commasOutsideBefore. cbn [Nat.add].
    apply FieldFacts.length_filter_ext.
    apply FieldFacts.commaOutsideFrom_false.
  - cbv zeta. repeat split.
    repeat constructor.
Qed.

(** C10. When the opening quote of field [colIndex + 1] exists on the line
    but is never closed, [getCellRange] still succeeds and returns the span
    from just after that quote to the end of the line, while
    [extractQuotedFields] yields no field for it: the fields of the line are
    those of the text before the quote, and there is none at that index.  A
    replacement at that span overwrites the unterminated text. *)
Theorem getCellRange_unterminated_field
        (pre rest : string) (colIndex lineNumber : nat) :
  countQuotes pre = 2 * (colIndex + 1) ->
  countQuotes rest = 0 ->
  let text := (pre ++ String DQ rest)%string in
  let range :=
    {| r_startLine := lineNumber;
       r_startCharacter := String.length pre + 1;
       r_endLine := lineNumber;
       r_endCharacter := String.length text |} in
  getCellRange text lineNumber (Z.of_nat colIndex) = Some range
  /\ substring (String.length pre + 1) (String.length rest) text = rest
  /\ extractQuotedFields text = extractQuotedFields pre
  /\ List.length (extractQuotedFields text) = colIndex + 1
  /\ Js.index (extractQuotedFields text) (Z.of_nat colIndex + 1) = None
  /\ forall (before after : list string) (newText : string),
      lineNumber = List.length before ->
      applyReplace (before ++ text :: after) range newText
      = before
          ++ splitLines (pre ++ String DQ newText)%string EmptyString
          ++ after.
Proof.
  intros Hpre Hrest text range.
  assert (Hf : extractQuotedFields text = extractQuotedFields pre
               /\ List.length (extractQuotedFields pre) = colIndex + 1).
  { unfold extractQuotedFields, text.
    destruct (CellFacts.extractFrom_app (String DQ rest) pre) as [Ho _].
    destruct (Ho (colIndex + 1) Hpre) as [E L].
    rewrite E. cbn [extractFrom]. unfold isQuote at 1.
    rewrite Ascii.eqb_refl.
    rewrite CellFacts.extractFrom_unclosed by exact Hrest.
    rewrite app_nil_r. split; [reflexivity | exact L]. }
  destruct Hf as [Hf Hl].
  assert (Hlen : String.length text
                 = String.length pre + 1 + String.length rest).
  { unfold text. rewrite CellFacts.string_length_app. simpl. lia. }
  repeat split.
  - unfold getCellRange, text, range.
    destruct (CellFacts.cellLoop_skip (Z.of_nat colIndex + 1)
                (String DQ rest) pre) as [Ho _].
    rewrite (Ho 0 0%Z (colIndex + 1)) by (try exact Hpre; lia).
    cbn [cellLoop Nat.add].
    replace (0 + Z.of_nat (colIndex + 1))%Z with (Z.of_nat colIndex + 1)%Z
      by lia.
    rewrite Z.leb_refl. unfold isQuote at 1. rewrite Ascii.eqb_refl.
    rewrite CellFacts.cellLoop_unclosed by exact Hrest.
    fold text. rewrite Hlen.
    repeat f_equal; lia.
  - unfold text.
    replace (pre ++ String DQ rest)%string
      with ((pre ++ String DQ EmptyString) ++ rest)%string
      by (rewrite EditFacts.string_app_assoc; reflexivity).
    replace (String.length pre + 1)
      with (String.length (pre ++ String DQ EmptyString)%string)
      by (rewrite CellFacts.string_length_app; reflexivity).
    apply CellFacts.substring_skip.
  - exact Hf.
  - rewrite Hf. exact Hl.
  - rewrite Hf. unfold Js.index.
    destruct (Z.of_nat colIndex + 1 <? 0)%Z; [reflexivity|].
    apply nth_error_None. rewrite Hl. lia.
  - intros before after newText Hn. unfold range. rewrite Hn.
    rewrite EditFacts.applyReplace_at.
    rewrite Nat.sub_diag, EditFacts.substring_at_end.
    rewrite EditFacts.string_app_nil_r.
    replace (substring 0 (String.length pre + 1) text)
      with (pre ++ String DQ EmptyString)%string.
    + rewrite EditFacts.string_app_assoc. reflexivity.
    + unfold text.
      replace (pre ++ String DQ rest)%string
        with ((pre ++ String DQ EmptyString) ++ rest)%string
        by (rewrite EditFacts.string_app_assoc; reflexivity).
      replace (String.length pre + 1)
        with (String.length (pre ++ String DQ EmptyString)%string)
        by (rewrite CellFacts.string_length_app; reflexivity).
      symmetry. apply EditFacts.substring_prefix.
Qed.

(** The line DATA, BH1 and an unterminated third field 2.5, edited at
    column 1. *)
Lemma getCellRange_unterminated_field_witness :
  countQuotes (src "'DATA','BH1',") = 2 * (1 + 1)
  /\ countQuotes "2.5" = 0
  /\ getCellRange (src "'DATA','BH1','2.5") 0 1%Z
     = Some {| r_startLine := 0; r_startCharacter := 14;
               r_endLine := 0; r_endCharacter := 17 |}
  /\ extractQuotedFields (src "'DATA','BH1','2.5") = ["DATA"; "BH1"].
Proof.
  split; [reflexivity|]. split; [reflexivity|].
  pose proof (getCellRange_unterminated_field
                (src "'DATA','BH1',") "2.5" 1 0 eq_refl eq_refl) as H.
  cbv zeta in H. destruct H as (Hr & _ & Hf & _).
  split; [exact Hr | exact Hf].
Defined.

(** C5. The total record count of a summary is the sum of [dataCount] over
    the groups of the parsed document, and in every document the parser
    produces, the [dataCount] of each group is the number of its parsed data
    rows. *)
Theorem totalRecords_is_sum_of_dataCount :
  (forall (dictGroups : string -> option string) (parsed : ParsedDocument),
      totalRecords (generateSummary dictGroups parsed)
      = list_sum (List.map (fun e => dataCount (snd e)) (groups parsed)))
  /\ (forall document : list string,
         Forall (fun e => dataCount (snd e) = List.length (data (snd e)))
           (groups (parseDocument document))).
Proof.
  split.
  - intros dictGroups parsed. cbn [generateSummary totalRecords].
    unfold countGroups.
    destruct (CountFacts.countGroups_fold dictGroups (groups parsed)
                {| c_groupCounts := []; c_totalRecords := 0;
                   c_recordsByLocation := [] |}) as [_ E].
    rewrite E. reflexivity.
  - intros document. cbn [parseDocument groups].
    apply ParserFacts.parseLines_Forall; cbn; auto.
    intros k g fs H. rewrite length_app, H. simpl. lia.
Qed.

(** C6. The group-count list of a summary is sorted by count in descending
    order and holds the counts of the groups; the entries of any one count
    are in the order of the groups of the parsed document, and that order
    is the order in which the group names are first met in the file. *)
Theorem groupCounts_sorted_descending_stable :
  (forall (dictGroups : string -> option string) (parsed : ParsedDocument),
      let unsorted :=
        List.map (ParserSpec.groupCountOf dictGroups) (groups parsed) in
      let sorted := groupCounts (generateSummary dictGroups parsed) in
      StronglySorted (fun a b => gc_count b <= gc_count a) sorted
      /\ Permutation unsorted sorted
      /\ (forall c,
             filter (fun g => gc_count g =? c) sorted
             = filter (fun g => gc_count g =? c) unsorted)
      /\ List.map gc_name unsorted = mapKeys (groups parsed))
  /\ (forall document : list string,
         mapKeys (groups (parseDocument document))
         = ParserSpec.firstOccurrences (ParserSpec.declaredNames document)).
Proof.
  split.
  - intros dictGroups parsed unsorted sorted.
    assert (E : sorted = arraySort byCountDescending unsorted).
    { unfold sorted, unsorted. cbn [generateSummary groupCounts].
      unfold countGroups.
      destruct (CountFacts.countGroups_fold dictGroups (groups parsed)
                  {| c_groupCounts := []; c_totalRecords := 0;
                     c_recordsByLocation := [] |}) as [-> _].
      reflexivity. }
    rewrite E. repeat split.
    + apply CountFacts.arraySort_sorted.
    + apply CountFacts.arraySort_perm.
    + intros c. apply CountFacts.arraySort_filter.
    + unfold unsorted, mapKeys. rewrite map_map. reflexivity.
  - intros document. cbn [parseDocument groups].
    rewrite ParserFacts.mapKeys_parseLines. cbn [initialState st_groups].
    cbn [mapKeys List.map app].
    apply CountFacts.filter_all. reflexivity.
Qed.

(** C7. For a document whose GEOL group has the headings LOCA_ID, GEOL_TOP,
    GEOL_BASE and exactly the rows (BH1, 0.00, 1.50) and (BH1, 1.50, 3.00),
    the depth range of BH1 is min 0, max 3, and every entry of the location
    inventory for BH1 carries it.  In general the range of a location is
    the least and the greatest of the bounds its rows supply, a top or base
    that is missing or not numeric supplying none (bounds taken finite); and
    a row whose top, or base, is such is handled as if that column were not
    there. *)
Theorem geology_depth_range :
  (forall (dictGroups : string -> option string)
          (parsed : ParsedDocument) (geol : ParsedGroup),
      mapGet (groups parsed) "GEOL" = Some geol ->
      headings geol = ["LOCA_ID"; "GEOL_TOP"; "GEOL_BASE"] ->
      data geol = [["BH1"; "0.00"; "1.50"]; ["BH1"; "1.50"; "3.00"]] ->
      mapGet (depthRangesByLocation parsed) "BH1"
      = Some {| min := ofZ 0; max := ofZ 3 |}
      /\ Forall (fun loc => loc_id loc = "BH1" ->
                            loc_depthMin loc = Some (ofZ 0)
                            /\ loc_depthMax loc = Some (ofZ 3))
           (locations (generateSummary dictGroups parsed)))
  /\ (forall (parsed : ParsedDocument) (L : string),
         Forall (fun x => isFinite x = true) (DepthSpec.geolBounds parsed L) ->
         mapGet (depthRangesByLocation parsed) L
         = DepthSpec.rangeOfBounds (DepthSpec.geolBounds parsed L))
  /\ (forall (li ti bi : Z) (ranges : Map DepthRange) (row : list string),
         isNaN (DepthSpec.depthAt ti row) = true ->
         depthRow li ti bi ranges row = depthRow li (-1) bi ranges row)
  /\ (forall (li ti bi : Z) (ranges : Map DepthRange) (row : list string),
         isNaN (DepthSpec.depthAt bi row) = true ->
         depthRow li ti bi ranges row = depthRow li ti (-1) ranges row).
Proof.
  assert (Hranges : forall parsed geol,
             mapGet (groups parsed) "GEOL" = Some geol ->
             headings geol = ["LOCA_ID"; "GEOL_TOP"; "GEOL_BASE"] ->
             data geol = [["BH1"; "0.00"; "1.50"]; ["BH1"; "1.50"; "3.00"]] ->
             mapGet (depthRangesByLocation parsed) "BH1"
             = Some {| min := ofZ 0; max := ofZ 3 |}).
  { intros parsed geol Hg Hh Hd. unfold depthRangesByLocation.
    rewrite Hg, Hh, Hd. vm_compute. reflexivity. }
  split; [|split; [|split]].
  - intros dictGroups parsed geol Hg Hh Hd.
    split; [now apply (Hranges parsed geol)|].
    eapply Forall_impl; [|apply DepthFacts.locations_carry].
    intros loc [Hmin Hmax] Hid.
    rewrite Hmin, Hmax, Hid, (Hranges parsed geol Hg Hh Hd).
    split; reflexivity.
  - intros parsed L Hfin.
    unfold depthRangesByLocation, DepthSpec.geolBounds in *.
    destruct (mapGet (groups parsed) "GEOL") as [g|]; [|reflexivity].
    destruct (0 <=? indexOf (headings g) "LOCA_ID")%Z eqn:El; cbn [andb].
    + destruct ((0 <=? indexOf (headings g) "GEOL_TOP")%Z
                || (0 <=? indexOf (headings g) "GEOL_BASE")%Z) eqn:Ed.
      * apply (DepthFacts.depthRows_get _ _ _ _ _ [] []);
          [reflexivity | constructor | exact Hfin].
      * apply orb_false_iff in Ed. destruct Ed as [Et Eb].
        apply Z.leb_gt in Et, Eb.
        rewrite DepthFacts.boundsOf_no_depth by assumption. reflexivity.
    + apply Z.leb_gt in El.
      rewrite DepthFacts.boundsOf_no_location by assumption. reflexivity.
  - intros li ti bi ranges row H. unfold depthRow.
    change (if (0 <=? ti)%Z then parseFloat (index row ti) else NaN)
      with (DepthSpec.depthAt ti row).
    destruct (DepthSpec.depthAt ti row); try discriminate. reflexivity.
  - intros li ti bi ranges row H. unfold depthRow.
    change (if (0 <=? bi)%Z then parseFloat (index row bi) else NaN)
      with (DepthSpec.depthAt bi row).
    destruct (DepthSpec.depthAt bi row); try discriminate. reflexivity.
Qed.

(** The geology group of the example document, a row with a top that is not
    numeric, and a row with no base. *)
Lemma geology_depth_range_witness :
  let parsed := parseDocument Examples.geologyDocument in
  mapGet (depthRangesByLocation parsed) "BH1"
  = Some {| min := ofZ 0; max := ofZ 3 |}
  /\ List.map (fun loc => (loc_id loc, loc_depthMin loc, loc_depthMax loc))
       (locations (generateSummary (fun _ => None) parsed))
     = [("BH1", Some (ofZ 0), Some (ofZ 3))]
  /\ DepthSpec.geolBounds parsed "BH1"
     = [ofZ 0; ofDecimal false 15 (-1); ofDecimal false 15 (-1); ofZ 3]
  /\ mapGet (depthRangesByLocation parsed) "BH1"
     = DepthSpec.rangeOfBounds (DepthSpec.geolBounds parsed "BH1")
  /\ depthRow 0 1 2 [] ["BH1"; "n/a"; "2.5"]
     = depthRow 0 (-1) 2 [] ["BH1"; "n/a"; "2.5"]
  /\ depthRow 0 1 2 [] ["BH1"; "2.5"] = depthRow 0 1 (-1) [] ["BH1"; "2.5"].
Proof.
  destruct geology_depth_range as (Hex & Hgen & Htop & Hbase).
  intros parsed.
  destruct (Hex (fun _ => None) parsed
              {| name := "GEOL"; line := 4;
                 headings := ["LOCA_ID"; "GEOL_TOP"; "GEOL_BASE"];
                 headingLine := 5; dataCount := 2; units := []; types := [];
                 data := [["BH1"; "0.00"; "1.50"]; ["BH1"; "1.50"; "3.00"]] |}
              eq_refl eq_refl eq_refl) as [Hr _].
  split; [exact Hr|].
  split; [vm_compute; reflexivity|].
  split; [vm_compute; reflexivity|].
  split; [apply (Hgen parsed "BH1"); repeat constructor|].
  split.
  - apply (Htop 0%Z 1%Z 2%Z [] ["BH1"; "n/a"; "2.5"]). reflexivity.
  - apply (Hbase 0%Z 1%Z 2%Z [] ["BH1"; "2.5"]). reflexivity.
Defined.

(** C9, as stated, fails: in a TRAN group whose heading list holds TRAN_AGS,
    a second data row with an empty TRAN_AGS field leaves the version of the
    first row in place, so the value of the last such row does not win. *)
Lemma formatVersion_last_row_counterexample :
  ParserSpec.versionRows Examples.versionDocument = [Some "4.1"; Some ""]
  /\ version (parseDocument Examples.versionDocument) = Some "4.1"
  /\ version (parseDocument Examples.versionDocument)
     <> last (ParserSpec.versionRows Examples.versionDocument) None.
Proof.
  split; [vm_compute; reflexivity|].
  split; [vm_compute; reflexivity|].
  vm_compute. discriminate.
Qed.

(** C9, amended.  While the parser is inside the TRAN group, a data row
    whose heading list holds TRAN_AGS sets the version to the field aligned
    with that column when the field is present and not empty, and leaves it
    as it was otherwise; no other line changes it.  So the version of a
    document is the last non-empty such value, and none when there is no
    such value. *)
Theorem formatVersion_last_nonempty_value :
  (forall (st : ParserState) (i : nat) (text : string),
      st_version (parseLine st i text)
      = match ParserSpec.alignedVersion st text with
        | Some v => if truthy v then v else st_version st
        | None => st_version st
        end)
  /\ (forall document : list string,
         version (parseDocument document)
         = last (filter truthy (ParserSpec.versionRows document)) None).
Proof.
  split.
  - apply VersionFacts.st_version_parseLine.
  - intros document. cbn [parseDocument version].
    apply (VersionFacts.st_version_parseLines document 0 initialState).
Qed.

(* ------------------------------------------------------------------ *)
(** * Further properties of the code *)

Import Text Js JsNumber Extension TableViewProvider.

(** X1. Every group of a parsed document is stored under its own name, its
    start line holds a declaration of that name, and no later line of the
    document declares the name again; no name is held twice. *)
Theorem parseDocument_group_identity
        (document : list string) (k : string) (g : ParsedGroup) :
  mapGet (groups (parseDocument document)) k = Some g ->
  name g = k
  /\ (exists text, nth_error document (line g) = Some text
                   /\ matchGroup (trim text) = Some k)
  /\ (forall j text, line g < j -> nth_error document j = Some text ->
                     matchGroup (trim text) <> Some k)
  /\ NoDup (mapKeys (groups (parseDocument document))).
Proof.
  intros Hget.
  destruct (InvariantFacts.group_invariant_of _ _ _ Hget)
    as (Hn & Hd & Hlast & _).
  repeat split; try assumption.
  apply InvariantFacts.parseDocument_invariant.
Qed.

Lemma parseDocument_group_identity_witness :
  exists text,
    nth_error Examples.geologyDocument 4 = Some text
    /\ matchGroup (trim text) = Some "GEOL".
Proof.
  destruct (parseDocument_group_identity Examples.geologyDocument "GEOL"
              {| name := "GEOL"; line := 4;
                 headings := ["LOCA_ID"; "GEOL_TOP"; "GEOL_BASE"];
                 headingLine := 5; dataCount := 2; units := []; types := [];
                 data := [["BH1"; "0.00"; "1.50"]; ["BH1"; "1.50"; "3.00"]] |}
              eq_refl) as (_ & H & _).
  exact H.
Defined.

(** X2. A group of a parsed document either has no heading line
    ([headingLine] is -1) and no headings, or its heading line is a line
    after its start line that holds a heading row, and its headings are the
    fields of that row after the row type. *)
Theorem parseDocument_heading_line
        (document : list string) (k : string) (g : ParsedGroup) :
  mapGet (groups (parseDocument document)) k = Some g ->
  (headingLine g = (-1)%Z /\ headings g = [])
  \/ exists h text,
       headingLine g = Z.of_nat h /\ line g < h
       /\ nth_error document h = Some text
       /\ matchKeyword "HEADING" (trim text) = true
       /\ headings g = slice1 (extractQuotedFields (trim text)).
Proof.
  intros Hget.
  destruct (InvariantFacts.group_invariant_of _ _ _ Hget)
    as (_ & _ & _ & Hh).
  exact Hh.
Qed.

Lemma parseDocument_heading_line_witness :
  exists h text,
    5%Z = Z.of_nat h /\ 4 < h
    /\ nth_error Examples.geologyDocument h = Some text
    /\ matchKeyword "HEADING" (trim text) = true
    /\ ["LOCA_ID"; "GEOL_TOP"; "GEOL_BASE"]
       = slice1 (extractQuotedFields (trim text)).
Proof.
  destruct (parseDocument_heading_line Examples.geologyDocument "GEOL"
              {| name := "GEOL"; line := 4;
                 headings := ["LOCA_ID"; "GEOL_TOP"; "GEOL_BASE"];
                 headingLine := 5; dataCount := 2; units := []; types := [];
                 data := [["BH1"; "0.00"; "1.50"]; ["BH1"; "1.50"; "3.00"]] |}
              eq_refl) as [[H _] | H].
  - discriminate H.
  - exact H.
Defined.

(** X3. The content of a group of a parsed document is read from the lines
    that follow its start line up to the next group declaration: its data
    rows are the data rows of those lines in order, its record count is
    their number, and its headings, units and types are the fields of the
    last heading, unit and type row among them (none if there is no such
    row). *)
Theorem parseDocument_group_content
        (document : list string) (k : string) (g : ParsedGroup) :
  mapGet (groups (parseDocument document)) k = Some g ->
  let seg := SegmentSpec.segment document (line g) in
  data g = List.map SegmentSpec.rowOf (filter (SegmentSpec.isRow "DATA") seg)
  /\ dataCount g = List.length (filter (SegmentSpec.isRow "DATA") seg)
  /\ headings g = SegmentSpec.lastRow "HEADING" seg
  /\ units g = SegmentSpec.lastRow "UNIT" seg
  /\ types g = SegmentSpec.lastRow "TYPE" seg.
Proof.
  intros Hget seg.
  pose proof (SegmentFacts.group_of_segment _ _ _ Hget) as E.
  fold seg in E.
  set (g0 := newGroup k (line g)) in E.
  destruct (SegmentFacts.rowUpdates_data seg (S (line g)) g0) as [D1 D2].
  pose proof (SegmentFacts.rowUpdates_last headings "HEADING" seg
                SegmentFacts.rowUpdate_headings (S (line g)) g0) as H1.
  pose proof (SegmentFacts.rowUpdates_last units "UNIT" seg
                SegmentFacts.rowUpdate_units (S (line g)) g0) as H2.
  pose proof (SegmentFacts.rowUpdates_last types "TYPE" seg
                SegmentFacts.rowUpdate_types (S (line g)) g0) as H3.
  rewrite <- E in D1, D2, H1, H2, H3.
  repeat split; assumption.
Qed.

Lemma parseDocument_group_content_witness :
  SegmentSpec.segment Examples.geologyDocument 0
  = List.map src ["'HEADING','LOCA_ID','LOCA_TYPE'"; "'DATA','BH1','BH'"; ""]
  /\ [["BH1"; "BH"]]
     = List.map SegmentSpec.rowOf
         (filter (SegmentSpec.isRow "DATA")
            (SegmentSpec.segment Examples.geologyDocument 0)).
Proof.
  split; [reflexivity|].
  destruct (parseDocument_group_content Examples.geologyDocument "LOCA"
              {| name := "LOCA"; line := 0;
                 headings := ["LOCA_ID"; "LOCA_TYPE"];
                 headingLine := 1; dataCount := 1; units := []; types := [];
                 data := [["BH1"; "BH"]] |}
              eq_refl) as (H & _).
  exact H.
Defined.

(** X4. A document without a group declaration parses to no group and no
    version: heading, unit, type and data rows outside any group are
    dropped. *)
Theorem parseDocument_without_declaration (document : list string) :
  Forall (fun text => matchGroup (trim text) = None) document ->
  parseDocument document = {| groups := []; version := None |}.
Proof.
  intros H. unfold parseDocument.
  rewrite NoGroupFacts.parseLines_outside; [reflexivity | exact H |].
  reflexivity.
Qed.

Lemma parseDocument_without_declaration_witness :
  parseDocument
    (List.map src ["'HEADING','LOCA_ID'"; "'DATA','BH1'"; "'GROUP','bad name'"])
  = {| groups := []; version := None |}.
Proof.
  apply parseDocument_without_declaration.
  repeat constructor.
Defined.

(** X5. [findGroupForLine] returns none exactly when every group starts
    after the line; otherwise it returns a group of the document that
    starts at or before the line, and no group that starts at or before the
    line starts after the one returned. *)
Theorem findGroupForLine_greatest_start
        (parsed : ParsedDocument) (lineNumber : nat) :
  match findGroupForLine parsed lineNumber with
  | None => forall k g, In (k, g) (groups parsed) -> lineNumber < line g
  | Some r =>
      (exists k, In (k, r) (groups parsed))
      /\ line r <= lineNumber
      /\ forall k g, In (k, g) (groups parsed) ->
                     line g <= lineNumber -> line g <= line r
  end.
Proof.
  unfold findGroupForLine.
  pose proof (PositionFacts.findGroupLoop_spec lineNumber (groups parsed)
                None) as H.
  destruct (findGroupLoop (groups parsed) lineNumber None) as [r|].
  - destruct H as (Hr & Hin & _ & Hall); [discriminate|].
    destruct Hin as [Hin|Hin]; [discriminate|].
    split; [|split; [exact Hr|]].
    + apply in_map_iff in Hin. destruct Hin as ([k g] & E & Hin).
      cbn in E. subst g. eauto.
    + intros k g Hin'. rewrite Forall_forall in Hall.
      apply (Hall (k, g) Hin').
  - destruct H as (_ & Hall); [discriminate|].
    intros k g Hin. rewrite Forall_forall in Hall. apply (Hall (k, g) Hin).
Qed.

(** X6. In a parsed document, a line belongs to the group of the last
    declaration at or before it: if line [i] declares [nm], no line after
    [i] up to [lineNumber] is a declaration and [nm] is not declared again
    after [lineNumber], then [findGroupForLine] at [lineNumber] returns the
    group stored under [nm], and that group starts at line [i]. *)
Theorem findGroupForLine_owner
        (document : list string) (lineNumber i : nat)
        (decl nm : string) :
  nth_error document i = Some decl ->
  matchGroup (trim decl) = Some nm ->
  i <= lineNumber ->
  (forall j text, i < j -> j <= lineNumber ->
                  nth_error document j = Some text ->
                  matchGroup (trim text) = None) ->
  (forall j text, lineNumber < j -> nth_error document j = Some text ->
                  matchGroup (trim text) <> Some nm) ->
  exists g,
    findGroupForLine (parseDocument document) lineNumber = Some g
    /\ mapGet (groups (parseDocument document)) nm = Some g
    /\ line g = i /\ name g = nm.
Proof.
  intros Hnth Hd Hle Hbetween Hafter.
  eapply PositionFacts.findGroupForLine_last_declaration; eauto.
Qed.

Lemma findGroupForLine_owner_witness :
  exists g,
    findGroupForLine (parseDocument Examples.geologyDocument) 6 = Some g
    /\ mapGet (groups (parseDocument Examples.geologyDocument)) "GEOL"
       = Some g
    /\ line g = 4 /\ name g = "GEOL".
Proof.
  apply (findGroupForLine_owner Examples.geologyDocument 6 4
           (src "'GROUP','GEOL'") "GEOL" eq_refl eq_refl).
  - lia.
  - intros j text H1 H2.
    assert (E : j = 5 \/ j = 6) by lia.
    destruct E as [-> | ->]; intros H; injection H as <-; reflexivity.
  - intros j text H1.
    assert (E : j = 7 \/ 8 <= j) by lia.
    destruct E as [-> | E].
    + intros H; injection H as <-; discriminate.
    + intros H.
      assert (j < List.length Examples.geologyDocument)
        by (apply nth_error_Some; congruence).
      cbn in H0. lia.
Defined.

(** X7. [extractQuotedFields] reads one field for every two double quotes
    of the line, the odd one out left over, and no field holds a double
    quote. *)
Theorem extractQuotedFields_count (text : string) :
  List.length (extractQuotedFields text) = Nat.div2 (countQuotes text)
  /\ Forall (fun field => countQuotes field = 0) (extractQuotedFields text).
Proof.
  unfold extractQuotedFields.
  destruct (QuoteFacts.extractFrom_count text) as [[L F] _].
  split; assumption.
Qed.

(** X8. [getCellRange] finds no span exactly when the column index is below
    -1 or the line has at most 2 * (colIndex + 1) double quotes, that is
    when the opening quote of field colIndex + 1 is not on the line.  A
    span it finds is on the given line, starts after at least one
    character and ends within the text. *)
Theorem getCellRange_found
        (text : string) (lineNumber : nat) (colIndex : Z) :
  (getCellRange text lineNumber colIndex = None
   <-> (colIndex + 1 < 0
        \/ Z.of_nat (countQuotes text) <= 2 * (colIndex + 1))%Z)
  /\ (forall range,
         getCellRange text lineNumber colIndex = Some range ->
         r_startLine range = lineNumber /\ r_endLine range = lineNumber
         /\ 1 <= r_startCharacter range
         /\ r_startCharacter range <= r_endCharacter range
         /\ r_endCharacter range <= String.length text).
Proof.
  split.
  - unfold getCellRange.
    destruct (Z.lt_ge_cases (colIndex + 1) 0) as [Hneg|Hpos].
    + rewrite QuoteFacts.cellLoop_negative by exact Hneg.
      split; [intros _; left; exact Hneg | reflexivity].
    + destruct (QuoteFacts.cellLoop_some (colIndex + 1) text) as [Ho _].
      specialize (Ho 0 0%Z (Z.to_nat (colIndex + 1))).
      rewrite Z2Nat.id in Ho by exact Hpos. specialize (Ho eq_refl).
      destruct (cellLoop text 0 0 (colIndex + 1) None) as [[s e]|].
      * split; [discriminate|].
        intros [H|H]; [lia|].
        assert (2 * Z.to_nat (colIndex + 1) + 1 <= countQuotes text)
          by (apply Ho; discriminate).
        lia.
      * split; [|reflexivity]. intros _. right.
        destruct (Nat.le_gt_cases
                    (2 * Z.to_nat (colIndex + 1) + 1) (countQuotes text))
          as [H|H]; [|lia].
        apply Ho in H. congruence.
  - intros range H. unfold getCellRange in H.
    destruct (cellLoop text 0 0 (colIndex + 1) None) as [[s e]|] eqn:E;
      [|discriminate].
    injection H as <-. cbn.
    destruct (QuoteFacts.cellLoop_bounds (colIndex + 1) text) as [Ho _].
    apply Ho in E. lia.
Qed.

(** X9. Editing a closed field is a round trip.  On a line made of a text
    with colIndex + 1 complete fields, then the target field between its
    two quotes, then the rest, [getCellRange] returns the span of the
    content of that field, which is field colIndex + 1 of the line for
    [extractQuotedFields]; a replacement at that span by a text without
    quotes gives a line whose fields are those of the old line with that
    one field replaced. *)
Theorem getCellRange_closed_field_round_trip
        (pre content post newText : string) (colIndex lineNumber : nat) :
  countQuotes pre = 2 * (colIndex + 1) ->
  countQuotes content = 0 ->
  let text := (pre ++ String DQ (content ++ String DQ post))%string in
  let range :=
    {| r_startLine := lineNumber;
       r_startCharacter := String.length pre + 1;
       r_endLine := lineNumber;
       r_endCharacter := String.length pre + 1 + String.length content |} in
  let edited := (pre ++ String DQ (newText ++ String DQ post))%string in
  getCellRange text lineNumber (Z.of_nat colIndex) = Some range
  /\ extractQuotedFields text
     = extractQuotedFields pre ++ content :: extractQuotedFields post
  /\ index (extractQuotedFields text) (Z.of_nat colIndex + 1) = Some content
  /\ (forall before after : list string,
         lineNumber = List.length before ->
         applyReplace (before ++ text :: after) range newText
         = before ++ splitLines edited EmptyString ++ after)
  /\ (countQuotes newText = 0 ->
      extractQuotedFields edited
      = extractQuotedFields pre ++ newText :: extractQuotedFields post).
Proof.
  intros Hpre Hcontent text range edited.
  assert (Hfields : forall body,
             countQuotes body = 0 ->
             extractQuotedFields
               (pre ++ String DQ (body ++ String DQ post))%string
             = extractQuotedFields pre ++ body :: extractQuotedFields post).
  { intros body Hbody. unfold extractQuotedFields.
    destruct (CellFacts.extractFrom_app
                (String DQ (body ++ String DQ post)) pre) as [Ho _].
    destruct (Ho (colIndex + 1) Hpre) as [E _]. rewrite E.
    cbn [extractFrom]. change (isQuote DQ) with true. cbn iota.
    rewrite QuoteFacts.extractFrom_closed by exact Hbody. reflexivity. }
  assert (Hlen : List.length (extractQuotedFields pre) = colIndex + 1).
  { unfold extractQuotedFields.
    destruct (CellFacts.extractFrom_app EmptyString pre) as [Ho _].
    destruct (Ho (colIndex + 1) Hpre) as [_ L]. exact L. }
  split; [|split; [|split; [|split]]].
  - unfold getCellRange, text, range.
    destruct (CellFacts.cellLoop_skip (Z.of_nat colIndex + 1)
                (String DQ (content ++ String DQ post)) pre) as [Ho _].
    rewrite (Ho 0 0%Z (colIndex + 1)) by (try exact Hpre; lia).
    cbn [cellLoop Nat.add].
    replace (0 + Z.of_nat (colIndex + 1))%Z with (Z.of_nat colIndex + 1)%Z
      by lia.
    rewrite Z.leb_refl. change (isQuote DQ) with true. cbn iota.
    rewrite QuoteFacts.cellLoop_closed by exact Hcontent.
    repeat f_equal; lia.
  - apply Hfields. exact Hcontent.
  - unfold text. rewrite (Hfields content Hcontent). unfold index.
    replace (Z.of_nat colIndex + 1 <? 0)%Z with false
      by (symmetry; apply Z.ltb_ge; lia).
    rewrite nth_error_app2 by (rewrite Hlen; lia).
    rewrite Hlen.
    replace (Z.to_nat (Z.of_nat colIndex + 1) - (colIndex + 1)) with 0
      by lia.
    reflexivity.
  - intros before after Hn. unfold range. rewrite Hn.
    rewrite EditFacts.applyReplace_at. do 3 f_equal.
    unfold text, edited.
    replace (pre ++ String DQ (content ++ String DQ post))%string
      with ((pre ++ String DQ EmptyString)
              ++ (content ++ String DQ post))%string
      by (rewrite EditFacts.string_app_assoc; reflexivity).
    replace (String.length pre + 1)
      with (String.length (pre ++ String DQ EmptyString)%string)
      by (rewrite CellFacts.string_length_app; reflexivity).
    rewrite EditFacts.substring_prefix.
    set (head := (pre ++ String DQ EmptyString)%string).
    replace (String.length head + String.length content)
      with (String.length (head ++ content)%string)
      by (rewrite CellFacts.string_length_app; reflexivity).
    replace (String.length (head ++ content ++ String DQ post)%string
             - String.length (head ++ content)%string)
      with (String.length (String DQ post))
      by (rewrite !CellFacts.string_length_app; cbn; lia).
    rewrite <- (EditFacts.string_app_assoc head content).
    rewrite EditFacts.substring_suffix.
    unfold head. rewrite !EditFacts.string_app_assoc. reflexivity.
  - intros Hnew. apply Hfields. exact Hnew.
Qed.

Lemma getCellRange_closed_field_round_trip_witness :
  extractQuotedFields (src "'DATA','BH1','9.99','x'")
  = extractQuotedFields (src "'DATA','BH1',") ++ "9.99"
      :: extractQuotedFields (src ",'x'").
Proof.
  pose proof (getCellRange_closed_field_round_trip
                (src "'DATA','BH1',") "2.50" (src ",'x'") "9.99" 1 0
                eq_refl eq_refl) as H.
  cbv zeta in H. destruct H as (_ & _ & _ & _ & H).
  exact (H eq_refl).
Defined.

(** X10. A cell edit either leaves the provider and its buffer as they are,
    or replaces the span found by [getCellRange] within one line of the
    buffer, a line that starts with the keyword of the row type of the
    edit; the lines before and after it, the uri, the panel, the active
    group and the page are unchanged. *)
Theorem handleCellEdit_changes_one_line
        (p : Provider) (message : CellEditMessage) :
  handleCellEdit p message = p
  \/ exists doc n text range,
       currentDocument p = Some doc
       /\ nth_error (lineTexts doc) n = Some text
       /\ matchKeyword (ProviderSpec.keywordOf (ce_rowType message)) text
          = true
       /\ getCellRange text n (ce_colIndex message) = Some range
       /\ handleCellEdit p message
          = {| panel := panel p;
               currentDocument :=
                 Some
                   {| uri := uri doc;
                      lineTexts :=
                        firstn n (lineTexts doc)
                          ++ splitLines
                               (substring 0 (r_startCharacter range) text
                                  ++ ce_newValue message
                                  ++ substring (r_endCharacter range)
                                       (String.length text
                                        - r_endCharacter range) text)%string
                               EmptyString
                          ++ skipn (S n) (lineTexts doc) |};
               currentGroup := currentGroup p;
               html := html p |}.
Proof.
  destruct (EditEffectFacts.handleCellEdit_effect p message)
    as [H | (doc & n & text & range & H1 & H2 & H3 & H4 & H5)].
  - left. exact H.
  - right. exists doc, n, text, range. repeat split; auto.
Qed.

(** X11. Edits keep the buffer a list of lines: if no line of the buffer
    and not the new value holds a line break, then after a cell edit the
    buffer has as many lines as before, none of them holds a line break,
    and the uri is the same. *)
Theorem handleCellEdit_keeps_line_count
        (p : Provider) (message : CellEditMessage) (doc : TextDocument) :
  currentDocument p = Some doc ->
  Forall (fun text => ProviderSpec.noLineBreak text = true) (lineTexts doc) ->
  ProviderSpec.noLineBreak (ce_newValue message) = true ->
  exists doc',
    currentDocument (handleCellEdit p message) = Some doc'
    /\ uri doc' = uri doc
    /\ List.length (lineTexts doc') = List.length (lineTexts doc)
    /\ Forall (fun text => ProviderSpec.noLineBreak text = true)
         (lineTexts doc').
Proof.
  intros Hdoc Hlines Hnew.
  destruct (EditEffectFacts.handleCellEdit_effect p message)
    as [H | (doc0 & n & text & range & H1 & H2 & H3 & H4 & H5)].
  - rewrite H. exists doc. auto.
  - rewrite H5. rewrite Hdoc in H1. injection H1 as <-.
    eexists. split; [reflexivity|]. cbn [uri lineTexts].
    assert (Htext : ProviderSpec.noLineBreak text = true).
    { rewrite Forall_forall in Hlines. apply Hlines.
      eapply nth_error_In; eauto. }
    set (edited := (substring 0 (r_startCharacter range) text
                      ++ ce_newValue message
                      ++ substring (r_endCharacter range)
                           (String.length text - r_endCharacter range)
                           text)%string).
    assert (Hedited : ProviderSpec.noLineBreak edited = true).
    { unfold edited. rewrite !ResolveFacts.noLineBreak_app.
      rewrite !ResolveFacts.noLineBreak_substring by exact Htext.
      now rewrite Hnew. }
    rewrite (ResolveFacts.splitLines_noLineBreak _ _ Hedited).
    cbn [append].
    destruct (SegmentFacts.nth_error_decompose _ _ _ H2) as [E L].
    split; [reflexivity|]. split.
    + rewrite E at 3. rewrite !length_app. cbn. lia.
    + rewrite E in Hlines. apply Forall_app in Hlines.
      destruct Hlines as [Hb Ha]. inversion Ha; subst.
      apply Forall_app. split; [exact Hb|].
      constructor; assumption.
Qed.

Lemma handleCellEdit_keeps_line_count_witness :
  exists doc',
    currentDocument (handleCellEdit ViewSpec.showingSingleRow
                       ViewSpec.editToNine) = Some doc'
    /\ uri doc' = uri ViewSpec.singleRowDocument
    /\ List.length (lineTexts doc') = 5
    /\ Forall (fun text => ProviderSpec.noLineBreak text = true)
         (lineTexts doc').
Proof.
  apply (handleCellEdit_keeps_line_count ViewSpec.showingSingleRow
           ViewSpec.editToNine ViewSpec.singleRowDocument eq_refl).
  - repeat constructor.
  - reflexivity.
Defined.

(** X12. A navigation request moves the cursor only to a line of the bound
    document that holds a row of the requested type: for a heading the line
    starts, after trimming, with the heading keyword, and for a unit, type
    or data row it starts with that keyword. *)
Theorem handleNavigate_lands_on_row
        (p : Provider) (message : ProviderCommands.NavigateMessage)
        (visibleTextEditors : list TextDocument) (n : nat) :
  ProviderCommands.handleNavigate p message visibleTextEditors = Some n ->
  exists doc text,
    currentDocument p = Some doc
    /\ nth_error (lineTexts doc) n = Some text
    /\ match ProviderCommands.nv_rowType message with
       | HEADING => matchKeyword "HEADING" (trim text) = true
       | UNIT => matchKeyword "UNIT" text = true
       | TYPE => matchKeyword "TYPE" text = true
       | DATA => matchKeyword "DATA" text = true
       end.
Proof.
  unfold ProviderCommands.handleNavigate.
  destruct (currentDocument p) as [doc|]; [|discriminate].
  destruct (currentGroup p) as [g|]; [|discriminate].
  destruct (truthy (Some g)); [|discriminate].
  destruct (mapGet _ g) as [group|] eqn:Hget; [|discriminate].
  set (lineNumber := match ProviderCommands.nv_rowType message with
                     | HEADING => _ | UNIT => _ | TYPE => _ | DATA => _
                     end).
  destruct (lineNumber <? 0)%Z eqn:Hneg; [discriminate|].
  apply Z.ltb_ge in Hneg.
  destruct (existsb _ visibleTextEditors); [|discriminate].
  intros H. injection H as <-. exists doc. unfold lineNumber in *.
  destruct (ProviderCommands.nv_rowType message).
  - destruct (InvariantFacts.group_invariant_of _ _ _ Hget)
      as (_ & _ & _ & [[Hh _] | (h & text & Hh & _ & Hnth & Hrow & _)]).
    + rewrite Hh in Hneg. lia.
    + rewrite Hh, Nat2Z.id. exists text. auto.
  - destruct (ResolveFacts.getLineNumber_sound _ _ _ _ Hneg)
      as (m & text & -> & _ & Hnth & Hkw).
    rewrite Nat2Z.id. exists text. auto.
  - destruct (ResolveFacts.getLineNumber_sound _ _ _ _ Hneg)
      as (m & text & -> & _ & Hnth & Hkw).
    rewrite Nat2Z.id. exists text. auto.
  - destruct (ResolveFacts.getLineNumber_sound _ _ _ _ Hneg)
      as (m & text & -> & _ & Hnth & Hkw).
    rewrite Nat2Z.id. exists text. auto.
Qed.

Lemma handleNavigate_lands_on_row_witness :
  exists doc text,
    currentDocument ViewSpec.showingLoca = Some doc
    /\ nth_error (lineTexts doc) 4 = Some text
    /\ matchKeyword "DATA" text = true.
Proof.
  apply (handleNavigate_lands_on_row ViewSpec.showingLoca
           {| ProviderCommands.nv_rowType := DATA;
              ProviderCommands.nv_rowIndex := 1 |}
           [ViewSpec.blankLineDocument] 4).
  reflexivity.
Defined.

(** X13. With a panel and a document, [updateContent] leaves the view
    consistent: either the document has no group, no group is active and
    the page is the empty page, or the active group is a group of the
    document and the page shows it.  An active group that is a group of the
    document is kept, and a second update changes nothing. *)
Theorem updateContent_consistent_idempotent
        (p : Provider) (doc : TextDocument) :
  panel p = true ->
  currentDocument p = Some doc ->
  let gs := groups (parseDocument (lineTexts doc)) in
  let p' := updateContent p in
  ((gs = [] /\ currentGroup p' = None /\ html p' = EmptyHtml)
   \/ exists g group,
        currentGroup p' = Some g /\ mapGet gs g = Some group
        /\ html p' = GroupHtml group)
  /\ (forall g group,
         currentGroup p = Some g -> mapGet gs g = Some group ->
         currentGroup p' = Some g)
  /\ updateContent p' = p'.
Proof.
  intros Hpanel Hdoc gs p'.
  destruct (SelectionFacts.updateContent_consistent p doc Hpanel Hdoc)
    as (Hc & Hp' & Hd' & Hkeep).
  fold p' in Hc, Hp', Hd', Hkeep.
  split; [exact Hc|]. split.
  - intros g group Hg Hget. exact (proj1 (Hkeep g group Hg Hget)).
  - destruct (SelectionFacts.updateContent_consistent p' doc Hp' Hd')
      as (Hc2 & Hp2 & Hd2 & Hkeep2).
    unfold ProviderSpec.viewConsistent in Hc, Hc2. fold gs in Hc, Hc2.
    assert (Hg2 : currentGroup (updateContent p') = currentGroup p'
                  /\ html (updateContent p') = html p').
    { destruct Hc as [(Hnil & Hg & Hh) | (g & group & Hg & Hget & Hh)].
      - destruct Hc2 as [(_ & Hg2 & Hh2) | (g & group & _ & Hget & _)].
        + split; congruence.
        + rewrite Hnil in Hget. discriminate.
      - destruct (Hkeep2 g group Hg Hget) as [E1 E2]. split; congruence. }
    destruct Hg2 as [E1 E2].
    destruct (updateContent p') as [a b c d], p' as [a' b' c' d'].
    cbn in *. congruence.
Qed.

Lemma updateContent_consistent_idempotent_witness :
  updateContent (updateContent ViewSpec.showingSamp)
  = updateContent ViewSpec.showingSamp.
Proof.
  exact (proj2 (proj2 (updateContent_consistent_idempotent
                         ViewSpec.showingSamp ViewSpec.blankLineDocument
                         eq_refl eq_refl))).
Defined.

(** X14. With a panel and a document, a select-group request that names a
    group of the document makes it the active group and shows its page. *)
Theorem handleSelectGroup_present
        (p : Provider) (doc : TextDocument) (groupName : string)
        (group : ParsedGroup) :
  panel p = true ->
  currentDocument p = Some doc ->
  mapGet (groups (parseDocument (lineTexts doc))) groupName = Some group ->
  currentGroup (handleSelectGroup p groupName) = Some groupName
  /\ html (handleSelectGroup p groupName) = GroupHtml group.
Proof.
  intros Hpanel Hdoc Hget. unfold handleSelectGroup.
  destruct (SelectionFacts.updateContent_consistent
              (withGroup p (Some groupName)) doc Hpanel Hdoc)
    as (_ & _ & _ & Hkeep).
  apply Hkeep; [reflexivity | exact Hget].
Qed.

Lemma handleSelectGroup_present_witness :
  currentGroup (handleSelectGroup ViewSpec.showingSamp "LOCA") = Some "LOCA".
Proof.
  exact (proj1 (handleSelectGroup_present ViewSpec.showingSamp
                  ViewSpec.blankLineDocument "LOCA"
                  {| name := "LOCA"; line := 0;
                     headings := ["LOCA_ID"; "LOCA_FDEP"]; headingLine := 1;
                     dataCount := 2; units := []; types := [];
                     data := [["BH1"; "2.50"]; ["BH2"; "4.00"]] |}
                  eq_refl eq_refl eq_refl)).
Defined.

(** X15. When the cursor of the editor of the bound document is on a line
    that [findGroupForLine] gives a group for, [syncWithEditor] leaves that
    group active; it is a group of the document, stored under its name, and
    if it was not active before, the page now shows it.  Without a panel,
    or for an editor of another document, nothing changes and no message is
    posted. *)
Theorem syncWithEditor_follows_cursor
        (p : Provider) (doc : TextDocument) (editor : TextEditor)
        (group : ParsedGroup) :
  currentDocument p = Some doc ->
  (panel p = true ->
   sameDocument (ed_document editor) doc = true ->
   findGroupForLine (parseDocument (lineTexts doc)) (ed_line editor)
   = Some group ->
   let p' := fst (syncWithEditor p editor) in
   currentGroup p' = Some (name group)
   /\ mapGet (groups (parseDocument (lineTexts doc))) (name group)
      = Some group
   /\ (currentGroup p <> Some (name group) -> html p' = GroupHtml group)
   /\ (currentGroup p = Some (name group) -> p' = p))
  /\ (panel p = false \/ sameDocument (ed_document editor) doc = false ->
      syncWithEditor p editor = (p, None)).
Proof.
  intros Hdoc. split.
  - intros Hpanel Hsame Hfind p'.
    pose proof (SelectionFacts.findGroupForLine_stored _ _ _ Hfind) as Hget.
    assert (Hp' : p' = if match currentGroup p with
                          | Some g => negb (String.eqb g (name group))
                          | None => true
                          end
                       then updateContent (withGroup p (Some (name group)))
                       else p).
    { unfold p', syncWithEditor. rewrite Hpanel, Hdoc, Hsame, Hfind.
      cbn [negb].
      destruct (match currentGroup p with
                | Some g => negb (String.eqb g (name group))
                | None => true
                end);
        destruct (nth_error _ _);
        repeat match goal with
               | |- context [if ?b then _ else _] => destruct b
               end; reflexivity. }
    destruct (SelectionFacts.updateContent_consistent
                (withGroup p (Some (name group))) doc Hpanel Hdoc)
      as (_ & _ & _ & Hkeep).
    destruct (Hkeep (name group) group eq_refl Hget) as [Hg Hh].
    destruct (currentGroup p) as [g|] eqn:Hcur.
    + destruct (String.eqb g (name group)) eqn:E; cbn [negb] in Hp'.
      * apply String.eqb_eq in E. subst g. rewrite Hp'.
        repeat split; auto. congruence.
      * apply String.eqb_neq in E. rewrite Hp'.
        repeat split; auto. congruence.
    + rewrite Hp'. repeat split; auto. discriminate.
  - intros [H|H]; unfold syncWithEditor; [now rewrite H|].
    destruct (panel p); [|reflexivity]. now rewrite Hdoc, H.
Qed.

Lemma syncWithEditor_follows_cursor_witness :
  currentGroup
    (fst (syncWithEditor ViewSpec.showingSamp
            {| ed_document := ViewSpec.blankLineDocument; ed_line := 2 |}))
  = Some "LOCA".
Proof.
  destruct (syncWithEditor_follows_cursor ViewSpec.showingSamp
              ViewSpec.blankLineDocument
              {| ed_document := ViewSpec.blankLineDocument; ed_line := 2 |}
              {| name := "LOCA"; line := 0;
                 headings := ["LOCA_ID"; "LOCA_FDEP"]; headingLine := 1;
                 dataCount := 2; units := []; types := [];
                 data := [["BH1"; "2.50"]; ["BH2"; "4.00"]] |}
              eq_refl) as [H _].
  exact (proj1 (H eq_refl eq_refl eq_refl)).
Defined.



(** X17. After [show] the panel is open on the document and the view is
    consistent: the active group is a group of the document and the page
    shows it, or the document has no group and the page is the empty page.
    When the panel is created and the active editor is on the document with
    its cursor in a group, that group becomes the active group. *)
Theorem show_opens_consistent_view
        (p : Provider) (document : TextDocument)
        (activeTextEditor : option TextEditor) :
  let gs := groups (parseDocument (lineTexts document)) in
  let p' := ProviderCommands.show p document activeTextEditor in
  panel p' = true
  /\ currentDocument p' = Some document
  /\ ((gs = [] /\ currentGroup p' = None /\ html p' = EmptyHtml)
      \/ exists g group,
           currentGroup p' = Some g /\ mapGet gs g = Some group
           /\ html p' = GroupHtml group)
  /\ (forall editor group,
         panel p = false ->
         activeTextEditor = Some editor ->
         sameDocument (ed_document editor) document = true ->
         findGroupForLine (parseDocument (lineTexts document))
           (ed_line editor) = Some group ->
         currentGroup p' = Some (name group)
         /\ html p' = GroupHtml group).
Proof.
  intros gs p'.
  assert (Hshape : exists q,
             panel q = true /\ currentDocument q = Some document
             /\ p' = updateContent q
             /\ forall editor group,
                 panel p = false ->
                 activeTextEditor = Some editor ->
                 sameDocument (ed_document editor) document = true ->
                 findGroupForLine (parseDocument (lineTexts document))
                   (ed_line editor) = Some group ->
                 currentGroup q = Some (name group)).
  { unfold p', ProviderCommands.show.
    destruct (panel p) eqn:Hpanel.
    - exists (withDocument p document). repeat split; auto. discriminate.
    - destruct activeTextEditor as [editor|].
      + destruct (sameDocument (ed_document editor) document) eqn:Hs.
        * destruct (findGroupForLine _ (ed_line editor)) as [g|] eqn:Hf;
            eexists; (split; [|split; [|split; [reflexivity|]]]);
            try reflexivity;
            intros e group _ E Hs' Hf'; injection E as <-;
            cbn [withGroup currentGroup]; congruence.
        * eexists; (split; [|split; [|split; [reflexivity|]]]);
            try reflexivity.
          intros e group _ E Hs' Hf'. injection E as <-. congruence.
      + eexists; (split; [|split; [|split; [reflexivity|]]]);
          try reflexivity.
        discriminate. }
  destruct Hshape as (q & Hpanel & Hdoc & -> & Hsel).
  destruct (SelectionFacts.updateContent_consistent q document Hpanel Hdoc)
    as (Hc & Hp & Hd & Hkeep).
  split; [exact Hp|]. split; [exact Hd|]. split; [exact Hc|].
  intros editor group H1 H2 H3 H4.
  apply Hkeep; [eapply Hsel; eauto|].
  eapply SelectionFacts.findGroupForLine_stored; eauto.
Qed.

Lemma show_opens_consistent_view_witness :
  currentGroup
    (ProviderCommands.show
       {| panel := false; currentDocument := None; currentGroup := None;
          html := NoHtml |}
       ViewSpec.blankLineDocument
       (Some {| ed_document := ViewSpec.blankLineDocument; ed_line := 6 |}))
  = Some "SAMP".
Proof.
  destruct (show_opens_consistent_view
              {| panel := false; currentDocument := None;
                 currentGroup := None; html := NoHtml |}
              ViewSpec.blankLineDocument
              (Some {| ed_document := ViewSpec.blankLineDocument;
                       ed_line := 6 |})) as (_ & _ & _ & H).
  exact (proj1 (H {| ed_document := ViewSpec.blankLineDocument;
                     ed_line := 6 |}
                  {| name := "SAMP"; line := 5; headings := ["LOCA_ID"];
                     headingLine := 6; dataCount := 1; units := [];
                     types := []; data := [["BH1"]] |}
                  eq_refl eq_refl eq_refl eq_refl)).
Defined.

(** X18.  [escapeHtml] replaces each of the five characters [&], [<],
    [>], the double quote and the apostrophe by its entity and copies every
    other character: the five sequential passes never escape the ampersand
    of an entity a second time.  An absent text gives the empty string.
    The result holds no [<], [>], double quote or apostrophe, and two
    different texts never have the same escaped form. *)
Theorem escapeHtml_entities :
  ProviderCommands.escapeHtml None = EmptyString
  /\ (forall s,
         ProviderCommands.escapeHtml (Some s) = ProviderSpec.escapeAll s)
  /\ (forall t,
         ProviderSpec.hasMarkup (ProviderCommands.escapeHtml t) = false)
  /\ (forall a b,
         ProviderCommands.escapeHtml (Some a)
         = ProviderCommands.escapeHtml (Some b) -> a = b).
Proof.
  split; [reflexivity|]. split; [exact EscapeFacts.escapeHtml_escapeAll|].
  split.
  - intros [s|]; [|reflexivity].
    rewrite EscapeFacts.escapeHtml_escapeAll.
    apply EscapeFacts.hasMarkup_escapeAll.
  - intros a b. rewrite !EscapeFacts.escapeHtml_escapeAll.
    apply EscapeFacts.escapeAll_injective.
Qed.

(** X19.  Every folding range of [provideFoldingRanges] starts on the
    line that declares a group of the parsed document, ends on a later line
    of the document that is not blank, and ends before the start line of
    every group that starts after it.  The ranges are returned in document
    order and do not overlap. *)
Theorem provideFoldingRanges_well_formed (document : list string) :
  let ranges := LanguageProviders.provideFoldingRanges document in
  Forall
    (fun r =>
       (exists k g text,
           In (k, g) (groups (parseDocument document))
           /\ line g = LanguageProviders.fr_start r
           /\ nth_error document (LanguageProviders.fr_start r) = Some text
           /\ SegmentSpec.declares text = Some k)
       /\ LanguageProviders.fr_start r < LanguageProviders.fr_end r
          < List.length document
       /\ (exists text,
              nth_error document (LanguageProviders.fr_end r) = Some text
              /\ isEmpty (trim text) = false)
       /\ (forall k g,
              In (k, g) (groups (parseDocument document)) ->
              LanguageProviders.fr_start r < line g ->
              LanguageProviders.fr_end r < line g))
    ranges
  /\ StronglySorted
       (fun r1 r2 =>
          LanguageProviders.fr_end r1 < LanguageProviders.fr_start r2)
       ranges.
Proof.
  cbv zeta. unfold LanguageProviders.provideFoldingRanges.
  set (glines := List.map (fun e : string * ParsedGroup => line (snd e))
                   (groups (parseDocument document))).
  pose proof (FoldingFacts.arraySort_ascending_perm glines) as Hperm.
  destruct (InvariantFacts.parseDocument_invariant document) as [Hinv _].
  rewrite Forall_forall in Hinv.
  destruct (FoldingFacts.foldingRangesFrom_spec document
              (arraySort LanguageProviders.ascending glines))
    as [Hall Hsorted].
  - apply FoldingFacts.sorted_nodup_strict.
    + apply FoldingFacts.arraySort_ascending_sorted.
    + eapply Permutation_NoDup; [exact Hperm|].
      apply FoldingFacts.group_lines_NoDup.
  - eapply Permutation_Forall; [exact Hperm|].
    apply Forall_forall. intros x Hx. apply in_map_iff in Hx.
    destruct Hx as ([k g] & <- & Hin). cbn [snd].
    destruct (Hinv _ Hin) as (_ & (text & Ht & _) & _).
    apply nth_error_Some. congruence.
  - split; [|exact Hsorted].
    eapply Forall_impl; [|exact Hall].
    intros r (Hstart & Hr & Hne & Hnext).
    split; [|split; [exact Hr|split; [exact Hne|]]].
    + apply (Permutation_in _ (Permutation_sym Hperm)) in Hstart.
      apply in_map_iff in Hstart.
      destruct Hstart as ([k g] & E & Hin). cbn [snd] in E.
      destruct (Hinv _ Hin) as (_ & (text & Ht & Hd) & _).
      exists k, g, text. rewrite <- E. auto.
    + intros k g Hin. apply Hnext.
      apply (Permutation_in _ Hperm).
      apply in_map_iff. exists (k, g). auto.
Qed.

(** X20.  [provideDocumentSymbols] builds one symbol for each group of the
    parsed document, in the order of the groups and with pairwise different
    names.  The range of a group symbol is on a line of the document that
    declares the group of that name.  Every child symbol is named after a
    field of a HEADING row of the document that lies after the group line,
    and its range is on the line of that row: a symbol is never placed on
    the line -1 of a group without heading row. *)
Theorem provideDocumentSymbols_ranges
        (dictGroups dictHeadings dictHeadingDescription
         : string -> option string)
        (document : list string) :
  let symbols :=
    LanguageProviders.provideDocumentSymbols
      dictGroups dictHeadings dictHeadingDescription document in
  List.map LanguageProviders.sym_name symbols
  = mapKeys (groups (parseDocument document))
  /\ NoDup (List.map LanguageProviders.sym_name symbols)
  /\ Forall
       (fun s =>
          (exists l text,
              LanguageProviders.sym_line s = Z.of_nat l
              /\ nth_error document l = Some text
              /\ SegmentSpec.declares text
                 = Some (LanguageProviders.sym_name s))
          /\ Forall
               (fun c =>
                  exists h text,
                    LanguageProviders.hs_line c = Z.of_nat h
                    /\ (LanguageProviders.sym_line s < Z.of_nat h)%Z
                    /\ nth_error document h = Some text
                    /\ SegmentSpec.isRow "HEADING" text = true
                    /\ In (LanguageProviders.hs_name c)
                          (SegmentSpec.rowOf text))
               (LanguageProviders.sym_children s))
       symbols.
Proof.
  cbv zeta. unfold LanguageProviders.provideDocumentSymbols.
  destruct (InvariantFacts.parseDocument_invariant document) as [Hinv Hnd].
  assert (Hnames :
            List.map LanguageProviders.sym_name
              (List.map
                 (fun entry : string * ParsedGroup =>
                    let '(nm, group) := entry in
                    {| LanguageProviders.sym_name := nm;
                       LanguageProviders.sym_detail :=
                         (LanguageProviders.orElse (dictGroups nm)
                            "User-defined group" ++ " ("
                            ++ LanguageProviders.numberToString
                                 (dataCount group) ++ " rows)")%string;
                       LanguageProviders.sym_kind := LanguageProviders.Class;
                       LanguageProviders.sym_line := Z.of_nat (line group);
                       LanguageProviders.sym_children :=
                         List.map
                           (fun heading =>
                              {| LanguageProviders.hs_name := heading;
                                 LanguageProviders.hs_detail :=
                                   LanguageProviders.orElse
                                     (dictHeadings heading)
                                     (LanguageProviders.orElse
                                        (dictHeadingDescription heading)
                                        EmptyString);
                                 LanguageProviders.hs_kind :=
                                   LanguageProviders.Field;
                                 LanguageProviders.hs_line :=
                                   headingLine group |})
                           (headings group) |})
                 (groups (parseDocument document)))
            = mapKeys (groups (parseDocument document))).
  { unfold mapKeys. rewrite map_map. apply map_ext.
    intros [k g]. reflexivity. }
  split; [exact Hnames|]. split; [rewrite Hnames; exact Hnd|].
  apply Forall_map. eapply Forall_impl; [|exact Hinv].
  intros [k g] (Hname & (text & Ht & Hd) & _ & Hhead).
  cbn [LanguageProviders.sym_line LanguageProviders.sym_name
       LanguageProviders.sym_children].
  split; [exists (line g), text; auto|].
  apply Forall_map. apply Forall_forall. intros heading Hin.
  cbn [LanguageProviders.hs_line LanguageProviders.hs_name].
  destruct Hhead as [[_ Hnone]|(h & t & Hh & Hlt & Hnth & Hrow & Hhs)].
  - rewrite Hnone in Hin. destruct Hin.
  - exists h, t. rewrite <- Hhs. repeat split; auto; lia.
Qed.

(** X21.  Reading a line is the inverse of writing it: for fields that
    hold no double quote, [extractQuotedFields] on the line made of the
    quoted fields with commas between them gives back the fields, also
    when a field holds a comma or is empty. *)
Theorem extractQuotedFields_joinFields (fields : list string) :
  Forall (fun field => countQuotes field = 0) fields ->
  extractQuotedFields (LineSpec.joinFields fields) = fields.
Proof.
  intros H. unfold extractQuotedFields.
  now apply LineFacts.extractFrom_joinFields.
Qed.

Lemma extractQuotedFields_joinFields_witness :
  extractQuotedFields (LineSpec.joinFields ["DATA"; "BH1"; "a,b"; ""])
  = ["DATA"; "BH1"; "a,b"; ""].
Proof.
  apply (extractQuotedFields_joinFields ["DATA"; "BH1"; "a,b"; ""]).
  repeat constructor.
Defined.

(** X22.  On a line made of quoted fields with commas between them, the
    fields without double quote, [getColumnAtPosition] gives the index of
    the field for every position from the opening quote of a field to
    just after its closing quote: a comma inside a field does not count. *)
Theorem getColumnAtPosition_joinFields
        (before after : list string) (field : string) (d : nat) :
  Forall (fun f => countQuotes f = 0) (before ++ field :: after) ->
  d <= String.length field + 2 ->
  getColumnAtPosition (LineSpec.joinFields (before ++ field :: after))
    (LineSpec.fieldOffset before + d)
  = List.length before.
Proof.
  intros Hq Hd. unfold getColumnAtPosition.
  now rewrite LineFacts.columnLoop_joinFields.
Qed.

Lemma getColumnAtPosition_joinFields_witness :
  getColumnAtPosition
    (LineSpec.joinFields (["DATA"; "a,b"] ++ "BH1" :: ["2.50"]))
    (LineSpec.fieldOffset ["DATA"; "a,b"] + 4)
  = 2.
Proof.
  apply (getColumnAtPosition_joinFields ["DATA"; "a,b"] ["2.50"] "BH1" 4).
  - repeat constructor.
  - cbn. lia.
Defined.

(** X23.  In the summary of a parsed document, the count stored in
    [recordsByLocation] for a location and a group is the number of data
    rows of that group whose LOCA_ID field is that location and is not
    empty, a count that is absent read as 0: it is 0 for a name that is no
    group of the document and for a group without LOCA_ID heading.  Every
    count that is stored is positive. *)
Theorem recordsByLocation_counts
        (dictGroups : string -> option string) (document : list string)
        (locaId groupName : string) :
  let parsed := parseDocument document in
  let summary := generateSummary dictGroups parsed in
  SummarySpec.recordsAt (recordsByLocation summary) locaId groupName
  = match mapGet (groups parsed) groupName with
    | Some g => SummarySpec.recordCount g locaId
    | None => 0
    end
  /\ SummarySpec.positiveCounts (recordsByLocation summary).
Proof.
  cbv zeta. cbn [generateSummary recordsByLocation]. unfold countGroups.
  destruct (InvariantFacts.parseDocument_invariant document) as [_ Hnd].
  split.
  - rewrite LocationCountFacts.countGroups_at by exact Hnd.
    reflexivity.
  - apply LocationCountFacts.countGroups_positive.
    intros L lg k n H. discriminate.
Qed.

(** X24.  In a summary, the count of a type in [locationsByType] is the
    number of entries of [locations] that have that type, the type not
    empty: the two results of the loop over the LOCA rows agree. *)
Theorem locationsByType_counts
        (dictGroups : string -> option string) (parsed : ParsedDocument)
        (type : string) :
  let summary := generateSummary dictGroups parsed in
  SummarySpec.typeCount (locationsByType summary) type
  = List.length (filter (SummarySpec.ofType type) (locations summary)).
Proof.
  cbv zeta. cbn [generateSummary locationsByType locations].
  unfold locationInventory.
  destruct (mapGet (groups parsed) "LOCA"); [|reflexivity].
  apply LocationCountFacts.locationRows_types. reflexivity.
Qed.

(** X25.  Closing an open view with [toggle] and opening it again with
    [toggle] on the same document restores it, when the view was
    consistent with the document and the active editor, if any, shows
    another document: the active group and the page are the same. *)
Theorem toggle_twice_restores_view
        (p : Provider) (doc other : TextDocument)
        (e1 e2 : option TextEditor) :
  panel p = true ->
  currentDocument p = Some doc ->
  ProviderSpec.viewConsistent doc p ->
  (forall editor,
      e2 = Some editor -> sameDocument (ed_document editor) doc = false) ->
  ProviderCommands.toggle (ProviderCommands.toggle p other e1) doc e2 = p.
Proof.
  intros Hpanel Hdoc Hc He.
  set (p1 := {| panel := true; currentDocument := Some doc;
                currentGroup := currentGroup p; html := NoHtml |}).
  assert (E : ProviderCommands.toggle (ProviderCommands.toggle p other e1)
                doc e2 = updateContent p1).
  { unfold ProviderCommands.toggle at 2. rewrite Hpanel.
    unfold ProviderCommands.hide. rewrite Hpanel.
    unfold ProviderCommands.toggle, ProviderCommands.show.
    cbn [panel currentGroup]. fold p1.
    destruct e2 as [editor|]; [|reflexivity].
    rewrite (He editor eq_refl). reflexivity. }
  rewrite E.
  destruct (SelectionFacts.updateContent_consistent p1 doc eq_refl eq_refl)
    as (Hc1 & Hp1 & Hd1 & Hkeep).
  assert (Hsame : currentGroup (updateContent p1) = currentGroup p
                  /\ html (updateContent p1) = html p).
  { unfold ProviderSpec.viewConsistent in Hc, Hc1.
    destruct Hc as [(Hnil & Hg & Hh) | (g & group & Hg & Hget & Hh)].
    - destruct Hc1 as [(_ & Hg1 & Hh1) | (g & group & _ & Hget & _)].
      + split; congruence.
      + rewrite Hnil in Hget. discriminate.
    - destruct (Hkeep g group Hg Hget) as [E1 E2]. split; congruence. }
  destruct Hsame as [E1 E2].
  destruct (updateContent p1) as [a b c d], p as [a' b' c' d'].
  cbn in *. congruence.
Qed.

Lemma toggle_twice_restores_view_witness :
  ProviderCommands.toggle
    (ProviderCommands.toggle (updateContent ViewSpec.showingSamp)
       ViewSpec.blankLineDocument None)
    ViewSpec.blankLineDocument None
  = updateContent ViewSpec.showingSamp.
Proof.
  apply (toggle_twice_restores_view (updateContent ViewSpec.showingSamp)
           ViewSpec.blankLineDocument ViewSpec.blankLineDocument None None).
  - reflexivity.
  - reflexivity.
  - right. eexists. eexists. repeat split; reflexivity.
  - discriminate.
Defined.

(** X26.  The table view finds the rows the parser read.  For a group of
    the parsed document whose lines up to the next group declaration have
    no indented DATA row, no line that starts with the GROUP keyword and at
    most 9 lines that are not data rows, [getLineNumber] gives for the
    index of every data row of the group the line of the document that
    holds it: a DATA row of the group with exactly that many DATA rows of
    the group before it, and whose fields after the first are the row. *)
Theorem getLineNumber_finds_parsed_row
        (document : list string) (k : string) (g : ParsedGroup)
        (i : nat) (row : list string) :
  mapGet (groups (parseDocument document)) k = Some g ->
  Forall (fun l => SegmentSpec.isRow "DATA" l = true ->
                   matchKeyword "DATA" l = true)
    (SegmentSpec.segment document (line g)) ->
  Forall (fun l => matchKeyword "GROUP" l = false)
    (SegmentSpec.segment document (line g)) ->
  List.length (filter (fun l => negb (SegmentSpec.isRow "DATA" l))
                 (SegmentSpec.segment document (line g))) <= 9 ->
  nth_error (data g) i = Some row ->
  exists j text,
    getLineNumber document g EditDATA (Z.of_nat i)
    = Z.of_nat (S (line g) + j)
    /\ nth_error document (S (line g) + j) = Some text
    /\ SegmentSpec.isRow "DATA" text = true
    /\ SegmentSpec.rowOf text = row
    /\ List.length
         (filter (SegmentSpec.isRow "DATA")
            (firstn j (SegmentSpec.segment document (line g)))) = i.
Proof. apply AgreementFacts.getLineNumber_complete. Qed.

Lemma getLineNumber_finds_parsed_row_witness :
  exists j text,
    getLineNumber (lineTexts ViewSpec.blankLineDocument)
      {| name := "LOCA"; line := 0;
         headings := ["LOCA_ID"; "LOCA_FDEP"]; headingLine := 1;
         dataCount := 2; units := []; types := [];
         data := [["BH1"; "2.50"]; ["BH2"; "4.00"]] |}
      EditDATA (Z.of_nat 1)
    = Z.of_nat (S 0 + j)
    /\ nth_error (lineTexts ViewSpec.blankLineDocument) (S 0 + j)
       = Some text
    /\ SegmentSpec.isRow "DATA" text = true
    /\ SegmentSpec.rowOf text = ["BH2"; "4.00"]
    /\ List.length
         (filter (SegmentSpec.isRow "DATA")
            (firstn j
               (SegmentSpec.segment
                  (lineTexts ViewSpec.blankLineDocument) 0))) = 1.
Proof.
  apply (getLineNumber_finds_parsed_row
           (lineTexts ViewSpec.blankLineDocument) "LOCA"
           {| name := "LOCA"; line := 0;
              headings := ["LOCA_ID"; "LOCA_FDEP"]; headingLine := 1;
              dataCount := 2; units := []; types := [];
              data := [["BH1"; "2.50"]; ["BH2"; "4.00"]] |}
           1 ["BH2"; "4.00"]).
  - reflexivity.
  - vm_compute. repeat (constructor; [intros H; exact H|]).
    constructor.
  - vm_compute. repeat constructor.
  - vm_compute. lia.
  - reflexivity.
Defined.
